(** * audio-stream-transcribe: session orchestration

    A shallow embedding of the three server components of the package,

    - [WebSocketManager]  (dist/server/WebSocketManager.js): the connection
      registry with its two indices and the per-user admission cap;
    - [LLMProcessor]      (src/server/LLMProcessor.ts): per-session batches,
      their flush timer and the request built on a flush;
    - [AudioStreamServer] (src/server/AudioStreamServer.ts): per-session audio
      buffers, the [processingQueue] guard and the stop-recording drain,

    together with the properties of the specification that concern them.

    JavaScript runs one macrotask at a time and drains every microtask before
    the next one starts.  An [async] method is therefore embedded as the
    function that runs it up to its first pending [await], plus a recorded
    continuation that is run when the awaited promise settles. *)

From Stdlib Require Import ZArith List String Strings.Byte.
From stdpp Require Import base gmap sets list strings.

Local Open Scope string_scope.
Local Open Scope list_scope.
Local Open Scope nat_scope.

(** ** Values shared by the three components *)

(** A Node [Buffer]; [Buffer.concat] is list concatenation. *)
Notation Buffer := (list Byte.byte).

Definition Buffer_concat (chunks : list Buffer) : Buffer := concat chunks.

(** JavaScript truthiness, as used by [if (x)], [x && y] and [!x]. *)
Class Truthy (A : Type) := truthy : A → bool.

#[global] Instance bool_truthy : Truthy bool := λ b, b.
#[global] Instance nat_truthy : Truthy nat :=
  λ n, match n with O => false | S _ => true end.
#[global] Instance Z_truthy : Truthy Z :=
  λ z, match z with Z0 => false | _ => true end.
#[global] Instance string_truthy : Truthy string :=
  λ s, match s with EmptyString => false | String _ _ => true end.
#[global] Instance option_truthy {A} `{Truthy A} : Truthy (option A) :=
  λ o, match o with Some a => truthy a | None => false end.

(** The values a [Record<string, any>] holds, as far as the server looks at
    them. *)
Record AudioFormat := {
  mimeType : string;
  sampleRate : option nat;
  channels : option nat;
  bitDepth : option nat
}.

Inductive JsVal :=
  | JBool (b : bool)
  | JNum (z : Z)
  | JStr (s : string)
  | JFormat (f : AudioFormat)
  | JBigInt (z : Z).

#[global] Instance JsVal_truthy : Truthy JsVal :=
  λ v, match v with
       | JBool b => b
       | JNum z => truthy z
       | JStr s => truthy s
       | JFormat _ => true
       | JBigInt z => truthy z
       end.

Notation Metadata := (gmap string JsVal).

(** [{ ...md, k: v }] for an optional [md]. *)
Definition spread_set (md : option Metadata) (k : string) (v : JsVal) : Metadata :=
  <[k := v]> (default ∅ md).

(** common/types.ts: [TranscriptionResult].  Numbers are carried as they
    come; the server never computes with them. *)
Record TranscriptionResult := {
  transcript : string;
  speaker : option string;
  confidence : option Z;
  timestamp : option Z;
  result_metadata : option Metadata
}.

Definition transcript_of (r : TranscriptionResult) : string := transcript r.

(** common/types.ts: [AudioChunk]. *)
Record AudioChunk := {
  data : Buffer;
  chunk_timestamp : Z;
  format : JsVal;
  chunk_sessionId : string
}.

(** What is handed to [sendMessage]: the server's own messages, and those
    of a caller of [sendToSession], [sendToUser] or [broadcast], a string or
    an object. *)
Inductive Message :=
  | MsgPong
  | MsgStamped (type : string) (timestamp : Z)
  | MsgTranscription (data : TranscriptionResult)
  | MsgText (text : string)
  | MsgObject (fields : Metadata).

(** [JSON.stringify] returns for the value; it throws a TypeError on a
    BigInt (which stands here for every value it rejects, a cyclic object
    being the other one). *)
Definition stringifies (v : JsVal) : bool :=
  match v with
  | JBigInt _ => false
  | _ => true
  end.

Definition stringifies_all (md : option Metadata) : bool :=
  bool_decide (map_Forall (λ _ v, stringifies v = true) (default ∅ md)).

(** [typeof message === 'string' ? message : JSON.stringify(message)]
    returns: a string is taken as it is, the server's literals hold strings
    and numbers only, a transcription message holds the provider's result
    with its [metadata: Record<string, any>]. *)
Definition serialisable (msg : Message) : bool :=
  match msg with
  | MsgPong => true
  | MsgStamped _ _ => true
  | MsgTranscription result => stringifies_all (result_metadata result)
  | MsgText _ => true
  | MsgObject fields => stringifies_all (Some fields)
  end.

(** A socket object of the [ws] package, whose [ping], [terminate] and
    [pong] event the registry uses, as a [ws] server hands it over: it is
    never [CONNECTING] (0), the only state in which its [send] and [ping]
    throw; otherwise they report a failure through the callback and the
    [error] event.  [readyState = 1] is [WebSocket.OPEN]. *)
Record WebSocket := {
  readyState : nat;
  sent : list Message;
  closed : option (nat * string)
}.

Definition ws_send (m : Message) (w : WebSocket) : WebSocket :=
  {| readyState := readyState w; sent := sent w ++ [m]; closed := closed w |}.

Definition ws_close (code : nat) (reason : string) (w : WebSocket) : WebSocket :=
  {| readyState := 2; sent := sent w; closed := Some (code, reason) |}.

(** ** The connection registry

    The heartbeat ([startPingInterval]) reads and resets [isAlive] and
    removes connections through [removeConnection]; it is embedded, with
    the pong timeouts it arms, after the registry's own operations. *)

Module WebSocketManager.

Record WebSocketConnection := {
  ws : nat;
  sessionId : string;
  userId : option string;
  metadata : option Metadata;
  isAlive : bool;
  lastActivity : Z
}.

Record Options := {
  pingInterval : option nat;
  pongTimeout : option nat;
  maxConnectionsPerUser : option nat
}.

Record Params := {
  p_ws : nat;
  p_sessionId : string;
  p_userId : option string;
  p_metadata : option Metadata
}.

Inductive Emitted :=
  | ConnectionAdded (sessionId : string) (userId : option string)
  | ConnectionRemoved (sessionId : string) (userId : option string).

(** The manager: its options, [connections] (sessionId → connection),
    [userConnections] (userId → Set of sessionId), the socket objects the
    connections point to (by handle), and the events emitted so far. *)
Record t := {
  options : Options;
  connections : gmap string WebSocketConnection;
  userConnections : gmap string (gset string);
  sockets : gmap nat WebSocket;
  emitted : list Emitted
}.

Definition new (opts : Options) (heap : gmap nat WebSocket) : t :=
  {| options := opts; connections := ∅; userConnections := ∅;
     sockets := heap; emitted := [] |}.

(** [userId && this.options.maxConnectionsPerUser] followed by the size
    test: true when the attempt is refused. *)
Definition overCap (m : t) (uid : option string) : bool :=
  match uid, maxConnectionsPerUser (options m) with
  | Some u, Some max =>
      if truthy u && truthy max then
        match userConnections m !! u with
        | Some userSessions => bool_decide (max ≤ size userSessions)
        | None => false
        end
      else false
  | _, _ => false
  end.

(** [if (userId) { ... this.userConnections.get(userId).add(sessionId) }] *)
Definition indexUser (uid : option string) (sid : string)
    (users : gmap string (gset string)) : gmap string (gset string) :=
  match uid with
  | Some u =>
      if truthy u then
        <[u := default ∅ (users !! u) ∪ {[sid]}]> users
      else users
  | None => users
  end.

Definition addConnection (now : Z) (p : Params) (m : t) : bool * t :=
  if overCap m (p_userId p) then (false, m)
  else
    let connection :=
      {| ws := p_ws p; sessionId := p_sessionId p; userId := p_userId p;
         metadata := p_metadata p; isAlive := true; lastActivity := now |} in
    (true,
     {| options := options m;
        connections := <[p_sessionId p := connection]> (connections m);
        userConnections :=
          indexUser (p_userId p) (p_sessionId p) (userConnections m);
        sockets := sockets m;
        emitted := emitted m ++ [ConnectionAdded (p_sessionId p) (p_userId p)] |}).

(** [userSessions.delete(sessionId)], then the entry is dropped when the
    set is left empty. *)
Definition unindexUser (uid : option string) (sid : string)
    (users : gmap string (gset string)) : gmap string (gset string) :=
  match uid with
  | Some u =>
      if truthy u then
        match users !! u with
        | Some userSessions =>
            let rest := userSessions ∖ {[sid]} in
            if decide (size rest = 0) then delete u users
            else <[u := rest]> users
        | None => users
        end
      else users
  | None => users
  end.

Definition removeConnection (sid : string) (m : t) : t :=
  match connections m !! sid with
  | None => m
  | Some connection =>
      {| options := options m;
         connections := delete sid (connections m);
         userConnections :=
           unindexUser (userId connection) sid (userConnections m);
         sockets := sockets m;
         emitted := emitted m ++ [ConnectionRemoved sid (userId connection)] |}
  end.

Definition getConnection (sid : string) (m : t) : option WebSocketConnection :=
  connections m !! sid.

(** [Array.from(sessionIds).map(...).filter(conn => conn !== undefined)];
    the order of a [gset]'s elements stands for the Set's insertion
    order, which no property below depends on. *)
Definition getConnectionsByUser (uid : string) (m : t) : list WebSocketConnection :=
  match userConnections m !! uid with
  | None => []
  | Some sessionIds => omap (λ sid, connections m !! sid) (elements sessionIds)
  end.

Definition touch (now : Z) (c : WebSocketConnection) : WebSocketConnection :=
  {| ws := ws c; sessionId := sessionId c; userId := userId c;
     metadata := metadata c; isAlive := isAlive c; lastActivity := now |}.

(** [sendMessage]: refused unless the session is registered and its
    socket is open.  Then, in the [try] block, the message is serialised,
    written, and [lastActivity] refreshed; when the serialisation throws,
    the [catch] answers false and nothing has been written. *)
Definition sendMessage (now : Z) (sid : string) (msg : Message) (m : t) : bool * t :=
  match connections m !! sid with
  | None => (false, m)
  | Some connection =>
      match sockets m !! ws connection with
      | Some sock =>
          if decide (readyState sock = 1) then
            if serialisable msg then
              (true,
               {| options := options m;
                  connections := <[sid := touch now connection]> (connections m);
                  userConnections := userConnections m;
                  sockets := <[ws connection := ws_send msg sock]> (sockets m);
                  emitted := emitted m |})
            else (false, m)
          else (false, m)
      | None => (false, m)
      end
  end.

(** [connection.metadata = md] on the connection object the registry
    holds for [sid]. *)
Definition setMetadata (sid : string) (md : Metadata) (m : t) : t :=
  {| options := options m;
     connections :=
       alter (λ c, {| ws := ws c; sessionId := sessionId c; userId := userId c;
                      metadata := Some md; isAlive := isAlive c;
                      lastActivity := lastActivity c |}) sid (connections m);
     userConnections := userConnections m;
     sockets := sockets m;
     emitted := emitted m |}.

Definition closeSocket (h : nat) (code : nat) (reason : string) (m : t) : t :=
  {| options := options m;
     connections := connections m;
     userConnections := userConnections m;
     sockets := alter (ws_close code reason) h (sockets m);
     emitted := emitted m |}.

(** The peer is gone: the socket [h] is [CLOSED]. *)
Definition socketGone (h : nat) (m : t) : t :=
  {| options := options m;
     connections := connections m;
     userConnections := userConnections m;
     sockets := alter (λ w, {| readyState := 3; sent := sent w; closed := closed w |})
                  h (sockets m);
     emitted := emitted m |}.

(** The number of sessions the secondary index holds for a user. *)
Definition sessionCount (m : t) (u : string) : nat :=
  size (default ∅ (userConnections m !! u)).

(** Registry states produced from a fresh manager by [addConnection] and
    [removeConnection] in any order. *)
Inductive reachable (opts : Options) : t → Prop :=
  | reach_new heap : reachable opts (new opts heap)
  | reach_add now p m :
      reachable opts m → reachable opts (addConnection now p m).2
  | reach_remove sid m :
      reachable opts m → reachable opts (removeConnection sid m).

(** The same, with caller-unique session ids: a session id is only
    offered for admission while no connection is registered under it. *)
Inductive reachable_unique (opts : Options) : t → Prop :=
  | ureach_new heap : reachable_unique opts (new opts heap)
  | ureach_add now p m :
      reachable_unique opts m →
      connections m !! p_sessionId p = None →
      reachable_unique opts (addConnection now p m).2
  | ureach_remove sid m :
      reachable_unique opts m → reachable_unique opts (removeConnection sid m).

(** Adding the sessions [sids] one after the other for one user;
    returns the answers in order and the final registry. *)
Fixpoint addConnections (now : Z) (h : nat) (uid : option string) (sids : list string)
    (m : t) : list bool * t :=
  match sids with
  | [] => ([], m)
  | sid :: rest =>
      let '(ok, m1) :=
        addConnection now
          {| p_ws := h; p_sessionId := sid; p_userId := uid; p_metadata := None |} m in
      let '(oks, m2) := addConnections now h uid rest m1 in
      (ok :: oks, m2)
  end.

(** The secondary index never has an entry for a falsy user id. *)
Definition keys_truthy (users : gmap string (gset string)) : Prop :=
  ∀ u us, users !! u = Some us → truthy u = true.

(** Every set of the secondary index is non-empty, belongs to a truthy
    user id, and names only sessions that the primary index holds for
    that user. *)
Definition indexed (m : t) : Prop :=
  ∀ u us, userConnections m !! u = Some us →
    us ≠ ∅ ∧ truthy u = true ∧
    ∀ sid, sid ∈ us → ∃ c, connections m !! sid = Some c ∧ userId c = Some u.

(** Every connection of the primary index is filed under its own session
    id and, when its user id is truthy, is named in that user's set. *)
Definition registered (m : t) : Prop :=
  ∀ sid c, connections m !! sid = Some c →
    sessionId c = sid ∧
    ∀ u, userId c = Some u → truthy u = true →
      ∃ us, userConnections m !! u = Some us ∧ sid ∈ us.

Definition consistent (m : t) : Prop := indexed m ∧ registered m.

(** Options that set nothing but the per-user cap; the parameters of a
    connection without metadata; the connection [addConnection] builds
    from them at time [now]. *)
Definition optionsWithCap (cap : option nat) : Options :=
  {| pingInterval := None; pongTimeout := None; maxConnectionsPerUser := cap |}.

Definition paramsFor (h : nat) (sid : string) (uid : option string) : Params :=
  {| p_ws := h; p_sessionId := sid; p_userId := uid; p_metadata := None |}.

Definition freshConnection (h : nat) (sid : string) (uid : option string) (now : Z)
    : WebSocketConnection :=
  {| ws := h; sessionId := sid; userId := uid; metadata := None;
     isAlive := true; lastActivity := now |}.

(** *** Delivery to several connections *)

(** [!filter || filter(connection)] *)
Definition passes (filter : option (WebSocketConnection → bool))
    (connection : WebSocketConnection) : bool :=
  match filter with
  | None => true
  | Some f => f connection
  end.

(** One [sendMessage] of a loop that counts the successful ones. *)
Definition sendTo (now : Z) (msg : Message) (acc : nat * t) (sid : string) : nat * t :=
  let r := sendMessage now sid msg acc.2 in
  (if r.1 then S acc.1 else acc.1, r.2).

(** One turn of the loop of [broadcast], on the connection under key [k]. *)
Definition broadcastOne (now : Z) (msg : Message)
    (filter : option (WebSocketConnection → bool)) (acc : nat * t) (k : string) : nat * t :=
  match connections acc.2 !! k with
  | None => acc
  | Some connection =>
      if passes filter connection then sendTo now msg acc (sessionId connection)
      else acc
  end.

(** [broadcast]: the loop over [this.connections.values()].  The loop is
    synchronous; one clock reading stands for its [Date.now()] calls. *)
Definition broadcast (now : Z) (msg : Message)
    (filter : option (WebSocketConnection → bool)) (m : t) : nat * t :=
  foldl (broadcastOne now msg filter) (0, m) (map_to_list (connections m)).*1.

(** Every connection is filed under its own session id. *)
Definition keyed (m : t) : Prop :=
  ∀ sid c, connections m !! sid = Some c → sessionId c = sid.

(** The socket of a connection is open. *)
Definition isOpen (m : t) (c : WebSocketConnection) : bool :=
  match sockets m !! ws c with
  | Some sock => bool_decide (readyState sock = 1)
  | None => false
  end.

(** A message for [sid] would be written. *)
Definition deliverable (m : t) (sid : string) : bool :=
  match connections m !! sid with
  | Some c => isOpen m c
  | None => false
  end.

(** A [broadcast] would write to the connection under key [k]. *)
Definition selected (filter : option (WebSocketConnection → bool)) (m : t) (k : string)
    : bool :=
  match connections m !! k with
  | Some c => passes filter c && isOpen m c
  | None => false
  end.

(** [ws.terminate()]: a socket that is not yet [CLOSED] (3) is [CLOSING]
    (2) at once. *)
Definition terminateSocket (h : nat) (m : t) : t :=
  {| options := options m;
     connections := connections m;
     userConnections := userConnections m;
     sockets := alter (λ w, if decide (readyState w = 3) then w
                            else {| readyState := 2; sent := sent w; closed := closed w |})
                  h (sockets m);
     emitted := emitted m |}.

Definition setAlive (alive : bool) (c : WebSocketConnection) : WebSocketConnection :=
  {| ws := ws c; sessionId := sessionId c; userId := userId c;
     metadata := metadata c; isAlive := alive; lastActivity := lastActivity c |}.

Definition markAlive (alive : bool) (sid : string) (m : t) : t :=
  {| options := options m;
     connections := alter (setAlive alive) sid (connections m);
     userConnections := userConnections m;
     sockets := sockets m;
     emitted := emitted m |}.

(** The [pong] listeners of the socket [h]: every registered connection
    made for that socket is alive again. *)
Definition pong (now : Z) (h : nat) (m : t) : t :=
  {| options := options m;
     connections :=
       (λ c, if decide (ws c = h) then
               {| ws := ws c; sessionId := sessionId c; userId := userId c;
                  metadata := metadata c; isAlive := true; lastActivity := now |}
             else c) <$> connections m;
     userConnections := userConnections m;
     sockets := sockets m;
     emitted := emitted m |}.
(** *** The heartbeat

    A tick of [startPingInterval] pings every live connection and arms a
    pong timeout whose callback closes over the connection object.  That
    object may have left the registry by the time the callback runs
    (removed, or replaced by a later connection under the same session id)
    while its [pong] listener still sets its flag.  A pong timer therefore
    records whether its object is still the one registered under its
    session id: [pt_detached] is [None] while it is, and [Some alive] once
    it is not, [alive] being the object's [isAlive] flag. *)

(** [this.options.pongTimeout || 5000] *)
Definition pongTimeoutOf (m : t) : nat :=
  match pongTimeout (options m) with
  | Some n => if truthy n then n else 5000
  | None => 5000
  end.

(** What the heartbeat asks of the sockets. *)
Inductive HeartbeatEffect :=
  | Terminated (socket : nat)
  | Pinged (socket : nat).

Record PongTimer := {
  pt_session : string;
  pt_socket : nat;
  pt_due : Z;
  pt_detached : option bool
}.

(** The registry with the pong timeouts that are armed. *)
Record Heartbeat := {
  registry : t;
  pongTimers : gmap nat PongTimer;
  nextPongTimer : nat;
  effects : list HeartbeatEffect
}.

Definition startPingInterval (opts : Options) (heap : gmap nat WebSocket) : Heartbeat :=
  {| registry := new opts heap; pongTimers := ∅; nextPongTimer := 0; effects := [] |}.

Definition with_registry (m : t) (hb : Heartbeat) : Heartbeat :=
  {| registry := m; pongTimers := pongTimers hb;
     nextPongTimer := nextPongTimer hb; effects := effects hb |}.

Definition with_pongTimers (tm : gmap nat PongTimer) (hb : Heartbeat) : Heartbeat :=
  {| registry := registry hb; pongTimers := tm;
     nextPongTimer := nextPongTimer hb; effects := effects hb |}.

Definition detached (alive : bool) (p : PongTimer) : PongTimer :=
  {| pt_session := pt_session p; pt_socket := pt_socket p; pt_due := pt_due p;
     pt_detached := Some alive |}.

(** The object registered under [sid] is about to leave the registry: the
    timers that captured it keep its flag from now on. *)
Definition detach (sid : string) (hb : Heartbeat) : Heartbeat :=
  match connections (registry hb) !! sid with
  | Some c =>
      with_pongTimers
        ((λ p, if decide (pt_session p = sid ∧ pt_detached p = None)
               then detached (isAlive c) p else p) <$> pongTimers hb) hb
  | None => hb
  end.

(** [removeConnection] and [addConnection] on a registry with armed
    timers; an accepted [addConnection] replaces the object registered
    under the session id, if there is one. *)
Definition hb_removeConnection (sid : string) (hb : Heartbeat) : Heartbeat :=
  with_registry (removeConnection sid (registry hb)) (detach sid hb).

Definition hb_addConnection (now : Z) (p : Params) (hb : Heartbeat) : bool * Heartbeat :=
  let r := addConnection now p (registry hb) in
  (r.1, if r.1 then with_registry r.2 (detach (p_sessionId p) hb) else hb).

Definition hb_sendMessage (now : Z) (sid : string) (msg : Message) (hb : Heartbeat)
    : bool * Heartbeat :=
  let r := sendMessage now sid msg (registry hb) in
  (r.1, with_registry r.2 hb).

Definition hb_terminate (h : nat) (hb : Heartbeat) : Heartbeat :=
  {| registry := terminateSocket h (registry hb); pongTimers := pongTimers hb;
     nextPongTimer := nextPongTimer hb; effects := effects hb ++ [Terminated h] |}.

(** The [pong] event of the socket [h]: the listeners of the registered
    connections made for it, and those of the objects that left the
    registry. *)
Definition hb_pong (now : Z) (h : nat) (hb : Heartbeat) : Heartbeat :=
  {| registry := pong now h (registry hb);
     pongTimers :=
       (λ p, match pt_detached p with
             | Some _ => if decide (pt_socket p = h) then detached true p else p
             | None => p
             end) <$> pongTimers hb;
     nextPongTimer := nextPongTimer hb; effects := effects hb |}.

(** One turn of the loop in the [setInterval] callback of
    [startPingInterval]. *)
Definition tickOne (now : Z) (hb : Heartbeat) (sid : string) : Heartbeat :=
  match connections (registry hb) !! sid with
  | None => hb
  | Some connection =>
      if negb (isAlive connection) then
        hb_removeConnection sid (hb_terminate (ws connection) hb)
      else
        {| registry := markAlive false sid (registry hb);
           pongTimers :=
             <[nextPongTimer hb :=
                 {| pt_session := sid; pt_socket := ws connection;
                    pt_due := (now + Z.of_nat (pongTimeoutOf (registry hb)))%Z;
                    pt_detached := None |}]> (pongTimers hb);
           nextPongTimer := S (nextPongTimer hb);
           effects := effects hb ++ [Pinged (ws connection)] |}
  end.

(** A heartbeat tick: the loop over [this.connections.entries()]. *)
Definition tick (now : Z) (hb : Heartbeat) : Heartbeat :=
  foldl (tickOne now) hb (map_to_list (connections (registry hb))).*1.

(** [connection.isAlive] as the callback of a pong timer reads it. *)
Definition capturedAlive (p : PongTimer) (hb : Heartbeat) : bool :=
  match pt_detached p with
  | Some alive => alive
  | None => default false (isAlive <$> connections (registry hb) !! pt_session p)
  end.

(** The callback of a pong timer: [if (!connection.isAlive)], terminate
    the captured connection's socket and remove whatever is registered
    under the session id. *)
Definition pongTimeoutFired (timer : nat) (hb : Heartbeat) : Heartbeat :=
  match pongTimers hb !! timer with
  | None => hb
  | Some p =>
      let hb1 := with_pongTimers (delete timer (pongTimers hb)) hb in
      if capturedAlive p hb1 then hb1
      else hb_removeConnection (pt_session p) (hb_terminate (pt_socket p) hb1)
  end.

(** What happens to a registry: its methods are called, a socket answers
    a ping, the interval or a pong timeout fires. *)
Inductive Beat :=
  | BeatAdd (now : Z) (p : Params)
  | BeatRemove (sid : string)
  | BeatSend (now : Z) (sid : string) (msg : Message)
  | BeatPong (now : Z) (h : nat)
  | BeatTick (now : Z)
  | BeatTimeout (timer : nat).

Definition beat (hb : Heartbeat) (b : Beat) : Heartbeat :=
  match b with
  | BeatAdd now p => (hb_addConnection now p hb).2
  | BeatRemove sid => hb_removeConnection sid hb
  | BeatSend now sid msg => (hb_sendMessage now sid msg hb).2
  | BeatPong now h => hb_pong now h hb
  | BeatTick now => tick now hb
  | BeatTimeout timer => pongTimeoutFired timer hb
  end.

Inductive beating (opts : Options) (heap : gmap nat WebSocket) : Heartbeat → Prop :=
  | beating_start : beating opts heap (startPingInterval opts heap)
  | beating_beat hb b : beating opts heap hb → beating opts heap (beat hb b).

(** Timer handles are below [nextPongTimer], and a timer that is not
    detached belongs to a connection registered under its session id, on
    its socket. *)
Definition anchored (hb : Heartbeat) : Prop :=
  ∀ timer p, pongTimers hb !! timer = Some p →
    timer < nextPongTimer hb ∧
    (pt_detached p = None →
     ∃ c, connections (registry hb) !! pt_session p = Some c ∧ ws c = pt_socket p).


End WebSocketManager.

(** ** The batch processor *)

Module LLMProcessor.

(** The options as given to the constructor. *)
Record LLMProcessorOptions := {
  batchTimeout : option nat;
  maxBatchSize : option nat;
  includeAudio : option bool;
  includeTranscript : option bool
}.

(** The options once the constructor has filled in the defaults
    ([??] keeps every given value, also [0] and [false]). *)
Record Settings := {
  set_batchTimeout : nat;
  set_maxBatchSize : nat;
  set_includeAudio : bool;
  set_includeTranscript : bool
}.

Definition defaults (o : LLMProcessorOptions) : Settings :=
  {| set_batchTimeout := default 5000 (batchTimeout o);
     set_maxBatchSize := default 10 (maxBatchSize o);
     set_includeAudio := default false (includeAudio o);
     set_includeTranscript := default true (includeTranscript o) |}.

Record LLMRequest := {
  sessionId : string;
  timestamp : Z;
  audio : option Buffer;
  transcript : option string;
  transcriptionResults : option (list TranscriptionResult);
  metadata : option Metadata
}.

Record LLMResponse := {
  resp_sessionId : string;
  response : string;
  processingTime : Z;
  resp_metadata : option Metadata
}.

(** What the handler's promise settles with: the value it is fulfilled
    with, or the reason it is rejected with.  A fulfilment is the handler's
    own object, or [None] for a value that cannot take a property: [null]
    or [undefined] (and, the module being strict, a primitive). *)
Inductive HandlerOutcome :=
  | Fulfilled (value : option LLMResponse)
  | Rejected (reason : string).

(** The error an [llm-error] event carries: what the handler rejected with,
    or the TypeError that [response.processingTime = ...] raises on a
    fulfilment that is not an object. *)
Inductive HandlerError :=
  | Thrown (reason : string)
  | NoResponseObject.

Inductive Emitted :=
  | LlmRequest (request : LLMRequest)
  | LlmResponse (response : LLMResponse)
  | LlmError (sessionId : string) (error : HandlerError).

Record Batch := {
  b_audio : list Buffer;
  b_transcripts : list TranscriptionResult;
  b_metadata : option Metadata;
  b_timer : option nat
}.

(** The processor.  [timers] is the table of armed [setTimeout] timers:
    handle ↦ (session whose batch the callback flushes, due time);
    [nextTimer] counts the timers armed so far and is the next handle.
    [inflight] holds the handler invocations not yet settled, with the
    request and the time each was started. *)
Record t := {
  options : Settings;
  batchMap : gmap string Batch;
  llmHandler : bool;
  timers : gmap nat (string * Z);
  nextTimer : nat;
  inflight : gmap nat (LLMRequest * Z);
  nextCall : nat;
  emitted : list Emitted
}.

Definition new (o : LLMProcessorOptions) : t :=
  {| options := defaults o; batchMap := ∅; llmHandler := false;
     timers := ∅; nextTimer := 0; inflight := ∅; nextCall := 0;
     emitted := [] |}.

Definition setLLMHandler (s : t) : t :=
  {| options := options s; batchMap := batchMap s; llmHandler := true;
     timers := timers s; nextTimer := nextTimer s; inflight := inflight s;
     nextCall := nextCall s; emitted := emitted s |}.

Definition with_batches (bm : gmap string Batch) (s : t) : t :=
  {| options := options s; batchMap := bm; llmHandler := llmHandler s;
     timers := timers s; nextTimer := nextTimer s; inflight := inflight s;
     nextCall := nextCall s; emitted := emitted s |}.

Definition with_timers (tm : gmap nat (string * Z)) (s : t) : t :=
  {| options := options s; batchMap := batchMap s; llmHandler := llmHandler s;
     timers := tm; nextTimer := nextTimer s; inflight := inflight s;
     nextCall := nextCall s; emitted := emitted s |}.

Definition emit (e : Emitted) (s : t) : t :=
  {| options := options s; batchMap := batchMap s; llmHandler := llmHandler s;
     timers := timers s; nextTimer := nextTimer s; inflight := inflight s;
     nextCall := nextCall s; emitted := emitted s ++ [e] |}.

(** [setTimeout(() => this.processBatch(sessionId), batchTimeout)] *)
Definition setTimeout (now : Z) (sid : string) (s : t) : nat * t :=
  (nextTimer s,
   {| options := options s; batchMap := batchMap s; llmHandler := llmHandler s;
      timers :=
        <[nextTimer s := (sid, (now + Z.of_nat (set_batchTimeout (options s)))%Z)]>
          (timers s);
      nextTimer := S (nextTimer s); inflight := inflight s;
      nextCall := nextCall s; emitted := emitted s |}).

Definition clearTimeout (timer : nat) (s : t) : t :=
  with_timers (delete timer (timers s)) s.

Definition getOrCreateBatch (now : Z) (sid : string) (s : t) : Batch * t :=
  match batchMap s !! sid with
  | Some batch => (batch, s)
  | None =>
      let '(timer, s1) := setTimeout now sid s in
      let batch :=
        {| b_audio := []; b_transcripts := []; b_metadata := Some ∅;
           b_timer := Some timer |} in
      (batch, with_batches (<[sid := batch]> (batchMap s1)) s1)
  end.

(** The request a flush builds from a batch. *)
Definition makeRequest (now : Z) (sid : string) (batch : Batch) : LLMRequest :=
  {| sessionId := sid;
     timestamp := now;
     audio :=
       if decide (0 < length (b_audio batch))%nat
       then Some (Buffer_concat (b_audio batch)) else None;
     transcript :=
       if decide (0 < length (b_transcripts batch))%nat
       then Some (String.concat " "
                    (filter (λ text : string, truthy text = true)
                            (transcript_of <$> b_transcripts batch)))
       else None;
     transcriptionResults :=
       if decide (0 < length (b_transcripts batch))%nat
       then Some (b_transcripts batch) else None;
     metadata := b_metadata batch |}.

(** [processBatch] up to its [await this.llmHandler(request)]. *)
Definition processBatch (now : Z) (sid : string) (s : t) : t :=
  match batchMap s !! sid with
  | None => s
  | Some batch =>
      let s1 := match b_timer batch with
                | Some timer => clearTimeout timer s
                | None => s
                end in
      let s2 := with_batches (delete sid (batchMap s1)) s1 in
      if decide (length (b_audio batch) = 0 ∧ length (b_transcripts batch) = 0)%nat
      then s2
      else
        let request := makeRequest now sid batch in
        let s3 := emit (LlmRequest request) s2 in
        if llmHandler s3 then
          {| options := options s3; batchMap := batchMap s3;
             llmHandler := llmHandler s3; timers := timers s3;
             nextTimer := nextTimer s3;
             inflight := <[nextCall s3 := (request, now)]> (inflight s3);
             nextCall := S (nextCall s3); emitted := emitted s3 |}
        else s3
  end.

(** The rest of [processBatch], run when the handler's promise settles:
    the handler's object is emitted with its [processingTime] overwritten;
    a rejection, or the assignment throwing, is caught and emitted as an
    [llm-error] for the session of the flush. *)
Definition handlerSettled (now : Z) (call : nat) (outcome : HandlerOutcome)
    (s : t) : t :=
  match inflight s !! call with
  | None => s
  | Some (request, startTime) =>
      let s1 :=
        {| options := options s; batchMap := batchMap s;
           llmHandler := llmHandler s; timers := timers s;
           nextTimer := nextTimer s; inflight := delete call (inflight s);
           nextCall := nextCall s; emitted := emitted s |} in
      match outcome with
      | Fulfilled (Some r) =>
          emit (LlmResponse {| resp_sessionId := resp_sessionId r;
                               response := response r;
                               processingTime := (now - startTime)%Z;
                               resp_metadata := resp_metadata r |}) s1
      | Fulfilled None => emit (LlmError (sessionId request) NoResponseObject) s1
      | Rejected reason => emit (LlmError (sessionId request) (Thrown reason)) s1
      end
  end.

Definition checkBatchSize (now : Z) (sid : string) (s : t) : t :=
  match batchMap s !! sid with
  | None => s
  | Some batch =>
      let totalItems := (length (b_audio batch) + length (b_transcripts batch))%nat in
      if decide (set_maxBatchSize (options s) ≤ totalItems)%nat
      then processBatch now sid s
      else s
  end.

Definition push_audio (d : Buffer) (b : Batch) : Batch :=
  {| b_audio := b_audio b ++ [d]; b_transcripts := b_transcripts b;
     b_metadata := b_metadata b; b_timer := b_timer b |}.

Definition push_transcript (r : TranscriptionResult) (b : Batch) : Batch :=
  {| b_audio := b_audio b; b_transcripts := b_transcripts b ++ [r];
     b_metadata := b_metadata b; b_timer := b_timer b |}.

Definition processAudioChunk (now : Z) (chunk : AudioChunk) (s : t) : t :=
  if negb (set_includeAudio (options s)) then s
  else
    let '(batch, s1) := getOrCreateBatch now (chunk_sessionId chunk) s in
    let s2 := with_batches
                (<[chunk_sessionId chunk := push_audio (data chunk) batch]>
                   (batchMap s1)) s1 in
    checkBatchSize now (chunk_sessionId chunk) s2.

Definition processTranscription (now : Z) (sid : string)
    (result : TranscriptionResult) (s : t) : t :=
  if negb (set_includeTranscript (options s)) then s
  else
    let '(batch, s1) := getOrCreateBatch now sid s in
    let s2 := with_batches
                (<[sid := push_transcript result batch]> (batchMap s1)) s1 in
    checkBatchSize now sid s2.

Definition flushSession (now : Z) (sid : string) (s : t) : t :=
  processBatch now sid s.

(** The timer callback: a cleared timer never fires. *)
Definition timerFired (now : Z) (timer : nat) (s : t) : t :=
  match timers s !! timer with
  | None => s
  | Some (sid, _) => processBatch now sid (clearTimeout timer s)
  end.

(** [batch.metadata = { ...batch.metadata, ...metadata }] *)
Definition updateMetadata (now : Z) (sid : string) (md : Metadata) (s : t) : t :=
  let '(batch, s1) := getOrCreateBatch now sid s in
  with_batches
    (<[sid := {| b_audio := b_audio batch; b_transcripts := b_transcripts batch;
                 b_metadata := Some (md ∪ default ∅ (b_metadata batch));
                 b_timer := b_timer batch |}]> (batchMap s1)) s1.

(** The number of items a batch holds. *)
Definition totalItems (b : Batch) : nat :=
  length (b_audio b) + length (b_transcripts b).

(** An append to a session's batch: an audio chunk or a transcription
    result. *)
Inductive Item :=
  | AudioItem (chunk : AudioChunk)
  | TranscriptItem (sessionId : string) (result : TranscriptionResult).

Definition append (now : Z) (i : Item) (s : t) : t :=
  match i with
  | AudioItem chunk => processAudioChunk now chunk s
  | TranscriptItem sid result => processTranscription now sid result s
  end.

Definition item_session (i : Item) : string :=
  match i with
  | AudioItem chunk => chunk_sessionId chunk
  | TranscriptItem sid _ => sid
  end.

Definition included (i : Item) (s : t) : bool :=
  match i with
  | AudioItem _ => set_includeAudio (options s)
  | TranscriptItem _ _ => set_includeTranscript (options s)
  end.

Definition push (i : Item) (b : Batch) : Batch :=
  match i with
  | AudioItem chunk => push_audio (data chunk) b
  | TranscriptItem _ result => push_transcript result b
  end.

Definition emptyBatch (timer : nat) : Batch :=
  {| b_audio := []; b_transcripts := []; b_metadata := Some ∅; b_timer := Some timer |}.

(** The state right after a batch holding [b] has been flushed out of [s]. *)
Definition flushedFrom (now : Z) (sid : string) (b : Batch) (s s' : t) : Prop :=
  batchMap s' !! sid = None ∧
  (∀ timer, b_timer b = Some timer → timers s' !! timer = None) ∧
  emitted s' = emitted s ++ [LlmRequest (makeRequest now sid b)].

(** *** The remaining operations, and the processor as a machine *)

(** [flushAll]: [processBatch] on every session that has a batch; the
    synchronous parts run in the order of the keys. *)
Definition flushAll (now : Z) (s : t) : t :=
  foldl (λ s sid, processBatch now sid s) s (map_to_list (batchMap s)).*1.

(** [cleanup]: the timers of the batches are cleared and the batches
    dropped. *)
Definition cleanup (s : t) : t :=
  with_batches ∅
    (with_timers
       (foldr (λ b tm, match b_timer b with Some timer => delete timer tm | None => tm end)
              (timers s) (map_to_list (batchMap s)).*2) s).

(** What can happen to a processor: its public methods, a timer firing,
    the handler's promise settling. *)
Inductive Op :=
  | OpAudio (chunk : AudioChunk)
  | OpResult (sessionId : string) (result : TranscriptionResult)
  | OpFlush (sessionId : string)
  | OpFlushAll
  | OpTimer (timer : nat)
  | OpHandlerSettled (call : nat) (outcome : HandlerOutcome)
  | OpSetHandler
  | OpMetadata (sessionId : string) (md : Metadata).

Definition perform (now : Z) (s : t) (op : Op) : t :=
  match op with
  | OpAudio chunk => processAudioChunk now chunk s
  | OpResult sid result => processTranscription now sid result s
  | OpFlush sid => flushSession now sid s
  | OpFlushAll => flushAll now s
  | OpTimer timer => timerFired now timer s
  | OpHandlerSettled call outcome => handlerSettled now call outcome s
  | OpSetHandler => setLLMHandler s
  | OpMetadata sid md => updateMetadata now sid md s
  end.

Definition runOps (s : t) (ops : list (Z * Op)) : t :=
  foldl (λ s nop, perform nop.1 s nop.2) s ops.

Inductive reachable (o : LLMProcessorOptions) : t → Prop :=
  | reach_new : reachable o (new o)
  | reach_perform now s op : reachable o s → reachable o (perform now s op).

(** Batches and armed timers correspond: every batch holds the handle of
    an armed timer of its session, and every armed timer is the one of
    the batch of its session; handles are below [nextTimer]. *)
Definition timed (s : t) : Prop :=
  (∀ sid b, batchMap s !! sid = Some b →
     ∃ timer due, b_timer b = Some timer ∧ timers s !! timer = Some (sid, due)) ∧
  (∀ timer sid due, timers s !! timer = Some (sid, due) →
     timer < nextTimer s ∧ ∃ b, batchMap s !! sid = Some b ∧ b_timer b = Some timer).

(** The requests emitted so far for a session. *)
Definition requestsFor (sid : string) (s : t) : list LLMRequest :=
  omap (λ e, match e with
             | LlmRequest r => if decide (sessionId r = sid) then Some r else None
             | _ => None
             end) (emitted s).

(** The transcription results and the audio that left in requests, and
    those still in the session's batch. *)
Definition deliveredResults (sid : string) (s : t) : list TranscriptionResult :=
  concat ((λ r, default [] (transcriptionResults r)) <$> requestsFor sid s).

Definition deliveredAudio (sid : string) (s : t) : Buffer :=
  concat ((λ r, default [] (audio r)) <$> requestsFor sid s).

Definition pendingResults (sid : string) (s : t) : list TranscriptionResult :=
  default [] (b_transcripts <$> batchMap s !! sid).

Definition pendingAudio (sid : string) (s : t) : Buffer :=
  Buffer_concat (default [] (b_audio <$> batchMap s !! sid)).

(** What a run of operations appends for a session, given the two
    inclusion switches. *)
Definition appendedResults (sid : string) (include : bool) (ops : list (Z * Op))
    : list TranscriptionResult :=
  concat ((λ nop : Z * Op,
             match nop.2 with
             | OpResult sid' r => if decide (sid' = sid) then if include then [r] else [] else []
             | _ => []
             end) <$> ops).

Definition appendedAudio (sid : string) (include : bool) (ops : list (Z * Op)) : Buffer :=
  concat ((λ nop : Z * Op,
             match nop.2 with
             | OpAudio chunk =>
                 if decide (chunk_sessionId chunk = sid) then
                   if include then data chunk else []
                 else []
             | _ => []
             end) <$> ops).

(** The same results and audio are accounted for in [s'] as in [s]. *)
Definition balanced (sid : string) (s s' : t) : Prop :=
  deliveredResults sid s' ++ pendingResults sid s'
    = deliveredResults sid s ++ pendingResults sid s ∧
  deliveredAudio sid s' ++ pendingAudio sid s'
    = deliveredAudio sid s ++ pendingAudio sid s.

End LLMProcessor.

(** ** The server *)

Module AudioStreamServer.

Inductive ServerEvent :=
  | EvConnection (sessionId : string) (userId : option string)
  | EvDisconnection (sessionId : string) (userId : option string) (reason : string)
  | EvTranscription (result : TranscriptionResult) (sessionId : string)
  | EvAudioChunk (chunk : AudioChunk)
  | EvError (sessionId : string) (error : string)
  | EvLlmRequest (request : LLMProcessor.LLMRequest).

(** A [transcriptionProvider.processAudio(combinedAudio, metadata)] call. *)
Record Call := {
  call_session : string;
  call_audio : Buffer;
  call_metadata : option Metadata
}.

(** What runs when the promise of a [processAudioBuffer] invocation
    settles:
    - [KFinally]: [handleAudioData] leaves [await processingPromise] and
      runs [finally { this.processingQueue.delete(sessionId) }];
    - [KDrain]: [processBufferedAudio] leaves [await ongoingProcessing]
      and goes on to its own [processAudioBuffer];
    - [KAck]: [processBufferedAudio] returns and [handleControlMessage]
      sends [recording-stopped]. *)
Inductive Continuation :=
  | KFinally (sessionId : string)
  | KDrain (sessionId : string)
  | KAck (sessionId : string).

#[global] Instance Continuation_eq_dec : EqDecision Continuation.
Proof. solve_decision. Defined.

(** The server.  A promise returned by [processAudioBuffer] that is still
    pending is named by the provider call it awaits; [outstanding] holds
    the provider calls started and not yet settled, [awaiting] the
    continuations in the order they were registered, [calls] every
    provider call ever issued. *)
Record t := {
  wsManager : WebSocketManager.t;
  llmProcessor : option LLMProcessor.t;
  sessionBuffers : gmap string (list Buffer);
  processingQueue : gmap string nat;
  outstanding : gmap nat Call;
  awaiting : list (nat * Continuation);
  calls : list (nat * Call);
  nextCall : nat;
  emitted : list ServerEvent
}.

Record ServerOptions := {
  enableLLMProcessing : bool;
  maxConnectionsPerUser : option nat;
  pingInterval : option nat;
  pongTimeout : option nat
}.

Definition new (o : ServerOptions) (heap : gmap nat WebSocket) : t :=
  {| wsManager :=
       WebSocketManager.new
         {| WebSocketManager.pingInterval := pingInterval o;
            WebSocketManager.pongTimeout := pongTimeout o;
            WebSocketManager.maxConnectionsPerUser := maxConnectionsPerUser o |}
         heap;
     llmProcessor :=
       if enableLLMProcessing o then
         Some (LLMProcessor.new
                 {| LLMProcessor.batchTimeout := None;
                    LLMProcessor.maxBatchSize := None;
                    LLMProcessor.includeAudio := Some true;
                    LLMProcessor.includeTranscript := Some true |})
       else None;
     sessionBuffers := ∅; processingQueue := ∅; outstanding := ∅;
     awaiting := []; calls := []; nextCall := 0; emitted := [] |}.

Definition with_wsManager (wm : WebSocketManager.t) (s : t) : t :=
  {| wsManager := wm; llmProcessor := llmProcessor s;
     sessionBuffers := sessionBuffers s; processingQueue := processingQueue s;
     outstanding := outstanding s; awaiting := awaiting s; calls := calls s;
     nextCall := nextCall s; emitted := emitted s |}.

Definition with_buffers (b : gmap string (list Buffer)) (s : t) : t :=
  {| wsManager := wsManager s; llmProcessor := llmProcessor s;
     sessionBuffers := b; processingQueue := processingQueue s;
     outstanding := outstanding s; awaiting := awaiting s; calls := calls s;
     nextCall := nextCall s; emitted := emitted s |}.

Definition with_queue (q : gmap string nat) (s : t) : t :=
  {| wsManager := wsManager s; llmProcessor := llmProcessor s;
     sessionBuffers := sessionBuffers s; processingQueue := q;
     outstanding := outstanding s; awaiting := awaiting s; calls := calls s;
     nextCall := nextCall s; emitted := emitted s |}.

Definition with_awaiting (w : list (nat * Continuation)) (s : t) : t :=
  {| wsManager := wsManager s; llmProcessor := llmProcessor s;
     sessionBuffers := sessionBuffers s; processingQueue := processingQueue s;
     outstanding := outstanding s; awaiting := w; calls := calls s;
     nextCall := nextCall s; emitted := emitted s |}.

Definition emit (e : ServerEvent) (s : t) : t :=
  {| wsManager := wsManager s; llmProcessor := llmProcessor s;
     sessionBuffers := sessionBuffers s; processingQueue := processingQueue s;
     outstanding := outstanding s; awaiting := awaiting s; calls := calls s;
     nextCall := nextCall s; emitted := emitted s ++ [e] |}.

(** The constructor's listener: every [llm-request] of the processor is
    emitted again by the server. *)
Definition forwarded (before after : LLMProcessor.t) : list ServerEvent :=
  omap (λ e, match e with
             | LLMProcessor.LlmRequest r => Some (EvLlmRequest r)
             | _ => None
             end)
       (drop (length (LLMProcessor.emitted before)) (LLMProcessor.emitted after)).

(** [if (this.llmProcessor) { this.llmProcessor.f(...) }] *)
Definition withLLM (f : LLMProcessor.t → LLMProcessor.t) (s : t) : t :=
  match llmProcessor s with
  | None => s
  | Some llm =>
      {| wsManager := wsManager s; llmProcessor := Some (f llm);
         sessionBuffers := sessionBuffers s; processingQueue := processingQueue s;
         outstanding := outstanding s; awaiting := awaiting s; calls := calls s;
         nextCall := nextCall s;
         emitted := emitted s ++ forwarded llm (f llm) |}
  end.

Definition sendMessage (now : Z) (sid : string) (msg : Message) (s : t) : t :=
  with_wsManager (WebSocketManager.sendMessage now sid msg (wsManager s)).2 s.

Definition handleConnection (now : Z) (p : WebSocketManager.Params) (s : t) : t :=
  let '(added, wm) := WebSocketManager.addConnection now p (wsManager s) in
  if negb added then
    with_wsManager
      (WebSocketManager.closeSocket (WebSocketManager.p_ws p) 1008
         "Max connections exceeded" wm) s
  else
    emit (EvConnection (WebSocketManager.p_sessionId p) (WebSocketManager.p_userId p))
      (with_buffers (<[WebSocketManager.p_sessionId p := []]> (sessionBuffers s))
         (with_wsManager wm s)).

(** [processAudioBuffer] up to its [await]: the id of the provider call
    it started, or [None] when it returned at once. *)
Definition processAudioBuffer (sid : string) (s : t) : option nat * t :=
  match sessionBuffers s !! sid with
  | None => (None, s)
  | Some buffer =>
      if decide (length buffer = 0) then (None, s)
      else
        match WebSocketManager.getConnection sid (wsManager s) with
        | None => (None, s)
        | Some connection =>
            let audioChunks := buffer in
            let combinedAudio := Buffer_concat audioChunks in
            let call := {| call_session := sid; call_audio := combinedAudio;
                           call_metadata := WebSocketManager.metadata connection |} in
            (Some (nextCall s),
             {| wsManager := wsManager s; llmProcessor := llmProcessor s;
                sessionBuffers := <[sid := []]> (sessionBuffers s);
                processingQueue := processingQueue s;
                outstanding := <[nextCall s := call]> (outstanding s);
                awaiting := awaiting s;
                calls := calls s ++ [(nextCall s, call)];
                nextCall := S (nextCall s);
                emitted := emitted s |})
        end
  end.

(** The rest of [processAudioBuffer], run when the provider call settles
    with a result ([inl]) or an error ([inr]). *)
Definition processAudioBuffer_settled (now : Z) (sid : string)
    (outcome : TranscriptionResult + string) (s : t) : t :=
  match outcome with
  | inl result =>
      if truthy (transcript result) then
        let s1 := sendMessage now sid (MsgTranscription result) s in
        let s2 := emit (EvTranscription result sid) s1 in
        withLLM (LLMProcessor.processTranscription now sid result) s2
      else s
  | inr error => emit (EvError sid error) s
  end.

Definition isPaused (connection : WebSocketManager.WebSocketConnection) : bool :=
  truthy (WebSocketManager.metadata connection ≫= (λ md, md !! "isPaused")).

Definition chunkFormat (connection : WebSocketManager.WebSocketConnection) : JsVal :=
  let declared := WebSocketManager.metadata connection ≫= (λ md, md !! "audioFormat") in
  if truthy declared then default (JBool false) declared
  else JFormat {| mimeType := "audio/webm"; sampleRate := None;
                  channels := None; bitDepth := None |}.

(** [handleAudioData] up to [await processingPromise]. *)
Definition handleAudioData (now : Z) (sid : string) (audioData : Buffer) (s : t) : t :=
  match WebSocketManager.getConnection sid (wsManager s) with
  | None => s
  | Some connection =>
      if isPaused connection then s
      else
        match sessionBuffers s !! sid with
        | None => s
        | Some buffer =>
            let s1 := with_buffers (<[sid := buffer ++ [audioData]]> (sessionBuffers s)) s in
            let chunk := {| data := audioData; chunk_timestamp := now;
                            format := chunkFormat connection;
                            chunk_sessionId := sid |} in
            let s2 := emit (EvAudioChunk chunk) s1 in
            let s3 := withLLM (LLMProcessor.processAudioChunk now chunk) s2 in
            if decide (is_Some (processingQueue s3 !! sid)) then s3
            else
              let '(processingPromise, s4) := processAudioBuffer sid s3 in
              match processingPromise with
              | Some call =>
                  with_awaiting (awaiting s4 ++ [(call, KFinally sid)])
                    (with_queue (<[sid := call]> (processingQueue s4)) s4)
              | None =>
                  with_queue (delete sid (processingQueue s4)) s4
              end
        end
  end.

(** The end of the stop-recording handler. *)
Definition acknowledgeStop (now : Z) (sid : string) (s : t) : t :=
  sendMessage now sid (MsgStamped "recording-stopped" now) s.

(** [processBufferedAudio] from its second step on: the final
    [processAudioBuffer] and, once that is done, the acknowledgement. *)
Definition drain (now : Z) (sid : string) (s : t) : t :=
  let '(promise, s1) := processAudioBuffer sid s in
  match promise with
  | Some call => with_awaiting (awaiting s1 ++ [(call, KAck sid)]) s1
  | None => acknowledgeStop now sid s1
  end.

(** [processBufferedAudio] followed by the acknowledgement: waits for the
    promise found in [processingQueue] when it is still pending. *)
Definition processBufferedAudio (now : Z) (sid : string) (s : t) : t :=
  match processingQueue s !! sid with
  | Some ongoingProcessing =>
      if decide (is_Some (outstanding s !! ongoingProcessing)) then
        with_awaiting (awaiting s ++ [(ongoingProcessing, KDrain sid)]) s
      else drain now sid s
  | None => drain now sid s
  end.

Definition setFlag (sid : string) (connection : WebSocketManager.WebSocketConnection)
    (flag : string) (v : bool) (s : t) : t :=
  with_wsManager
    (WebSocketManager.setMetadata sid
       (spread_set (WebSocketManager.metadata connection) flag (JBool v))
       (wsManager s)) s.

Definition handleControlMessage (now : Z) (sid : string) (type : string) (s : t) : t :=
  match WebSocketManager.getConnection sid (wsManager s) with
  | None => s
  | Some connection =>
      if decide (type = "ping") then sendMessage now sid MsgPong s
      else if decide (type = "start-recording") then
        sendMessage now sid (MsgStamped "recording-started" now)
          (setFlag sid connection "isRecording" true s)
      else if decide (type = "stop-recording") then
        processBufferedAudio now sid (setFlag sid connection "isRecording" false s)
      else if decide (type = "pause-recording") then
        sendMessage now sid (MsgStamped "recording-paused" now)
          (setFlag sid connection "isPaused" true s)
      else if decide (type = "resume-recording") then
        sendMessage now sid (MsgStamped "recording-resumed" now)
          (setFlag sid connection "isPaused" false s)
      else s
  end.

Definition handleDisconnection (now : Z) (sid : string) (reason : string) (s : t) : t :=
  match WebSocketManager.getConnection sid (wsManager s) with
  | None => s
  | Some connection =>
      let s1 := withLLM (LLMProcessor.flushSession now sid) s in
      let s2 := with_queue (delete sid (processingQueue s1))
                  (with_buffers (delete sid (sessionBuffers s1)) s1) in
      let s3 := with_wsManager (WebSocketManager.removeConnection sid (wsManager s2)) s2 in
      emit (EvDisconnection sid (WebSocketManager.userId connection) reason) s3
  end.

(** The [close] event of the socket [h] that was registered under [sid]: the
    listener [addConnection] registered runs first, then the one
    [handleConnection] registered. *)
Definition socketClosed (now : Z) (h : nat) (sid : string) (reason : string) (s : t) : t :=
  handleDisconnection now sid reason
    (with_wsManager
       (WebSocketManager.removeConnection sid
          (WebSocketManager.socketGone h (wsManager s))) s).

(** The continuations that hold the [processingQueue] entry of a session:
    both were registered on the promise found (or put) there. *)
Definition holds (k : Continuation) : option string :=
  match k with
  | KFinally sid => Some sid
  | KDrain sid => Some sid
  | KAck _ => None
  end.

(** Every such continuation waits for the promise that is in
    [processingQueue] for its session. *)
Definition guarded (s : t) : Prop :=
  ∀ call k sid, (call, k) ∈ awaiting s → holds k = Some sid →
    processingQueue s !! sid = Some call.

Definition resume (now : Z) (s : t) (k : Continuation) : t :=
  match k with
  | KFinally sid => with_queue (delete sid (processingQueue s)) s
  | KDrain sid => drain now sid s
  | KAck sid => acknowledgeStop now sid s
  end.

(** The promise named [call] settles: its continuations run in the order
    they were registered. *)
Definition resolve (now : Z) (call : nat) (s : t) : t :=
  let mine := filter (λ w, w.1 = call) (awaiting s) in
  let others := filter (λ w, w.1 ≠ call) (awaiting s) in
  foldl (resume now) (with_awaiting others s) (mine.*2).

(** The call [call] is no longer outstanding. *)
Definition returned (call : nat) (s : t) : t :=
  {| wsManager := wsManager s; llmProcessor := llmProcessor s;
     sessionBuffers := sessionBuffers s; processingQueue := processingQueue s;
     outstanding := delete call (outstanding s); awaiting := awaiting s;
     calls := calls s; nextCall := nextCall s; emitted := emitted s |}.

(** The provider settles the call [call]: [processAudioBuffer] runs to its
    end, then its promise settles. *)
Definition settle (now : Z) (call : nat) (outcome : TranscriptionResult + string)
    (s : t) : t :=
  match outstanding s !! call with
  | None => s
  | Some c =>
      resolve now call
        (processAudioBuffer_settled now (call_session c) outcome (returned call s))
  end.

(** What the event loop delivers to the server, one macrotask each. *)
Inductive Input :=
  | Connect (params : WebSocketManager.Params)
  | Audio (sessionId : string) (audioData : Buffer)
  | Control (sessionId : string) (type : string)
  | Close (socket : nat) (sessionId : string) (reason : string)
  | Settled (call : nat) (outcome : TranscriptionResult + string)
  | BatchTimer (timer : nat)
  | HandlerSettled (call : nat) (outcome : LLMProcessor.HandlerOutcome).

Definition step (now : Z) (s : t) (i : Input) : t :=
  match i with
  | Connect p => handleConnection now p s
  | Audio sid audioData => handleAudioData now sid audioData s
  | Control sid type => handleControlMessage now sid type s
  | Close h sid reason => socketClosed now h sid reason s
  | Settled call outcome => settle now call outcome s
  | BatchTimer timer => withLLM (LLMProcessor.timerFired now timer) s
  | HandlerSettled call outcome =>
      withLLM (LLMProcessor.handlerSettled now call outcome) s
  end.

(** A run: the inputs with the clock reading at each. *)
Definition run (s : t) (trace : list (Z * Input)) : t :=
  foldl (λ s ti, step ti.1 s ti.2) s trace.

Inductive reachable (o : ServerOptions) (heap : gmap nat WebSocket) : t → Prop :=
  | reach_new : reachable o heap (new o heap)
  | reach_step now s i : reachable o heap s → reachable o heap (step now s i).

(** The provider calls of a session that are started and not settled. *)
Definition outstandingFor (sid : string) (s : t) : list (nat * Call) :=
  filter (λ c, call_session c.2 = sid) (map_to_list (outstanding s)).

(** Whether an audio frame for [sid] is taken into its buffer. *)
Definition accepts (sid : string) (s : t) : bool :=
  match WebSocketManager.getConnection sid (wsManager s) with
  | Some connection => negb (isPaused connection)
  | None => false
  end.

(** The frames of [sid] a run takes into the buffer, in arrival order. *)
Fixpoint accepted (sid : string) (s : t) (trace : list (Z * Input)) : list Buffer :=
  match trace with
  | [] => []
  | (now, i) :: rest =>
      match i with
      | Audio sid' audioData =>
          if decide (sid' = sid) then
            if accepts sid s then [audioData] else []
          else []
      | _ => []
      end ++ accepted sid (step now s i) rest
  end.


(** Inputs that leave the audio of the session [sid] alone: not an audio
    frame for it, not a stop-recording for it, not a connection under its
    session id. *)
Definition idle (sid : string) (i : Input) : Prop :=
  match i with
  | Audio sid' _ => sid' ≠ sid
  | Control sid' type => sid' ≠ sid ∨ type ≠ "stop-recording"
  | Connect p => WebSocketManager.p_sessionId p ≠ sid
  | _ => True
  end.

(** The part of the state that belongs to the session [sid] while its
    call [call] is in flight is the same in [s] and [s']. *)
Definition kept (sid : string) (call : nat) (s s' : t) : Prop :=
  processingQueue s' !! sid = processingQueue s !! sid ∧
  sessionBuffers s' !! sid = sessionBuffers s !! sid ∧
  filter (λ c, call_session c.2 = sid) (calls s')
    = filter (λ c, call_session c.2 = sid) (calls s) ∧
  (is_Some (outstanding s !! call) → is_Some (outstanding s' !! call)).


(** The provider calls issued so far for a session. *)
Definition callsFor (sid : string) (s : t) : list (nat * Call) :=
  filter (λ c, call_session c.2 = sid) (calls s).

(** The messages written to the socket [h] so far. *)
Definition sentOn (h : nat) (s : t) : list Message :=
  default [] (sent <$> WebSocketManager.sockets (wsManager s) !! h).

Definition buffered (sid : string) (s : t) : list Buffer :=
  default [] (sessionBuffers s !! sid).

(** What [processAudioBuffer] does, by cases. *)
Inductive dispatch (sid : string) (s : t) : option nat * t → Prop :=
  | dispatch_none : dispatch sid s (None, s)
  | dispatch_call buffer connection :
      sessionBuffers s !! sid = Some buffer → buffer ≠ [] →
      WebSocketManager.getConnection sid (wsManager s) = Some connection →
      dispatch sid s
        (Some (nextCall s),
         {| wsManager := wsManager s; llmProcessor := llmProcessor s;
            sessionBuffers := <[sid := []]> (sessionBuffers s);
            processingQueue := processingQueue s;
            outstanding :=
              <[nextCall s := {| call_session := sid;
                                 call_audio := Buffer_concat buffer;
                                 call_metadata := WebSocketManager.metadata connection |}]>
                (outstanding s);
            awaiting := awaiting s;
            calls := calls s ++ [(nextCall s,
                       {| call_session := sid;
                          call_audio := Buffer_concat buffer;
                          call_metadata := WebSocketManager.metadata connection |})];
            nextCall := S (nextCall s);
            emitted := emitted s |}).


(** *** Further operations and the notions used to state their properties *)

(** The audio the provider was handed for a session, in the order of the
    calls, and the audio still waiting in its buffer. *)
Definition dispatchedAudio (sid : string) (s : t) : Buffer :=
  Buffer_concat ((λ c, call_audio c.2) <$> callsFor sid s).

Definition pendingAudio (sid : string) (s : t) : Buffer :=
  Buffer_concat (buffered sid s).

(** Inputs that do not register a connection under the session id [sid]
    ([handleConnection] resets the buffer of the id it takes in). *)
Definition notReconnected (sid : string) (i : Input) : Prop :=
  match i with
  | Connect p => WebSocketManager.p_sessionId p ≠ sid
  | _ => True
  end.

(** Inputs other than a stop-recording control message. *)
Definition noStop (i : Input) : Prop :=
  match i with
  | Control _ type => type ≠ "stop-recording"
  | _ => True
  end.

(** The states the server reaches when no stop-recording is handled. *)
Inductive reachable_without_stop (o : ServerOptions) (heap : gmap nat WebSocket)
    : t → Prop :=
  | reach0_new : reachable_without_stop o heap (new o heap)
  | reach0_step now s i :
      reachable_without_stop o heap s → noStop i →
      reachable_without_stop o heap (step now s i).

(** Calls and [processingQueue] entries correspond one to one: an entry
    names an outstanding call of its session, awaited by the
    [handleAudioData] that started it; every outstanding call is the entry
    of its session; nothing else is awaited; call ids are fresh. *)
Definition serial (s : t) : Prop :=
  (∀ sid id, processingQueue s !! sid = Some id →
     (id, KFinally sid) ∈ awaiting s ∧
     ∃ c, outstanding s !! id = Some c ∧ call_session c = sid) ∧
  (∀ id c, outstanding s !! id = Some c →
     processingQueue s !! call_session c = Some id) ∧
  (∀ id k, (id, k) ∈ awaiting s →
     ∃ sid, k = KFinally sid ∧ processingQueue s !! sid = Some id) ∧
  (∀ id, is_Some (outstanding s !! id) → id < nextCall s).

(** The same audio has been taken in for [sid] in [s'] as in [s], and its
    buffer is still there. *)
Definition conserved (sid : string) (s s' : t) : Prop :=
  dispatchedAudio sid s' ++ pendingAudio sid s'
    = dispatchedAudio sid s ++ pendingAudio sid s ∧
  (is_Some (sessionBuffers s !! sid) → is_Some (sessionBuffers s' !! sid)).

(** The acknowledgement [handleControlMessage] sends before it returns;
    the one for stop-recording is sent when the drain is over. *)
Definition acknowledgement (type : string) (now : Z) : option Message :=
  if decide (type = "ping") then Some MsgPong
  else if decide (type = "start-recording") then Some (MsgStamped "recording-started" now)
  else if decide (type = "pause-recording") then Some (MsgStamped "recording-paused" now)
  else if decide (type = "resume-recording") then Some (MsgStamped "recording-resumed" now)
  else None.

(** The value of a flag in the metadata of the connection registered
    under [sid]. *)
Definition flag (sid : string) (name : string) (s : t) : option JsVal :=
  match WebSocketManager.getConnection sid (wsManager s) with
  | Some connection =>
      match WebSocketManager.metadata connection with
      | Some md => md !! name
      | None => None
      end
  | None => None
  end.

(** [sendToUser], with its answer: one [sendMessage] per connection of the
    user, by session id. *)
Definition sendToUser (now : Z) (uid : string) (msg : Message) (s : t) : nat * t :=
  let connections := WebSocketManager.getConnectionsByUser uid (wsManager s) in
  let r := foldl (WebSocketManager.sendTo now msg) (0, wsManager s)
             (WebSocketManager.sessionId <$> connections) in
  (r.1, with_wsManager r.2 s).

(** The sessions the userId index holds for a user. *)
Definition sessionsOf (uid : string) (s : t) : list string :=
  elements (default (∅ : gset string)
              (WebSocketManager.userConnections (wsManager s) !! uid)).

End AudioStreamServer.

Module Samples.
Import AudioStreamServer.

Definition openSocket : WebSocket := {| readyState := 1; sent := []; closed := None |}.

Definition heap : gmap nat WebSocket := {[ 7 := openSocket ]}.

Definition serverOptions : ServerOptions :=
  {| enableLLMProcessing := false; maxConnectionsPerUser := None;
     pingInterval := None; pongTimeout := None |}.

Definition s1_params : WebSocketManager.Params :=
  {| WebSocketManager.p_ws := 7; WebSocketManager.p_sessionId := "s1";
     WebSocketManager.p_userId := Some "u1"; WebSocketManager.p_metadata := None |}.

Definition frame1 : Buffer := ["001"%byte].
Definition frame2 : Buffer := ["002"%byte].
Definition frame3 : Buffer := ["003"%byte].
Definition frame4 : Buffer := ["004"%byte].

Definition heard (text : string) : TranscriptionResult :=
  {| transcript := text; speaker := None; confidence := None; timestamp := None;
     result_metadata := None |}.

Definition callOf (audio : Buffer) (md : option Metadata) : Call :=
  {| call_session := "s1"; call_audio := audio; call_metadata := md |}.

Definition stopped : option Metadata := Some {[ "isRecording" := JBool false ]}.

(** Two frames, the first call returns, stop-recording, a third frame. *)
Definition drain_race : list (Z * Input) :=
  [ (0, Connect s1_params);
    (1, Audio "s1" frame1);
    (2, Audio "s1" frame2);
    (3, Settled 0 (inl (heard "")));
    (4, Control "s1" "stop-recording");
    (5, Audio "s1" frame3) ]%Z.


(** A batch processor with the default options, and one holding a first
    transcription result for the session. *)
Definition processor : LLMProcessor.t :=
  LLMProcessor.new
    {| LLMProcessor.batchTimeout := None; LLMProcessor.maxBatchSize := None;
       LLMProcessor.includeAudio := None; LLMProcessor.includeTranscript := None |}.

Definition processor1 : LLMProcessor.t :=
  LLMProcessor.processTranscription 0 "s1" (heard "hello") processor.

(** Three frames in quick succession against a slow provider. *)
Definition three_frames : list (Z * Input) :=
  [ (0, Connect s1_params);
    (1, Audio "s1" frame1);
    (2, Audio "s1" frame2);
    (3, Audio "s1" frame3) ]%Z.

(** After a completion: traffic that is not the session's audio, nor a
    stop-recording for it. *)
Definition other_traffic : list (Z * Input) :=
  [ (5, Control "s1" "ping");
    (6, Control "s1" "pause-recording");
    (7, Control "s1" "resume-recording");
    (8, BatchTimer 0) ]%Z.

(** The session closes while its call is in flight. *)
Definition closed_in_flight : list (Z * Input) :=
  [ (0, Connect s1_params); (1, Audio "s1" frame1); (2, Close 7 "s1" "gone") ]%Z.


(** The server once the first session is connected; frames of that
    session with its first call returning in between; the session's
    registry and connection. *)
Definition connected : AudioStreamServer.t :=
  run (new serverOptions heap) [(0%Z, Connect s1_params)].

Definition frames_and_return : list (Z * Input) :=
  [ (1, Audio "s1" frame1);
    (2, Audio "s1" frame2);
    (3, Settled 0 (inl (heard "hello")));
    (4, Audio "s1" frame3) ]%Z.

Definition registry : WebSocketManager.t := wsManager connected.

Definition s1_connection : WebSocketManager.WebSocketConnection :=
  WebSocketManager.freshConnection 7 "s1" (Some "u1") 0.

(** A caller's message that [JSON.stringify] rejects. *)
Definition counter : Message := MsgObject {[ "count" := JBigInt 1 ]}.

(** The batch that [processor1] holds for the session. *)
Definition batch1 : LLMProcessor.Batch :=
  LLMProcessor.push_transcript (heard "hello") (LLMProcessor.emptyBatch 0).

End Samples.

Module WebSocketManagerFacts.
Import WebSocketManager.

Lemma truthy_string_ne (u : string) : truthy u = true ↔ u ≠ "".
Proof. unfold truthy, string_truthy. destruct u; split; intros; congruence. Qed.

Lemma options_add now p m : options (addConnection now p m).2 = options m.
Proof. unfold addConnection. by destruct (overCap m (p_userId p)). Qed.

Lemma options_remove sid m : options (removeConnection sid m) = options m.
Proof. unfold removeConnection. by destruct (connections m !! sid). Qed.

Lemma reachable_options opts m : reachable opts m → options m = opts.
Proof.
  induction 1; [done | by rewrite options_add | by rewrite options_remove].
Qed.

Lemma reachable_unique_reachable opts m : reachable_unique opts m → reachable opts m.
Proof. induction 1; by constructor. Qed.

Lemma indexUser_keys uid sid users :
  keys_truthy users → keys_truthy (indexUser uid sid users).
Proof.
  intros Hk u us. unfold indexUser.
  destruct uid as [u0|]; [|apply Hk].
  destruct (truthy u0) eqn:Ht; [|apply Hk].
  destruct (decide (u0 = u)) as [->|Hne].
  - done.
  - rewrite lookup_insert_ne by done. apply Hk.
Qed.

Lemma unindexUser_keys uid sid users :
  keys_truthy users → keys_truthy (unindexUser uid sid users).
Proof.
  intros Hk u us. unfold unindexUser.
  destruct uid as [u0|]; [|apply Hk].
  destruct (truthy u0) eqn:Ht; [|apply Hk].
  destruct (users !! u0) as [us0|] eqn:Hu0; [|apply Hk].
  case_decide.
  - intros Hl. apply lookup_delete_Some in Hl as [_ Hl]. by eapply Hk.
  - destruct (decide (u0 = u)) as [->|Hne]; [done|].
    rewrite lookup_insert_ne by done. apply Hk.
Qed.

Lemma reachable_keys opts m : reachable opts m → keys_truthy (userConnections m).
Proof.
  induction 1 as [heap | now p m _ IH | sid m _ IH].
  - intros u us. simpl. by rewrite lookup_empty.
  - unfold addConnection. destruct (overCap m (p_userId p)); simpl; [done|].
    by apply indexUser_keys.
  - unfold removeConnection. destruct (connections m !! sid); simpl; [|done].
    by apply unindexUser_keys.
Qed.

Lemma consistent_new opts heap : consistent (new opts heap).
Proof.
  split.
  - intros u us. simpl. by rewrite lookup_empty.
  - intros sid c. simpl. by rewrite lookup_empty.
Qed.

Lemma consistent_add now p m :
  consistent m → connections m !! p_sessionId p = None →
  consistent (addConnection now p m).2.
Proof.
  intros [Hi Hr] Hfresh. unfold addConnection.
  destruct (overCap m (p_userId p)); simpl; [by split|].
  set (sid := p_sessionId p) in *.
  assert (Hother : ∀ u us s', userConnections m !! u = Some us → s' ∈ us → s' ≠ sid).
  { intros u us s' Hu Hs' ->. destruct (Hi u us Hu) as (_ & _ & Hc).
    destruct (Hc _ Hs') as (c & Hc' & _). congruence. }
  split.
  - intros u us. simpl. unfold indexUser.
    destruct (p_userId p) as [u0|] eqn:Hu0; [destruct (truthy u0) eqn:Ht|].
    + destruct (decide (u0 = u)) as [->|Hne].
      * rewrite lookup_insert_eq. intros [= <-].
        split; [set_solver|]. split; [done|].
        intros s' Hs'. apply elem_of_union in Hs' as [Hs'|Hs'].
        -- destruct (userConnections m !! u) as [us0|] eqn:Hus0; simpl in Hs';
             [|set_solver].
           rewrite lookup_insert_ne by (symmetry; by eapply Hother).
           destruct (Hi u us0 Hus0) as (_ & _ & Hc). by apply Hc.
        -- apply elem_of_singleton in Hs' as ->.
           rewrite lookup_insert_eq. eexists. split; [done|]. simpl. done.
      * rewrite lookup_insert_ne by done. intros Hu.
        destruct (Hi u us Hu) as (Hne' & Htr & Hc). split; [done|]. split; [done|].
        intros s' Hs'. rewrite lookup_insert_ne by (symmetry; by eapply Hother).
        by apply Hc.
    + intros Hu. destruct (Hi u us Hu) as (Hne' & Htr & Hc).
      split; [done|]. split; [done|].
      intros s' Hs'. rewrite lookup_insert_ne by (symmetry; by eapply Hother).
      by apply Hc.
    + intros Hu. destruct (Hi u us Hu) as (Hne' & Htr & Hc).
      split; [done|]. split; [done|].
      intros s' Hs'. rewrite lookup_insert_ne by (symmetry; by eapply Hother).
      by apply Hc.
  - intros s' c. simpl. destruct (decide (sid = s')) as [<-|Hne].
    + rewrite lookup_insert_eq. intros [= <-]. simpl. split; [done|].
      intros u -> Ht. unfold indexUser. rewrite Ht, lookup_insert_eq.
      eexists. split; [done|]. set_solver.
    + rewrite lookup_insert_ne by done. intros Hc.
      destruct (Hr s' c Hc) as [Hs Hu]. split; [done|].
      intros u Hcu Ht. destruct (Hu u Hcu Ht) as (us & Hus & Hin).
      unfold indexUser.
      destruct (p_userId p) as [u0|]; [destruct (truthy u0)|]; eauto.
      destruct (decide (u0 = u)) as [->|Hne'].
      * rewrite lookup_insert_eq, Hus. simpl. eexists. split; [done|]. set_solver.
      * rewrite lookup_insert_ne by done. eauto.
Qed.

Lemma consistent_remove sid m : consistent m → consistent (removeConnection sid m).
Proof.
  intros [Hi Hr]. unfold removeConnection.
  destruct (connections m !! sid) as [c0|] eqn:Hc0; [|by split].
  assert (Hother : ∀ u us s', userConnections m !! u = Some us → s' ∈ us →
            userId c0 ≠ Some u → s' ≠ sid).
  { intros u us s' Hu Hs' Hne ->. destruct (Hi u us Hu) as (_ & _ & Hc).
    destruct (Hc _ Hs') as (c & Hc' & Hcu). congruence. }
  split.
  - intros u us. simpl. unfold unindexUser.
    destruct (userId c0) as [u0|] eqn:Hu0; [destruct (truthy u0) eqn:Ht|].
    + destruct (userConnections m !! u0) as [us0|] eqn:Hus0.
      * case_decide as Hsz.
        -- intros Hl. apply lookup_delete_Some in Hl as [Hne Hl].
           destruct (Hi u us Hl) as (Hne' & Htr & Hc). split; [done|]. split; [done|].
           intros s' Hs'.
           rewrite lookup_delete_ne by (symmetry; eapply Hother; eauto; congruence).
           by apply Hc.
        -- destruct (decide (u0 = u)) as [->|Hne].
           ++ rewrite lookup_insert_eq. intros [= <-].
              split; [intros He; rewrite He in Hsz; by rewrite size_empty in Hsz|].
              split; [done|].
              intros s' Hs'. apply elem_of_difference in Hs' as [Hs' Hns].
              rewrite lookup_delete_ne by set_solver.
              destruct (Hi u us0 Hus0) as (_ & _ & Hc). by apply Hc.
           ++ rewrite lookup_insert_ne by done. intros Hl.
              destruct (Hi u us Hl) as (Hne' & Htr & Hc). split; [done|]. split; [done|].
              intros s' Hs'.
              rewrite lookup_delete_ne by (symmetry; eapply Hother; eauto; congruence).
              by apply Hc.
      * exfalso. destruct (Hr sid c0 Hc0) as [_ Hu].
        destruct (Hu u0 Hu0 Ht) as (us' & Hus' & _). congruence.
    + intros Hl. destruct (Hi u us Hl) as (Hne' & Htr & Hc).
      split; [done|]. split; [done|].
      intros s' Hs'.
      rewrite lookup_delete_ne
        by (symmetry; eapply Hother; eauto; intros [= ->]; congruence).
      by apply Hc.
    + intros Hl. destruct (Hi u us Hl) as (Hne' & Htr & Hc).
      split; [done|]. split; [done|].
      intros s' Hs'.
      rewrite lookup_delete_ne by (symmetry; eapply Hother; eauto; congruence).
      by apply Hc.
  - intros s' c. simpl. intros Hl. apply lookup_delete_Some in Hl as [Hne Hl].
    destruct (Hr s' c Hl) as [Hs Hu]. split; [done|].
    intros u Hcu Ht. destruct (Hu u Hcu Ht) as (us & Hus & Hin).
    unfold unindexUser.
    destruct (userId c0) as [u0|]; [destruct (truthy u0)|]; eauto.
    destruct (userConnections m !! u0) as [us0|] eqn:Hus0; eauto.
    assert (Hkeep : u0 = u → s' ∈ us0 ∖ {[sid]}).
    { intros ->. assert (us0 = us) as -> by congruence. set_solver. }
    case_decide as Hsz.
    + destruct (decide (u0 = u)) as [Heq|Hne'].
      * exfalso. pose proof (Hkeep Heq) as Hin'. apply size_empty_inv in Hsz.
        set_solver.
      * rewrite lookup_delete_ne by done. eauto.
    + destruct (decide (u0 = u)) as [Heq|Hne'].
      * subst u0. rewrite lookup_insert_eq. eauto.
      * rewrite lookup_insert_ne by done. eauto.
Qed.

Lemma reachable_unique_consistent opts m : reachable_unique opts m → consistent m.
Proof.
  induction 1; [apply consistent_new | by apply consistent_add | by apply consistent_remove].
Qed.

(** *** The admission cap *)

Lemma overCap_spec m N u :
  maxConnectionsPerUser (options m) = Some N → 1 ≤ N → u ≠ "" →
  overCap m (Some u) = bool_decide (N ≤ sessionCount m u).
Proof.
  intros HN Hpos Hu. unfold overCap, sessionCount. rewrite HN.
  apply truthy_string_ne in Hu. rewrite Hu.
  destruct N as [|N]; [lia|]. change (truthy (S N)) with true.
  destruct (userConnections m !! u) as [us|]; unfold default; [done|].
  symmetry. apply bool_decide_eq_false. rewrite size_empty. lia.
Qed.

Lemma size_add_le (us : gset string) (sid : string) : size (us ∪ {[sid]}) ≤ S (size us).
Proof.
  rewrite size_union_alt.
  assert (size ({[sid]} ∖ us : gset string) ≤ size ({[sid]} : gset string))
    by (apply subseteq_size; set_solver).
  rewrite size_singleton in *. lia.
Qed.

Lemma size_add_fresh (us : gset string) (sid : string) :
  sid ∉ us → size (us ∪ {[sid]}) = S (size us).
Proof.
  intros Hn. rewrite size_union by set_solver. rewrite size_singleton. lia.
Qed.

Lemma sessionCount_indexUser_other uid sid u (users : gmap string (gset string)) :
  uid ≠ Some u →
  default ∅ (indexUser uid sid users !! u) = default ∅ (users !! u).
Proof.
  intros Hne. unfold indexUser. destruct uid as [u0|]; [|done].
  destruct (truthy u0); [|done].
  rewrite lookup_insert_ne by congruence. done.
Qed.

Lemma reachable_count opts m N u :
  maxConnectionsPerUser opts = Some N → 1 ≤ N → u ≠ "" →
  reachable opts m → sessionCount m u ≤ N.
Proof.
  intros HN Hpos Hu. induction 1 as [heap | now p m Hr IH | sid m Hr IH].
  - unfold sessionCount. cbn [new userConnections]. rewrite lookup_empty.
    unfold default. rewrite size_empty. lia.
  - unfold addConnection.
    destruct (overCap m (p_userId p)) eqn:Hcap; cbn [snd]; [done|].
    unfold sessionCount in *. cbn [userConnections].
    destruct (decide (p_userId p = Some u)) as [Heq|Hne].
    + rewrite Heq in *. rewrite (overCap_spec m N u) in Hcap
        by (by rewrite ?(reachable_options opts m Hr)).
      apply bool_decide_eq_false in Hcap. unfold sessionCount in Hcap.
      unfold indexUser. apply truthy_string_ne in Hu. rewrite Hu.
      rewrite lookup_insert_eq.
      change (size (default ∅ (userConnections m !! u) ∪ {[p_sessionId p]}) ≤ N).
      pose proof (size_add_le (default ∅ (userConnections m !! u)) (p_sessionId p)).
      lia.
    + by rewrite sessionCount_indexUser_other.
  - unfold removeConnection.
    destruct (connections m !! sid) as [c|]; [|done].
    unfold sessionCount in *. cbn [userConnections]. unfold unindexUser.
    destruct (userId c) as [u0|]; [|done].
    destruct (truthy u0); [|done].
    destruct (userConnections m !! u0) as [us0|] eqn:Hus0; [|done].
    destruct (decide (u0 = u)) as [->|Hne].
    + rewrite Hus0 in IH. change (size us0 ≤ N) in IH. case_decide.
      * rewrite lookup_delete_eq. unfold default. rewrite size_empty. lia.
      * rewrite lookup_insert_eq. change (size (us0 ∖ {[sid]}) ≤ N).
        assert (size (us0 ∖ {[sid]}) ≤ size us0) by (apply subseteq_size; set_solver).
        lia.
    + case_decide.
      * by rewrite lookup_delete_ne.
      * by rewrite lookup_insert_ne.
Qed.

Lemma addConnections_fills opts N u now h sids : ∀ m,
  maxConnectionsPerUser opts = Some N → 1 ≤ N → u ≠ "" →
  options m = opts → NoDup sids →
  (∀ sid, sid ∈ sids → sid ∉ default ∅ (userConnections m !! u)) →
  sessionCount m u + length sids ≤ N →
  Forall (eq true) (addConnections now h (Some u) sids m).1 ∧
  options (addConnections now h (Some u) sids m).2 = opts ∧
  sessionCount (addConnections now h (Some u) sids m).2 u = sessionCount m u + length sids.
Proof.
  induction sids as [|sid rest IH]; intros m HN Hpos Hu Hopts Hnd Hfresh Hroom.
  - simpl. split; [constructor|]. split; [done|]. lia.
  - simpl in Hroom. cbn [addConnections].
    unfold addConnection. cbn [p_userId p_sessionId p_ws p_metadata].
    rewrite (overCap_spec m N u) by (by rewrite ?Hopts).
    rewrite bool_decide_eq_false_2 by lia.
    match goal with |- context [addConnections now h (Some u) rest ?m1] => set (m' := m1) end.
    apply NoDup_cons in Hnd as [Hnotin Hnd].
    assert (Hset : default ∅ (userConnections m' !! u)
                   = default ∅ (userConnections m !! u) ∪ {[sid]}).
    { unfold m'. cbn [userConnections]. unfold indexUser.
      apply truthy_string_ne in Hu. by rewrite Hu, lookup_insert_eq. }
    assert (Hcount : sessionCount m' u = S (sessionCount m u)).
    { unfold sessionCount. rewrite Hset. apply size_add_fresh.
      apply Hfresh. set_solver. }
    destruct (IH m') as (Hall & Ho & Hc); try done.
    + intros s' Hs'. rewrite Hset. intros Hin.
      apply elem_of_union in Hin as [Hin|Hin].
      * eapply Hfresh; [|done]. set_solver.
      * apply elem_of_singleton in Hin as ->. done.
    + lia.
    + destruct (addConnections now h (Some u) rest m') as [oks m2] eqn:Hrest.
      cbn [fst snd length] in *. split; [by constructor|]. split; [done|]. lia.
Qed.

(** C4 as stated fails for a configured maximum of 0: the guard
    [userId && this.options.maxConnectionsPerUser] treats 0 as "no cap", so
    a user who has 0 = N registered sessions still gets in. *)
Lemma admission_cap_zero_maximum :
  ¬ (∀ now p m N u,
       maxConnectionsPerUser (options m) = Some N → p_userId p = Some u →
       sessionCount m u = N → addConnection now p m = (false, m)).
Proof.
  intros H.
  specialize (H 0%Z (paramsFor 1 "s1" (Some "u1"))
                (new (optionsWithCap (Some 0)) ∅) 0 "u1" eq_refl eq_refl eq_refl).
  discriminate H.
Qed.

(** C4 (admission cap), amended to a maximum N ≥ 1 and a non-empty userId.
    In every registry with that maximum, an admission attempt for the user
    returns false and leaves the whole registry (both indices included)
    unchanged when the user already has N sessions in the userId index (or
    more), and otherwise returns true, registers the connection under its
    sessionId and adds the sessionId to the user's set.  Reachable
    registries never hold more than N sessions for the user, so "otherwise"
    is "fewer than N".  In particular, after N registrations of distinct
    sessionIds for the user into a fresh registry, all of which succeed, a
    further admission for the same user returns false and changes nothing. *)
Theorem admission_cap (opts : Options) (N : nat) (u : string) :
  maxConnectionsPerUser opts = Some N → 1 ≤ N → u ≠ "" →
  (∀ m now p, options m = opts → p_userId p = Some u →
     (N ≤ sessionCount m u → addConnection now p m = (false, m)) ∧
     (sessionCount m u < N →
        (addConnection now p m).1 = true ∧
        getConnection (p_sessionId p) (addConnection now p m).2
          = Some {| ws := p_ws p; sessionId := p_sessionId p; userId := Some u;
                    metadata := p_metadata p; isAlive := true; lastActivity := now |} ∧
        userConnections (addConnection now p m).2 !! u
          = Some (default ∅ (userConnections m !! u) ∪ {[p_sessionId p]})))
  ∧ (∀ m, reachable opts m → sessionCount m u ≤ N)
  ∧ (∀ heap now h sids sid,
       NoDup sids → length sids = N →
       let filled := addConnections now h (Some u) sids (new opts heap) in
       Forall (eq true) filled.1 ∧
       addConnection now (paramsFor h sid (Some u)) filled.2 = (false, filled.2)).
Proof.
  intros HN Hpos Hu. split; [|split].
  - intros m now p Hopts Hp. unfold addConnection. rewrite Hp.
    rewrite (overCap_spec m N u) by (by rewrite ?Hopts). split.
    + intros Hfull. by rewrite bool_decide_eq_true_2.
    + intros Hroom. rewrite bool_decide_eq_false_2 by lia. cbn [fst snd].
      split; [done|]. unfold getConnection. cbn [connections userConnections].
      rewrite lookup_insert_eq. split; [done|].
      unfold indexUser. apply truthy_string_ne in Hu. by rewrite Hu, lookup_insert_eq.
  - intros m Hr. by eapply reachable_count.
  - intros heap now h sids sid Hnd Hlen filled.
    destruct (addConnections_fills opts N u now h sids (new opts heap) HN Hpos Hu eq_refl Hnd)
      as (Hall & Ho & Hc).
    + intros s' _. cbn [new userConnections]. rewrite lookup_empty. set_solver.
    + unfold sessionCount. cbn [new userConnections]. rewrite lookup_empty.
      unfold default. rewrite size_empty. lia.
    + subst filled. split; [done|]. unfold addConnection. cbn [paramsFor p_userId].
      rewrite (overCap_spec _ N u) by (by rewrite ?Ho).
      rewrite bool_decide_eq_true_2; [done|].
      rewrite Hc. unfold sessionCount. cbn [new userConnections].
      rewrite lookup_empty. unfold default. rewrite size_empty. lia.
Qed.

Lemma admission_cap_witness :
  maxConnectionsPerUser (optionsWithCap (Some 2)) = Some 2 ∧ 1 ≤ 2 ∧ "u1" ≠ "" ∧
  let filled := addConnections 0 1 (Some "u1") ["s1"; "s2"] (new (optionsWithCap (Some 2)) ∅) in
  Forall (eq true) filled.1 ∧
  addConnection 0 (paramsFor 1 "s3" (Some "u1")) filled.2 = (false, filled.2).
Proof.
  split; [reflexivity|]. split; [lia|]. split; [discriminate|].
  apply (admission_cap (optionsWithCap (Some 2)) 2 "u1");
    [reflexivity | lia | discriminate | | reflexivity].
  repeat constructor; set_solver.
Defined.

(** C5 as stated fails for a session registered with the empty string as its
    userId: [if (userId)] is false for it, so the session is registered in
    the primary index only, and [getConnectionsByUser] cannot return it
    although [getConnection] does. *)
Lemma index_consistency_empty_userId :
  ¬ (∀ opts m c u,
       reachable_unique opts m → userId c = Some u →
       (c ∈ getConnectionsByUser u m ↔ getConnection (sessionId c) m = Some c)).
Proof.
  intros H.
  pose (opts := optionsWithCap None).
  pose (m := (addConnection 0 (paramsFor 1 "s1" (Some "")) (new opts ∅)).2).
  assert (Hr : reachable_unique opts m) by (apply ureach_add; [constructor | reflexivity]).
  destruct (H opts m (freshConnection 1 "s1" (Some "") 0) "" Hr eq_refl) as [_ Hback].
  specialize (Hback eq_refl). vm_compute in Hback. by apply not_elem_of_nil in Hback.
Qed.

(** C5 (index consistency), amended to sessions registered with a non-empty
    userId.  In every registry reached by [addConnection] and
    [removeConnection] with caller-unique sessionIds: every sessionId in a
    user's set has an entry in the primary index; the userId index holds no
    empty set; a connection with a non-empty userId is among
    [getConnectionsByUser userId] iff [getConnection] returns it for its
    sessionId; and after [removeConnection sid] neither index refers to
    [sid]. *)
Theorem index_consistency (opts : Options) (m : t) :
  reachable_unique opts m →
  (∀ u us sid, userConnections m !! u = Some us → sid ∈ us →
     is_Some (getConnection sid m))
  ∧ (∀ u, userConnections m !! u ≠ Some ∅)
  ∧ (∀ c u, userId c = Some u → u ≠ "" →
       (c ∈ getConnectionsByUser u m ↔ getConnection (sessionId c) m = Some c))
  ∧ (∀ sid, getConnection sid (removeConnection sid m) = None ∧
       ∀ u us, userConnections (removeConnection sid m) !! u = Some us → sid ∉ us).
Proof.
  intros Hreach.
  assert (Hcons : ∀ m', reachable_unique opts m' →
            ∀ u us sid, userConnections m' !! u = Some us → sid ∈ us →
              is_Some (getConnection sid m')).
  { intros m' Hr u us sid Hus Hin.
    destruct (reachable_unique_consistent opts m' Hr) as [Hi _].
    destruct (Hi u us Hus) as (_ & _ & Hc). destruct (Hc sid Hin) as (c & Hc' & _).
    by exists c. }
  destruct (reachable_unique_consistent opts m Hreach) as [Hi Hr].
  split; [by apply Hcons|]. split; [|split].
  - intros u Hu. by destruct (Hi u ∅ Hu) as (Hne & _).
  - intros c u Hcu Hu. apply truthy_string_ne in Hu. unfold getConnectionsByUser, getConnection.
    split.
    + destruct (userConnections m !! u) as [us|] eqn:Hus; [|by intros ?%not_elem_of_nil].
      intros Hin. apply list_elem_of_omap in Hin as (sid & Hsid & Hl).
      destruct (Hr sid c Hl) as [-> _]. done.
    + intros Hl. destruct (Hr _ c Hl) as [_ Hx].
      destruct (Hx u Hcu Hu) as (us & Hus & Hin). rewrite Hus.
      apply list_elem_of_omap. exists (sessionId c). split; [|done].
      by apply elem_of_elements.
  - intros sid.
    assert (Hgone : getConnection sid (removeConnection sid m) = None).
    { unfold getConnection, removeConnection.
      destruct (connections m !! sid) eqn:Hl; [|done].
      cbn [connections]. apply lookup_delete_eq. }
    split; [done|]. intros u us Hus Hin.
    destruct (Hcons (removeConnection sid m) (ureach_remove opts sid m Hreach) u us sid Hus Hin)
      as [c Hc]. congruence.
Qed.

Lemma index_consistency_witness :
  let m := (addConnection 0 (paramsFor 1 "s1" (Some "u1")) (new (optionsWithCap None) ∅)).2 in
  reachable_unique (optionsWithCap None) m ∧
  getConnection "s1" (removeConnection "s1" m) = None.
Proof.
  intros m.
  assert (Hr : reachable_unique (optionsWithCap None) m)
    by (apply ureach_add; [constructor | reflexivity]).
  split; [exact Hr|].
  exact (proj1 (proj2 (proj2 (proj2 (index_consistency _ m Hr))) "s1")).
Defined.

(** C6 (removal idempotence).  For every sessionId and every registry:
    [removeConnection] of a sessionId that is not in the primary index
    returns the registry unchanged (no index touched, no event emitted);
    removing twice in succession gives the same registry as removing once;
    and, in every registry reached by [addConnection] and
    [removeConnection], when the removed connection's user set is left
    empty the user's entry is gone from the userId index. *)
Theorem removeConnection_idempotent (sid : string) (m : t) :
  (getConnection sid m = None → removeConnection sid m = m)
  ∧ removeConnection sid (removeConnection sid m) = removeConnection sid m
  ∧ (∀ opts c u us,
       reachable opts m → getConnection sid m = Some c → userId c = Some u →
       userConnections m !! u = Some us → us ∖ {[sid]} = ∅ →
       userConnections (removeConnection sid m) !! u = None).
Proof.
  unfold getConnection. split; [|split].
  - intros Hl. unfold removeConnection. by rewrite Hl.
  - unfold removeConnection at 1.
    assert (Hgone : connections (removeConnection sid m) !! sid = None).
    { unfold removeConnection. destruct (connections m !! sid) eqn:Hl; [|done].
      cbn [connections]. apply lookup_delete_eq. }
    by rewrite Hgone.
  - intros opts c u us Hr Hl Hcu Hus Hlast.
    pose proof (reachable_keys opts m Hr u us Hus) as Ht.
    unfold removeConnection. rewrite Hl. cbn [userConnections].
    unfold unindexUser. rewrite Hcu, Ht, Hus, Hlast.
    rewrite decide_True by apply size_empty. apply lookup_delete_eq.
Qed.

Lemma removeConnection_idempotent_witness :
  let m := (addConnection 0 (paramsFor 1 "s1" (Some "u1")) (new (optionsWithCap None) ∅)).2 in
  reachable (optionsWithCap None) m ∧
  getConnection "s2" m = None ∧
  removeConnection "s2" m = m ∧
  userConnections (removeConnection "s1" m) !! "u1" = None.
Proof.
  intros m.
  assert (Hr : reachable (optionsWithCap None) m) by (apply reach_add; constructor).
  split; [exact Hr|]. split; [reflexivity|]. split.
  - apply (proj1 (removeConnection_idempotent "s2" m)). reflexivity.
  - apply (proj2 (proj2 (removeConnection_idempotent "s1" m))
             (optionsWithCap None) (freshConnection 1 "s1" (Some "u1") 0) "u1" {["s1"]});
      [exact Hr | reflexivity | reflexivity | reflexivity | ].
    vm_compute. reflexivity.
Defined.
End WebSocketManagerFacts.

Module LLMProcessorFacts.
Import LLMProcessor.

Ltac llm_proj :=
  cbn [clearTimeout setTimeout with_timers with_batches emit fst snd
       llmHandler options batchMap timers nextTimer inflight nextCall emitted].



Lemma append_unfold now i s :
  included i s = true →
  append now i s =
    let '(batch, s1) := getOrCreateBatch now (item_session i) s in
    checkBatchSize now (item_session i)
      (with_batches (<[item_session i := push i batch]> (batchMap s1)) s1).
Proof.
  destruct i; cbn [included append item_session push];
    unfold processAudioChunk, processTranscription; intros ->; done.
Qed.

Lemma processBatch_nonempty now sid s b :
  batchMap s !! sid = Some b → 0 < totalItems b →
  flushedFrom now sid b s (processBatch now sid s) ∧
  nextTimer (processBatch now sid s) = nextTimer s ∧
  timers (processBatch now sid s)
    = match b_timer b with Some timer => delete timer (timers s) | None => timers s end.
Proof.
  intros Hb Hpos. unfold processBatch. rewrite Hb.
  rewrite decide_False by (unfold totalItems in Hpos; lia).
  unfold flushedFrom.
  destruct (b_timer b) as [timer|] eqn:Htimer;
    destruct (llmHandler s) eqn:Hh; llm_proj; rewrite ?Hh; llm_proj;
    rewrite lookup_delete_eq; (split; [split; [done|split; [|done]]|done]);
    intros timer' [= <-]; apply lookup_delete_eq.
Qed.




Lemma filter_truthy (l : list string) :
  filter (λ text : string, truthy text = true) l = filter (λ text : string, text ≠ "") l.
Proof.
  apply list_filter_iff. intros text. unfold truthy, string_truthy.
  destruct text; split; intros; congruence.
Qed.

(** C10 (flushed-request construction).  Flushing a session whose batch is
    not empty emits exactly one request, for that session.  When the batch
    holds a transcription result, the request's transcript is the results'
    texts, the empty ones dropped, joined by one space, and the request
    carries the results in order; its audio field is present iff the batch
    holds an audio chunk, and is then the concatenation of the chunks in
    the order they were appended. *)
Theorem flushed_request (now : Z) (sid : string) (s : t) (batch : Batch) :
  batchMap s !! sid = Some batch →
  b_audio batch ≠ [] ∨ b_transcripts batch ≠ [] →
  ∃ request,
    emitted (processBatch now sid s) = emitted s ++ [LlmRequest request] ∧
    sessionId request = sid ∧
    (b_transcripts batch ≠ [] →
       transcript request
         = Some (String.concat " "
                   (filter (λ text : string, text ≠ "")
                           (transcript_of <$> b_transcripts batch))) ∧
       transcriptionResults request = Some (b_transcripts batch)) ∧
    (is_Some (audio request) ↔ b_audio batch ≠ []) ∧
    (b_audio batch ≠ [] → audio request = Some (concat (b_audio batch))).
Proof.
  intros Hb Hne.
  assert (Hpos : 0 < totalItems batch).
  { unfold totalItems. destruct Hne as [H|H].
    - destruct (b_audio batch); [done|cbn [length]; lia].
    - destruct (b_transcripts batch); [done|cbn [length]; lia]. }
  destruct (processBatch_nonempty now sid s batch Hb Hpos) as ((_ & _ & He) & _).
  exists (makeRequest now sid batch). split; [done|]. split; [done|].
  unfold makeRequest. cbn [transcript transcriptionResults audio].
  assert (Hlen : ∀ A (l : list A), l ≠ [] ↔ 0 < length l).
  { intros A l. destruct l; cbn [length]; split; intros; try done; lia. }
  split; [|split].
  - intros Ht. apply Hlen in Ht. rewrite !decide_True by done.
    by rewrite filter_truthy.
  - case_decide as Ha.
    + split; [by intros; apply Hlen | by eexists].
    + split; [by intros [? ?] | intros Hx%Hlen; done].
  - intros Ha%Hlen. by rewrite decide_True.
Qed.
Lemma flushed_request_witness :
  batchMap Samples.processor1 !! "s1"
    = Some (push (TranscriptItem "s1" (Samples.heard "hello")) (emptyBatch 0)) ∧
  ∃ request,
    emitted (processBatch 7 "s1" Samples.processor1) = [LlmRequest request] ∧
    transcript request = Some "hello" ∧
    audio request = None.
Proof.
  assert (Hb : batchMap Samples.processor1 !! "s1"
               = Some (push (TranscriptItem "s1" (Samples.heard "hello")) (emptyBatch 0)))
    by (vm_compute; reflexivity).
  split; [exact Hb|].
  destruct (flushed_request 7 "s1" Samples.processor1 _ Hb) as (request & He & _ & Ht & Ha & _).
  { right. discriminate. }
  exists request. split; [exact He|]. split.
  - exact (proj1 (Ht ltac:(discriminate))).
  - destruct (audio request) as [a|] eqn:Haudio; [|reflexivity].
    exfalso. apply (proj1 Ha); [by eexists | reflexivity].
Defined.

End LLMProcessorFacts.

Module AudioStreamServerFacts.
Import AudioStreamServer.

Ltac srv_proj :=
  cbn [wsManager llmProcessor sessionBuffers processingQueue outstanding awaiting
       calls nextCall emitted with_wsManager with_buffers with_queue with_awaiting
       emit sendMessage acknowledgeStop setFlag fst snd].

Lemma removeConnection_gone sid m :
  WebSocketManager.getConnection sid (WebSocketManager.removeConnection sid m) = None.
Proof.
  unfold WebSocketManager.getConnection, WebSocketManager.removeConnection.
  destruct (WebSocketManager.connections m !! sid) eqn:Hl; [|done].
  cbn [WebSocketManager.connections]. apply lookup_delete_eq.
Qed.

Lemma socketClosed_unfold now h sid reason s :
  socketClosed now h sid reason s
  = with_wsManager
      (WebSocketManager.removeConnection sid
         (WebSocketManager.socketGone h (wsManager s))) s.
Proof.
  unfold socketClosed, handleDisconnection. srv_proj.
  by rewrite removeConnection_gone.
Qed.

Lemma processAudioBuffer_dispatch sid s : dispatch sid s (processAudioBuffer sid s).
Proof.
  unfold processAudioBuffer.
  destruct (sessionBuffers s !! sid) as [buffer|] eqn:Hb; [|constructor].
  case_decide as Hlen; [constructor|].
  destruct (WebSocketManager.getConnection sid (wsManager s)) as [c|] eqn:Hc; [|constructor].
  eapply dispatch_call; eauto. by intros ->.
Qed.

(** *** The guard invariant *)

Lemma guarded_new o heap : guarded (new o heap).
Proof. intros call k sid Hin. cbn in Hin. by apply not_elem_of_nil in Hin. Qed.

Lemma guarded_frame s s' :
  processingQueue s' = processingQueue s → awaiting s' = awaiting s →
  guarded s → guarded s'.
Proof. intros Hq Ha Hg call k sid. rewrite Hq, Ha. apply Hg. Qed.

Lemma withLLM_frame f s :
  processingQueue (withLLM f s) = processingQueue s ∧
  awaiting (withLLM f s) = awaiting s ∧
  sessionBuffers (withLLM f s) = sessionBuffers s ∧
  outstanding (withLLM f s) = outstanding s ∧
  calls (withLLM f s) = calls s ∧
  nextCall (withLLM f s) = nextCall s ∧
  wsManager (withLLM f s) = wsManager s.
Proof. unfold withLLM. by destruct (llmProcessor s). Qed.

Lemma drain_guarded now sid s : guarded s → guarded (drain now sid s).
Proof.
  intros Hg. unfold drain.
  destruct (processAudioBuffer_dispatch sid s) as [|buffer c Hb Hne Hc].
  - by apply (guarded_frame s).
  - intros call k sid'. srv_proj. intros Hin Hk.
    apply elem_of_app in Hin as [Hin|Hin]; [by eapply Hg|].
    apply list_elem_of_singleton in Hin as [= -> ->]. done.
Qed.

Lemma handleAudioData_guarded now sid audioData s :
  guarded s → guarded (handleAudioData now sid audioData s).
Proof.
  intros Hg. unfold handleAudioData.
  destruct (WebSocketManager.getConnection sid (wsManager s)) as [c|]; [|done].
  destruct (isPaused c); [done|].
  destruct (sessionBuffers s !! sid) as [buffer|]; [|done].
  match goal with |- context [withLLM ?f ?x] => set (s3 := withLLM f x) end.
  assert (Hq3 : processingQueue s3 = processingQueue s)
    by (unfold s3; by rewrite (proj1 (withLLM_frame _ _))).
  assert (Ha3 : awaiting s3 = awaiting s)
    by (unfold s3; by rewrite (proj1 (proj2 (withLLM_frame _ _)))).
  assert (Hg3 : guarded s3) by by apply (guarded_frame s).
  case_decide as Hbusy; [done|].
  assert (Hfree : ∀ call k, (call, k) ∈ awaiting s3 → holds k ≠ Some sid).
  { intros call k Hin Hk. apply Hbusy. rewrite (Hg3 call k sid Hin Hk). by eexists. }
  destruct (processAudioBuffer_dispatch sid s3) as [|buffer' c' Hb Hne Hc].
  - intros call k sid'. srv_proj. intros Hin Hk.
    destruct (decide (sid' = sid)) as [->|Hns]; [by destruct (Hfree call k)|].
    rewrite lookup_delete_ne by done. by eapply Hg3.
  - intros call k sid'. srv_proj. intros Hin Hk.
    apply elem_of_app in Hin as [Hin|Hin].
    + destruct (decide (sid' = sid)) as [->|Hns]; [by destruct (Hfree call k)|].
      rewrite lookup_insert_ne by done. by eapply Hg3.
    + apply list_elem_of_singleton in Hin as [= -> ->]. cbn in Hk.
      injection Hk as <-. apply lookup_insert_eq.
Qed.

Lemma handleControlMessage_guarded now sid type s :
  guarded s → guarded (handleControlMessage now sid type s).
Proof.
  intros Hg. unfold handleControlMessage.
  destruct (WebSocketManager.getConnection sid (wsManager s)) as [c|]; [|done].
  repeat case_decide; try done.
  unfold processBufferedAudio.
  match goal with |- context [setFlag ?a ?b ?c ?d ?e] => set (s1 := setFlag a b c d e) end.
  assert (Hg1 : guarded s1) by by apply (guarded_frame s).
  destruct (processingQueue s1 !! sid) as [ongoing|] eqn:Hq;
    [case_decide|]; try by apply drain_guarded.
  intros call k sid'. srv_proj. intros Hin Hk.
  apply elem_of_app in Hin as [Hin|Hin]; [by eapply Hg|].
  apply list_elem_of_singleton in Hin as [= -> ->]. cbn in Hk. by injection Hk as <-.
Qed.

Lemma foldl_resume_inv now (P : t → Prop) ks :
  (∀ st k, k ∈ ks → P st → P (resume now st k)) →
  ∀ st, P st → P (foldl (resume now) st ks).
Proof.
  induction ks as [|k ks IH]; intros Hstep st Hst; [done|].
  cbn [foldl]. apply IH.
  - intros st' k' Hk'. apply Hstep. by right.
  - apply Hstep; [by left|done].
Qed.

Lemma elem_of_mine (call : nat) (w : list (nat * Continuation)) k :
  k ∈ (filter (λ x, x.1 = call) w).*2 ↔ (call, k) ∈ w.
Proof.
  rewrite list_elem_of_fmap. split.
  - intros ([c k'] & -> & Hin). apply list_elem_of_filter in Hin as [Heq Hin].
    cbn in Heq. by subst c.
  - intros Hin. exists (call, k). split; [done|]. by apply list_elem_of_filter.
Qed.

Lemma resolve_guarded now call s : guarded s → guarded (resolve now call s).
Proof.
  intros Hg. unfold resolve.
  set (ks := (filter (λ w, w.1 = call) (awaiting s)).*2).
  pose (P := λ st : t,
    (∀ c' k sid, (c', k) ∈ awaiting st → holds k = Some sid →
       processingQueue st !! sid = Some c' ∧ c' ≠ call) ∧
    (∀ k sid, k ∈ ks → holds k = Some sid →
       processingQueue st !! sid = Some call ∨ processingQueue st !! sid = None)).
  enough (HP : P (foldl (resume now)
                    (with_awaiting (filter (λ w, w.1 ≠ call) (awaiting s)) s) ks)).
  { intros c' k sid Hin Hk. by destruct (proj1 HP c' k sid Hin Hk). }
  apply foldl_resume_inv.
  - intros st k Hk [Hw Hr]. destruct k as [sid0|sid0|sid0]; cbn [resume].
    + split.
      * intros c' k' sid. srv_proj. intros Hin Hk'.
        destruct (Hw c' k' sid Hin Hk') as [Hq Hne].
        destruct (decide (sid = sid0)) as [->|Hns].
        -- destruct (Hr (KFinally sid0) sid0 Hk eq_refl); congruence.
        -- by rewrite lookup_delete_ne.
      * intros k' sid Hk' Hh. srv_proj.
        destruct (decide (sid = sid0)) as [->|Hns].
        -- right. apply lookup_delete_eq.
        -- rewrite lookup_delete_ne by done. by eapply Hr.
    + unfold drain.
      destruct (processAudioBuffer_dispatch sid0 st) as [|buffer c Hb Hne Hc].
      * done.
      * split; [|done]. intros c' k' sid. srv_proj. intros Hin Hk'.
        apply elem_of_app in Hin as [Hin|Hin]; [by eapply Hw|].
        apply list_elem_of_singleton in Hin as [= -> ->]. done.
    + done.
  - split.
    + intros c' k sid. srv_proj. intros Hin Hk.
      apply list_elem_of_filter in Hin as [Hne Hin]. cbn in Hne.
      split; [by eapply Hg|done].
    + intros k sid Hk Hh. left. apply elem_of_mine in Hk. by eapply Hg.
Qed.

Lemma processAudioBuffer_settled_frame now sid outcome s :
  processingQueue (processAudioBuffer_settled now sid outcome s) = processingQueue s ∧
  awaiting (processAudioBuffer_settled now sid outcome s) = awaiting s ∧
  sessionBuffers (processAudioBuffer_settled now sid outcome s) = sessionBuffers s ∧
  outstanding (processAudioBuffer_settled now sid outcome s) = outstanding s ∧
  calls (processAudioBuffer_settled now sid outcome s) = calls s ∧
  nextCall (processAudioBuffer_settled now sid outcome s) = nextCall s.
Proof.
  unfold processAudioBuffer_settled. destruct outcome as [result|err]; [|done].
  destruct (truthy (transcript result)); [|done].
  match goal with |- context [withLLM ?f ?x] =>
    destruct (withLLM_frame f x) as (-> & -> & -> & -> & -> & -> & _) end.
  done.
Qed.

Lemma settle_guarded now call outcome s : guarded s → guarded (settle now call outcome s).
Proof.
  intros Hg. unfold settle. destruct (outstanding s !! call) as [c|]; [|done].
  apply resolve_guarded.
  match goal with |- guarded (processAudioBuffer_settled ?n ?sid ?o ?x) =>
    destruct (processAudioBuffer_settled_frame n sid o x) as (Hq & Ha & _);
    by apply (guarded_frame x) end.
Qed.

Lemma handleConnection_frame now p s :
  processingQueue (handleConnection now p s) = processingQueue s ∧
  awaiting (handleConnection now p s) = awaiting s ∧
  outstanding (handleConnection now p s) = outstanding s ∧
  calls (handleConnection now p s) = calls s ∧
  (∀ sid, sid ≠ WebSocketManager.p_sessionId p →
     sessionBuffers (handleConnection now p s) !! sid = sessionBuffers s !! sid).
Proof.
  unfold handleConnection.
  destruct (WebSocketManager.addConnection now p (wsManager s)) as [[] wm]; cbn [negb];
    srv_proj; repeat split; try done.
  intros sid Hne. by rewrite lookup_insert_ne.
Qed.

Lemma step_guarded now s i : guarded s → guarded (step now s i).
Proof.
  intros Hg. destruct i; cbn [step].
  - destruct (handleConnection_frame now params s) as (Hq & Ha & _).
    by apply (guarded_frame s).
  - by apply handleAudioData_guarded.
  - by apply handleControlMessage_guarded.
  - rewrite socketClosed_unfold. by apply (guarded_frame s).
  - by apply settle_guarded.
  - destruct (withLLM_frame (LLMProcessor.timerFired now timer) s) as (Hq & Ha & _).
    by apply (guarded_frame s).
  - destruct (withLLM_frame (LLMProcessor.handlerSettled now call outcome) s)
      as (Hq & Ha & _).
    by apply (guarded_frame s).
Qed.

Lemma reachable_guarded o heap s : reachable o heap s → guarded s.
Proof. induction 1; [apply guarded_new | by apply step_guarded]. Qed.

(** *** A session while its call is in flight *)

Lemma kept_refl sid call s : kept sid call s s.
Proof. by repeat split. Qed.

Lemma kept_trans sid call s1 s2 s3 :
  kept sid call s1 s2 → kept sid call s2 s3 → kept sid call s1 s3.
Proof.
  intros (Hq & Hb & Hc & Ho) (Hq' & Hb' & Hc' & Ho').
  repeat split; try congruence. auto.
Qed.

Lemma kept_frame sid call s s' :
  processingQueue s' = processingQueue s → sessionBuffers s' = sessionBuffers s →
  calls s' = calls s → outstanding s' = outstanding s → kept sid call s s'.
Proof. intros Hq Hb Hc Ho. unfold kept. by rewrite Hq, Hb, Hc, Ho. Qed.

Lemma callsFor_other sid sid' (l : list (nat * Call)) n c :
  call_session c = sid' → sid' ≠ sid →
  filter (λ c, call_session c.2 = sid) (l ++ [(n, c)])
    = filter (λ c, call_session c.2 = sid) l.
Proof.
  intros Hc Hne. rewrite filter_app, filter_cons_False, filter_nil by (cbn; congruence).
  apply app_nil_r.
Qed.

Lemma dispatch_other sid call sid' s r :
  dispatch sid' s r → sid' ≠ sid → kept sid call s r.2.
Proof.
  intros [|buffer c Hb Hne Hc] Hns; [apply kept_refl|]. unfold kept. srv_proj.
  rewrite lookup_insert_ne by done.
  split; [done|]. split; [done|]. split; [by apply (callsFor_other sid sid')|].
  intros [x Hx]. destruct (decide (nextCall s = call)) as [->|Hn].
  - rewrite lookup_insert_eq. by eexists.
  - rewrite lookup_insert_ne by done. by eexists.
Qed.

Lemma drain_other now sid call sid' s : sid' ≠ sid → kept sid call s (drain now sid' s).
Proof.
  intros Hns. unfold drain.
  pose proof (dispatch_other sid call sid' s _ (processAudioBuffer_dispatch sid' s) Hns) as Hk.
  destruct (processAudioBuffer sid' s) as [[n|] s1]; cbn [snd] in Hk.
  - eapply kept_trans; [exact Hk|]. by apply kept_frame.
  - eapply kept_trans; [exact Hk|]. by apply kept_frame.
Qed.

Lemma resume_other now sid call st k :
  holds k ≠ Some sid → kept sid call st (resume now st k).
Proof.
  intros Hk. destruct k as [sid'|sid'|sid']; cbn [resume].
  - unfold kept. srv_proj. rewrite lookup_delete_ne by (cbn in Hk; congruence). done.
  - apply drain_other. cbn in Hk. congruence.
  - by apply kept_frame.
Qed.



Lemma handleAudioData_other now sid call sid' audioData s :
  sid' ≠ sid → kept sid call s (handleAudioData now sid' audioData s).
Proof.
  intros Hns. unfold handleAudioData.
  destruct (WebSocketManager.getConnection sid' (wsManager s)) as [c|]; [|apply kept_refl].
  destruct (isPaused c); [apply kept_refl|].
  destruct (sessionBuffers s !! sid') as [buffer|]; [|apply kept_refl].
  match goal with |- context [withLLM ?f ?x] =>
    destruct (withLLM_frame f x) as (Hq3 & Ha3 & Hb3 & Ho3 & Hc3 & _);
    set (s2 := x) in *; set (s3 := withLLM f s2) in *
  end.
  assert (Hk3 : kept sid call s s3).
  { unfold kept. rewrite Hq3, Hb3, Ho3, Hc3. unfold s2. srv_proj.
    by rewrite lookup_insert_ne. }
  case_decide; [done|].
  pose proof (dispatch_other sid call sid' s3 _ (processAudioBuffer_dispatch sid' s3) Hns) as Hk.
  destruct (processAudioBuffer sid' s3) as [[n|] s4]; cbn [snd] in Hk;
    (eapply kept_trans; [exact Hk3|]); (eapply kept_trans; [exact Hk|]);
    unfold kept; srv_proj.
  - by rewrite lookup_insert_ne.
  - by rewrite lookup_delete_ne.
Qed.



Lemma handleConnection_kept now sid call p s :
  WebSocketManager.p_sessionId p ≠ sid → kept sid call s (handleConnection now p s).
Proof.
  intros Hne. destruct (handleConnection_frame now p s) as (Hq & _ & Ho & Hc & Hb).
  unfold kept. rewrite Hq, Ho, Hc, Hb by done. done.
Qed.



(** *** Completion of a call *)

Lemma foldl_resume_no_drain now ks : ∀ st,
  (∀ sid, KDrain sid ∉ ks) →
  let st' := foldl (resume now) st ks in
  calls st' = calls st ∧ nextCall st' = nextCall st ∧
  outstanding st' = outstanding st ∧ sessionBuffers st' = sessionBuffers st ∧
  emitted st' = emitted st ∧ llmProcessor st' = llmProcessor st ∧
  ∀ sid, processingQueue st' !! sid
         = if decide (KFinally sid ∈ ks) then None else processingQueue st !! sid.
Proof.
  induction ks as [|k ks IH]; intros st Hnd; cbn [foldl].
  - repeat split; try done.
  - assert (Hnd' : ∀ sid, KDrain sid ∉ ks) by (intros sid Hin; apply (Hnd sid); by right).
    destruct (IH (resume now st k) Hnd') as (Hc & Hn & Ho & Hb & He & Hl & Hq).
    cbn zeta in *. rewrite Hc, Hn, Ho, Hb, He, Hl.
    assert (Hcons : ∀ sid, k ≠ KFinally sid →
              (if decide (KFinally sid ∈ ks) then None else processingQueue st !! sid)
              = if decide (KFinally sid ∈ k :: ks) then None else processingQueue st !! sid).
    { intros sid Hne. destruct (decide (KFinally sid ∈ ks)) as [Hin|Hnin].
      - rewrite decide_True by (by right). done.
      - rewrite decide_False; [done|].
        intros [Heq|Hin]%elem_of_cons; [|done]. by subst k. }
    destruct k as [sid0|sid0|sid0]; cbn [resume] in *.
    + repeat split; try done. intros sid. rewrite Hq. cbn [with_queue processingQueue].
      destruct (decide (sid = sid0)) as [->|Hns].
      * rewrite lookup_delete_eq, (decide_True _ _ (list_elem_of_here _ _)). by case_decide.
      * rewrite lookup_delete_ne by done. apply Hcons. congruence.
    + destruct (Hnd sid0). by left.
    + repeat split; try done. intros sid. rewrite Hq. by apply Hcons.
Qed.

Lemma handleAudioData_dispatches now sid audioData s connection buffer :
  WebSocketManager.getConnection sid (wsManager s) = Some connection →
  isPaused connection = false →
  sessionBuffers s !! sid = Some buffer →
  processingQueue s !! sid = None →
  let s' := handleAudioData now sid audioData s in
  let call := {| call_session := sid;
                 call_audio := Buffer_concat (buffer ++ [audioData]);
                 call_metadata := WebSocketManager.metadata connection |} in
  calls s' = calls s ++ [(nextCall s, call)] ∧
  outstanding s' = <[nextCall s := call]> (outstanding s) ∧
  sessionBuffers s' = <[sid := []]> (sessionBuffers s) ∧
  processingQueue s' = <[sid := nextCall s]> (processingQueue s) ∧
  awaiting s' = awaiting s ++ [(nextCall s, KFinally sid)].
Proof.
  intros Hc Hp Hb Hq. unfold handleAudioData. rewrite Hc, Hp, Hb.
  match goal with |- context [withLLM ?f ?x] =>
    destruct (withLLM_frame f x) as (Hq3 & Ha3 & Hb3 & Ho3 & Hc3 & Hn3 & Hw3);
    set (s2 := x) in *; set (s3 := withLLM f s2) in *
  end.
  rewrite decide_False by (rewrite Hq3; unfold s2; srv_proj; rewrite Hq; by intros [? ?]).
  unfold processAudioBuffer. rewrite Hb3, Hw3, Hq3, Ho3, Hc3, Hn3, Ha3.
  unfold s2. srv_proj. rewrite lookup_insert_eq, Hc.
  rewrite decide_False by (rewrite length_app; cbn [length]; lia).
  srv_proj. by rewrite insert_insert_eq.
Qed.


Lemma sendMessage_sent now sid msg s connection sock :
  WebSocketManager.getConnection sid (wsManager s) = Some connection →
  WebSocketManager.sockets (wsManager s) !! WebSocketManager.ws connection = Some sock →
  readyState sock = 1 →
  serialisable msg = true →
  sentOn (WebSocketManager.ws connection) (sendMessage now sid msg s) = sent sock ++ [msg].
Proof.
  unfold WebSocketManager.getConnection. intros Hc Hs Hr Hmsg.
  unfold sendMessage, sentOn, WebSocketManager.sendMessage. rewrite Hc, Hs.
  rewrite decide_True by done. rewrite Hmsg. srv_proj. cbn [WebSocketManager.sockets].
  by rewrite lookup_insert_eq.
Qed.

(** A message that is refused leaves the registry as it is. *)
Lemma sendMessage_refused now sid msg m :
  WebSocketManager.deliverable m sid = false ∨ serialisable msg = false →
  WebSocketManager.sendMessage now sid msg m = (false, m).
Proof.
  unfold WebSocketManager.sendMessage, WebSocketManager.deliverable, WebSocketManager.isOpen.
  destruct (WebSocketManager.connections m !! sid) as [c|]; [|done].
  destruct (WebSocketManager.sockets m !! WebSocketManager.ws c) as [sock|]; [|done].
  case_decide as Hopen; [|done]. destruct (serialisable msg); [|done].
  intros [H|H]; [|done]. by rewrite bool_decide_eq_false in H.
Qed.

Lemma resolve_quiet now call s :
  emitted (resolve now call s) = emitted s ∧
  llmProcessor (resolve now call s) = llmProcessor s.
Proof.
  unfold resolve.
  match goal with |- context [foldl _ ?x ?l] => set (s0 := x); set (ks := l) end.
  apply (foldl_resume_inv now
           (λ st, emitted st = emitted s ∧ llmProcessor st = llmProcessor s) ks); [|done].
  intros st k _ [He Hl]. destruct k as [sid|sid|sid]; cbn [resume]; srv_proj; try done.
  unfold drain. destruct (processAudioBuffer_dispatch sid st); srv_proj; done.
Qed.

(** *** While a session's queue entry is free *)

Lemma handleControlMessage_idle now sid call sid' type s :
  sid' ≠ sid ∨ type ≠ "stop-recording" →
  kept sid call s (handleControlMessage now sid' type s).
Proof.
  intros Hi. unfold handleControlMessage.
  destruct (WebSocketManager.getConnection sid' (wsManager s)) as [c|]; [|apply kept_refl].
  repeat case_decide; try (by apply kept_frame); try apply kept_refl.
  destruct Hi as [Hns|Hnt]; [|done].
  match goal with |- context [setFlag ?a ?b ?c ?d ?e] => set (s1 := setFlag a b c d e) end.
  apply (kept_trans _ _ _ s1); [by apply kept_frame|].
  unfold processBufferedAudio.
  destruct (processingQueue s1 !! sid') as [ongoing|]; [case_decide|];
    try (by apply drain_other). by apply kept_frame.
Qed.

Lemma resolve_free now sid call call' s :
  guarded s → processingQueue s !! sid = None → kept sid call s (resolve now call' s).
Proof.
  intros Hg Hq. unfold resolve.
  set (ks := (filter (λ w, w.1 = call') (awaiting s)).*2).
  pose (s0 := with_awaiting (filter (λ w, w.1 ≠ call') (awaiting s)) s).
  apply (kept_trans _ _ _ s0); [by apply kept_frame|].
  apply (foldl_resume_inv now (kept sid call s0) ks); [|apply kept_refl].
  intros st k Hk Hst. eapply kept_trans; [exact Hst|]. apply resume_other.
  intros Hh. apply elem_of_mine in Hk. pose proof (Hg call' k sid Hk Hh). congruence.
Qed.

Lemma settle_free now sid call' outcome s :
  guarded s → processingQueue s !! sid = None →
  processingQueue (settle now call' outcome s) !! sid = None ∧
  sessionBuffers (settle now call' outcome s) !! sid = sessionBuffers s !! sid ∧
  callsFor sid (settle now call' outcome s) = callsFor sid s.
Proof.
  intros Hg Hq. unfold settle.
  destruct (outstanding s !! call') as [c|]; [|done].
  match goal with |- context [processAudioBuffer_settled ?n ?sd ?o ?x] =>
    destruct (processAudioBuffer_settled_frame n sd o x) as (Hq2 & Ha2 & Hb2 & Ho2 & Hc2 & _);
    set (s1 := x) in *; set (s2 := processAudioBuffer_settled n sd o s1) in *
  end.
  assert (Hg2 : guarded s2).
  { apply (guarded_frame s1); [done|done|]. by apply (guarded_frame s). }
  assert (Hq2' : processingQueue s2 !! sid = None) by (by rewrite Hq2).
  destruct (resolve_free now sid 0 call' s2 Hg2 Hq2') as (Hrq & Hrb & Hrc & _).
  unfold callsFor. rewrite Hrq, Hrb, Hrc, Hq2, Hb2, Hc2. done.
Qed.

Lemma step_idle now sid s i :
  guarded s → processingQueue s !! sid = None → idle sid i →
  processingQueue (step now s i) !! sid = None ∧
  sessionBuffers (step now s i) !! sid = sessionBuffers s !! sid ∧
  callsFor sid (step now s i) = callsFor sid s.
Proof.
  intros Hg Hq Hi.
  assert (Hkept : kept sid 0 s (step now s i) →
            processingQueue (step now s i) !! sid = None ∧
            sessionBuffers (step now s i) !! sid = sessionBuffers s !! sid ∧
            callsFor sid (step now s i) = callsFor sid s).
  { intros (Hq' & Hb' & Hc' & _). unfold callsFor. by rewrite Hq', Hb', Hc'. }
  destruct i as [p|sid' audioData|sid' type|h sid' reason|call' outcome|timer|call' outcome];
    cbn [idle] in Hi.
  - apply Hkept. by apply handleConnection_kept.
  - apply Hkept. by apply handleAudioData_other.
  - apply Hkept. by apply handleControlMessage_idle.
  - apply Hkept. cbn [step]. rewrite socketClosed_unfold. by apply kept_frame.
  - by apply settle_free.
  - apply Hkept. cbn [step].
    destruct (withLLM_frame (LLMProcessor.timerFired now timer) s)
      as (? & ? & ? & ? & ? & _). by apply kept_frame.
  - apply Hkept. cbn [step].
    destruct (withLLM_frame (LLMProcessor.handlerSettled now call' outcome) s)
      as (? & ? & ? & ? & ? & _). by apply kept_frame.
Qed.

Lemma run_idle sid trace : ∀ s,
  guarded s → processingQueue s !! sid = None →
  Forall (λ ti, idle sid ti.2) trace →
  buffered sid (run s trace) = buffered sid s ∧
  callsFor sid (run s trace) = callsFor sid s ∧
  processingQueue (run s trace) !! sid = None.
Proof.
  induction trace as [|[now i] rest IH]; intros s Hg Hq Hall; [done|].
  apply Forall_cons in Hall as [Hi Hall]. cbn [snd] in Hi.
  destruct (step_idle now sid s i Hg Hq Hi) as (Hq' & Hb' & Hc').
  destruct (IH (step now s i) (step_guarded now s i Hg) Hq' Hall) as (Hb'' & Hc'' & Hq'').
  change (run s ((now, i) :: rest)) with (run (step now s i) rest).
  unfold buffered in *. rewrite Hb'', Hc'', Hb', Hc'. done.
Qed.

(** What stop-recording dispatches when the queue entry is free. *)
Lemma stop_recording_dispatches now sid s connection buffer :
  WebSocketManager.getConnection sid (wsManager s) = Some connection →
  sessionBuffers s !! sid = Some buffer → buffer ≠ [] →
  processingQueue s !! sid = None →
  let s' := handleControlMessage now sid "stop-recording" s in
  calls s' = calls s ++
    [(nextCall s,
      {| call_session := sid;
         call_audio := Buffer_concat buffer;
         call_metadata :=
           Some (spread_set (WebSocketManager.metadata connection)
                   "isRecording" (JBool false)) |})] ∧
  sessionBuffers s' !! sid = Some [] ∧
  processingQueue s' !! sid = None.
Proof.
  intros Hc Hb Hne Hq s'. subst s'. unfold handleControlMessage. rewrite Hc.
  rewrite decide_False by done. rewrite decide_False by done. rewrite decide_True by done.
  set (s1 := setFlag sid connection "isRecording" false s).
  assert (Hc1 : WebSocketManager.getConnection sid (wsManager s1)
                = Some {| WebSocketManager.ws := WebSocketManager.ws connection;
                          WebSocketManager.sessionId := WebSocketManager.sessionId connection;
                          WebSocketManager.userId := WebSocketManager.userId connection;
                          WebSocketManager.metadata :=
                            Some (spread_set (WebSocketManager.metadata connection)
                                    "isRecording" (JBool false));
                          WebSocketManager.isAlive := WebSocketManager.isAlive connection;
                          WebSocketManager.lastActivity :=
                            WebSocketManager.lastActivity connection |}).
  { unfold s1, setFlag, WebSocketManager.getConnection, WebSocketManager.setMetadata in *.
    srv_proj. cbn [WebSocketManager.connections]. by rewrite lookup_alter_eq, Hc. }
  unfold processBufferedAudio, drain, processAudioBuffer.
  change (processingQueue s1) with (processingQueue s).
  change (sessionBuffers s1) with (sessionBuffers s).
  rewrite Hq, Hb, Hc1.
  rewrite decide_False by (by destruct buffer). srv_proj.
  by rewrite lookup_insert_eq.
Qed.

(** C2 (drain on completion), amended.  When a provider call settles, with
    a result or an error, and no stop-recording drain is waiting for it, no
    new call is started: the list of calls issued is unchanged, the call
    just leaves the outstanding ones, every session buffer keeps what
    accumulated while the call was outstanding, and the [processingQueue]
    entry of the session that awaited it is released.  From then on, in a
    run of the server, the accumulated audio stays in the buffer, and no
    call is issued for the session, over every input that is not an audio
    frame for the session, a stop-recording for it or a connection under
    its sessionId.  With the
    queue free, a frame the session accepts starts one call carrying the
    whole buffer followed by the frame, and a stop-recording for the
    session starts one call carrying the whole buffer; either leaves the
    buffer empty. *)
Theorem completion_releases_without_redispatch
    (now : Z) (call : nat) (outcome : TranscriptionResult + string) (s : t) (c : Call) :
  outstanding s !! call = Some c →
  (∀ sid, (call, KDrain sid) ∉ awaiting s) →
  let s' := settle now call outcome s in
  calls s' = calls s ∧
  outstanding s' = delete call (outstanding s) ∧
  sessionBuffers s' = sessionBuffers s ∧
  (∀ sid, (call, KFinally sid) ∈ awaiting s → processingQueue s' !! sid = None) ∧
  (∀ o heap sid trace,
     reachable o heap s → processingQueue s' !! sid = None →
     Forall (λ ti, idle sid ti.2) trace →
     buffered sid (run s' trace) = buffered sid s ∧
     callsFor sid (run s' trace) = callsFor sid s ∧
     processingQueue (run s' trace) !! sid = None) ∧
  (∀ now' sid audioData connection buffer,
     WebSocketManager.getConnection sid (wsManager s') = Some connection →
     isPaused connection = false →
     sessionBuffers s' !! sid = Some buffer →
     processingQueue s' !! sid = None →
     let s'' := handleAudioData now' sid audioData s' in
     calls s'' = calls s' ++
       [(nextCall s', {| call_session := sid;
                         call_audio := Buffer_concat (buffer ++ [audioData]);
                         call_metadata := WebSocketManager.metadata connection |})] ∧
     sessionBuffers s'' !! sid = Some [] ∧
     processingQueue s'' !! sid = Some (nextCall s')) ∧
  (∀ now' sid connection buffer,
     WebSocketManager.getConnection sid (wsManager s') = Some connection →
     sessionBuffers s' !! sid = Some buffer → buffer ≠ [] →
     processingQueue s' !! sid = None →
     let s'' := handleControlMessage now' sid "stop-recording" s' in
     calls s'' = calls s' ++
       [(nextCall s',
         {| call_session := sid;
            call_audio := Buffer_concat buffer;
            call_metadata :=
              Some (spread_set (WebSocketManager.metadata connection)
                      "isRecording" (JBool false)) |})] ∧
     sessionBuffers s'' !! sid = Some [] ∧
     processingQueue s'' !! sid = None).
Proof.
  intros Hc Hnd s'.
  assert (Hfirst : calls s' = calls s ∧ outstanding s' = delete call (outstanding s) ∧
                   sessionBuffers s' = sessionBuffers s ∧
                   ∀ sid, (call, KFinally sid) ∈ awaiting s →
                          processingQueue s' !! sid = None).
  { subst s'; unfold settle; rewrite Hc; unfold resolve.
    match goal with |- context [processAudioBuffer_settled ?n ?sd ?o ?x] =>
      destruct (processAudioBuffer_settled_frame n sd o x)
        as (Hq2 & Ha2 & Hb2 & Ho2 & Hc2 & Hn2);
      set (s2 := processAudioBuffer_settled n sd o x) in *
    end.
    match goal with |- context [foldl _ ?x ?l] =>
      destruct (foldl_resume_no_drain now l x) as (Hfc & Hfn & Hfo & Hfb & _ & _ & Hfq);
      [intros sid Hin; apply elem_of_mine in Hin; rewrite Ha2 in Hin;
       by apply (Hnd sid)|]
    end.
    cbn zeta in *. split; [by rewrite Hfc|]. split; [by rewrite Hfo|].
    split; [by rewrite Hfb|].
    intros sid Hin. rewrite Hfq, decide_True; [done|].
    apply elem_of_mine. by rewrite Ha2. }
  destruct Hfirst as (H1 & H2 & H3 & H4).
  split; [done|]. split; [done|]. split; [done|]. split; [done|]. split; [|split].
  - intros o heap sid trace Hr Hq Hall.
    pose proof (reachable_guarded o heap s Hr) as Hg.
    destruct (run_idle sid trace s' (settle_guarded now call outcome s Hg) Hq Hall)
      as (Hb & Hcs & Hq').
    unfold buffered, callsFor in *. rewrite Hb, Hcs, H3, H1. done.
  - intros now' sid audioData connection buffer Hconn Hp Hb Hq.
    destruct (handleAudioData_dispatches now' sid audioData s' connection buffer
                Hconn Hp Hb Hq) as (Hcalls & _ & Hbuf & Hqueue & _).
    cbn zeta in *. rewrite Hcalls, Hbuf, Hqueue, !lookup_insert_eq. done.
  - intros now' sid connection buffer Hconn Hb Hne Hq.
    by apply stop_recording_dispatches.
Qed.

(** C7 (empty-transcript suppression), amended.  When a call returns an
    empty transcript, [processAudioBuffer] changes nothing: no message is
    written to any socket, no event is emitted, the batch processor is not
    called; and the whole step in which the call settles emits no event and
    leaves the batch processor as it was.  When the transcript is not
    empty, a transcription event with the result and the sessionId is
    emitted, the result is handed to the batch processor when there is
    one (whose requests, if it flushes, are emitted after the event), and
    the result is passed to [sendMessage]: it is written to the socket of
    the connection registered under the sessionId when there is one, that
    socket is open and [JSON.stringify] accepts the result; when the
    session is not registered, its socket is not open, or the
    serialisation throws (which [sendMessage] catches), nothing is written
    and the registry is as it was. *)
Theorem empty_transcript_suppression
    (now : Z) (sid : string) (result : TranscriptionResult) (s : t) :
  (transcript result = "" →
     processAudioBuffer_settled now sid (inl result) s = s ∧
     ∀ call c, outstanding s !! call = Some c →
       emitted (settle now call (inl result) s) = emitted s ∧
       llmProcessor (settle now call (inl result) s) = llmProcessor s)
  ∧ (transcript result ≠ "" →
     let s' := processAudioBuffer_settled now sid (inl result) s in
     emitted s' = emitted s ++ [EvTranscription result sid] ++
                    match llmProcessor s with
                    | Some llm =>
                        forwarded llm (LLMProcessor.processTranscription now sid result llm)
                    | None => []
                    end ∧
     llmProcessor s' = LLMProcessor.processTranscription now sid result <$> llmProcessor s ∧
     wsManager s'
       = (WebSocketManager.sendMessage now sid (MsgTranscription result) (wsManager s)).2 ∧
     (∀ connection sock,
        WebSocketManager.getConnection sid (wsManager s) = Some connection →
        WebSocketManager.sockets (wsManager s) !! WebSocketManager.ws connection = Some sock →
        readyState sock = 1 →
        serialisable (MsgTranscription result) = true →
        sentOn (WebSocketManager.ws connection) s' = sent sock ++ [MsgTranscription result]) ∧
     (WebSocketManager.deliverable (wsManager s) sid = false
      ∨ serialisable (MsgTranscription result) = false →
        wsManager s' = wsManager s)).
Proof.
  split.
  - intros Hempty.
    assert (Hsame : ∀ sid', processAudioBuffer_settled now sid' (inl result) s = s).
    { intros sid'. unfold processAudioBuffer_settled. by rewrite Hempty. }
    split; [apply Hsame|].
    intros call c Hc. unfold settle. rewrite Hc.
    assert (Hstay : ∀ x, processAudioBuffer_settled now (call_session c) (inl result) x = x).
    { intros x. unfold processAudioBuffer_settled. by rewrite Hempty. }
    rewrite Hstay.
    destruct (resolve_quiet now call (returned call s)) as [-> ->]. done.
  - intros Hne s'. subst s'. unfold processAudioBuffer_settled.
    assert (Ht : truthy (transcript result) = true).
    { unfold truthy, string_truthy. by destruct (transcript result). }
    rewrite Ht. unfold withLLM. srv_proj.
    destruct (llmProcessor s) as [llm|] eqn:Hllm; srv_proj; rewrite ?Hllm.
    + split; [by rewrite <- app_assoc|]. split; [done|]. split; [done|]. split.
      * intros connection sock Hc Hs Hr Hmsg.
        by rewrite <- (sendMessage_sent now sid (MsgTranscription result) s connection sock).
      * intros Hrefused. by rewrite (sendMessage_refused now sid _ _ Hrefused).
    + split; [by rewrite app_nil_r|]. split; [done|]. split; [done|]. split.
      * intros connection sock Hc Hs Hr Hmsg.
        by rewrite <- (sendMessage_sent now sid (MsgTranscription result) s connection sock).
      * intros Hrefused. by rewrite (sendMessage_refused now sid _ _ Hrefused).
Qed.

Lemma completion_releases_without_redispatch_witness :
  let s := run (new Samples.serverOptions Samples.heap) Samples.three_frames in
  let s' := settle 4 0 (inl (Samples.heard "hello")) s in
  outstanding s !! 0 = Some (Samples.callOf Samples.frame1 None) ∧
  (∀ sid, (0, KDrain sid) ∉ awaiting s) ∧
  calls s' = calls s ∧
  sessionBuffers s' = sessionBuffers s ∧
  reachable Samples.serverOptions Samples.heap s ∧
  Forall (λ ti : Z * Input, idle "s1" ti.2) Samples.other_traffic ∧
  buffered "s1" (run s' Samples.other_traffic) = buffered "s1" s.
Proof.
  intros s s'.
  assert (H0 : outstanding s !! 0 = Some (Samples.callOf Samples.frame1 None))
    by (vm_compute; reflexivity).
  assert (Hnd : ∀ sid, (0, KDrain sid) ∉ awaiting s).
  { intros sid Hin. change (awaiting s) with [(0, KFinally "s1")] in Hin.
    apply list_elem_of_singleton in Hin. discriminate Hin. }
  assert (Hg : reachable Samples.serverOptions Samples.heap s).
  { unfold s, run, Samples.three_frames. cbn [foldl fst snd].
    repeat apply reach_step. apply reach_new. }
  assert (Hall : Forall (λ ti : Z * Input, idle "s1" ti.2) Samples.other_traffic).
  { unfold Samples.other_traffic. repeat constructor; cbn; first [by right | discriminate]. }
  split; [exact H0|]. split; [exact Hnd|].
  destruct (completion_releases_without_redispatch 4 0 (inl (Samples.heard "hello")) s _ H0 Hnd)
    as (Hc & _ & Hb & Hq & Hrun & _).
  split; [exact Hc|]. split; [exact Hb|]. split; [exact Hg|]. split; [exact Hall|].
  apply (Hrun _ _ "s1" Samples.other_traffic Hg); [|exact Hall].
  apply Hq. change (awaiting s) with [(0, KFinally "s1")]. by left.
Defined.

(** C2 as stated fails on its own scenario: three frames arrive while the
    first call is outstanding.  The first call carries frame 1 alone; when
    it completes, frames 2 and 3 are in the buffer, no call is outstanding,
    the queue is free and no second call has been issued. *)
Lemma three_frames_one_call :
  let s := run (new Samples.serverOptions Samples.heap) Samples.three_frames in
  let s' := step 4 s (Settled 0 (inl (Samples.heard "hello"))) in
  calls s = [(0, Samples.callOf Samples.frame1 None)] ∧
  buffered "s1" s = [Samples.frame2; Samples.frame3] ∧
  calls s' = calls s ∧
  outstanding s' = ∅ ∧
  processingQueue s' = ∅ ∧
  buffered "s1" s' = [Samples.frame2; Samples.frame3].
Proof. vm_compute. repeat split; reflexivity. Qed.

Lemma empty_transcript_suppression_witness :
  let s := run (new Samples.serverOptions Samples.heap)
             [(0%Z, Connect Samples.s1_params); (1%Z, Audio "s1" Samples.frame1)] in
  transcript (Samples.heard "hello") ≠ "" ∧
  sentOn 7 (processAudioBuffer_settled 2 "s1" (inl (Samples.heard "hello")) s)
    = [MsgTranscription (Samples.heard "hello")].
Proof.
  intros s.
  assert (Hne : transcript (Samples.heard "hello") ≠ "") by discriminate.
  split; [exact Hne|].
  destruct (proj2 (empty_transcript_suppression 2 "s1" (Samples.heard "hello") s) Hne)
    as (_ & _ & _ & Hsent & _).
  apply (Hsent (WebSocketManager.freshConnection 7 "s1" (Some "u1") 0) Samples.openSocket);
    vm_compute; reflexivity.
Defined.

(** C7 as stated fails when the session's socket closes while its call is
    outstanding: the call returns a non-empty transcript, the transcription
    event is emitted, and nothing is written to the session's socket. *)
Lemma transcription_not_delivered_after_close :
  let s := run (new Samples.serverOptions Samples.heap) Samples.closed_in_flight in
  let s' := step 3 s (Settled 0 (inl (Samples.heard "hello"))) in
  outstanding s !! 0 = Some (Samples.callOf Samples.frame1 None) ∧
  emitted s' = emitted s ++ [EvTranscription (Samples.heard "hello") "s1"] ∧
  sentOn 7 s' = [].
Proof. vm_compute. repeat split; reflexivity. Qed.



(** C1 (single-flight invariant) at the failing input.  Two frames arrive,
    the first call returns, stop-recording drains the second frame with a
    call that is not entered in [processingQueue], and a third frame
    arrives during the drain: two calls of the session are outstanding at
    once, one with frame 2 and one with frame 3. *)
Theorem single_flight_broken_by_drain :
  let s := run (new Samples.serverOptions Samples.heap) Samples.drain_race in
  outstanding s !! 1 = Some (Samples.callOf Samples.frame2 Samples.stopped) ∧
  outstanding s !! 2 = Some (Samples.callOf Samples.frame3 Samples.stopped) ∧
  length (outstandingFor "s1" s) = 2.
Proof. vm_compute. repeat split; reflexivity. Qed.

(** C3 (drain completeness) at the failing input.  After the run of C1 a
    fourth frame arrives, then the drain's call returns.  In that step
    [recording-stopped] is written to the session's socket (nothing had been
    written before), while the buffer holds frame 4 and the call carrying
    frame 3 is still outstanding. *)
Theorem stop_acknowledged_before_drained :
  let before := run (new Samples.serverOptions Samples.heap)
                  (Samples.drain_race ++ [(6%Z, Audio "s1" Samples.frame4)]) in
  let s := step 7 before (Settled 1 (inl (Samples.heard ""))) in
  sentOn 7 before = [] ∧
  sentOn 7 s = [MsgStamped "recording-stopped" 7] ∧
  buffered "s1" s = [Samples.frame4] ∧
  outstanding s !! 2 = Some (Samples.callOf Samples.frame3 Samples.stopped).
Proof. vm_compute. repeat split; reflexivity. Qed.

End AudioStreamServerFacts.

(** ** Further properties of the registry *)

Module WebSocketManagerMore.
Import WebSocketManager.

(** *** sendMessage *)

Lemma sendMessage_cases now sid msg m :
  (deliverable m sid && serialisable msg = false ∧ sendMessage now sid msg m = (false, m)) ∨
  (∃ c sock,
     connections m !! sid = Some c ∧ sockets m !! ws c = Some sock ∧ readyState sock = 1 ∧
     deliverable m sid = true ∧ serialisable msg = true ∧
     sendMessage now sid msg m
     = (true,
        {| options := options m;
           connections := <[sid := touch now c]> (connections m);
           userConnections := userConnections m;
           sockets := <[ws c := ws_send msg sock]> (sockets m);
           emitted := emitted m |})).
Proof.
  unfold sendMessage, deliverable, isOpen.
  destruct (connections m !! sid) as [c|] eqn:Hc; [|by left].
  destruct (sockets m !! ws c) as [sock|] eqn:Hs; [|by left].
  destruct (decide (readyState sock = 1)) as [Hr|Hr].
  - rewrite bool_decide_eq_true_2 by done. destruct (serialisable msg) eqn:Hmsg.
    + right. by exists c, sock.
    + by left.
  - left. by rewrite bool_decide_eq_false_2.
Qed.

Lemma sendMessage_unserialisable now sid msg m :
  serialisable msg = false → sendMessage now sid msg m = (false, m).
Proof.
  intros Hmsg. destruct (sendMessage_cases now sid msg m)
    as [[_ ->]|(c & sock & _ & _ & _ & _ & Hy & _)]; [done|congruence].
Qed.

Lemma isOpen_sendMessage now sid msg m c :
  isOpen (sendMessage now sid msg m).2 c = isOpen m c.
Proof.
  destruct (sendMessage_cases now sid msg m) as [[_ ->]|(c0 & sock & Hc & Hs & Hr & _ & _ & ->)];
    [done|].
  unfold isOpen. cbn [snd sockets].
  destruct (decide (ws c0 = ws c)) as [He|Hne].
  - rewrite He, lookup_insert_eq. rewrite <- He, Hs. cbn [ws_send readyState]. done.
  - by rewrite lookup_insert_ne.
Qed.

Lemma connections_sendMessage_ne now sid msg m sid' :
  sid ≠ sid' → connections (sendMessage now sid msg m).2 !! sid' = connections m !! sid'.
Proof.
  intros Hne.
  destruct (sendMessage_cases now sid msg m) as [[_ ->]|(c0 & sock & Hc & Hs & Hr & _ & _ & ->)];
    [done|].
  cbn [snd connections]. by rewrite lookup_insert_ne.
Qed.

Lemma deliverable_sendMessage_ne now sid msg m sid' :
  sid ≠ sid' → deliverable (sendMessage now sid msg m).2 sid' = deliverable m sid'.
Proof.
  intros Hne. unfold deliverable. rewrite connections_sendMessage_ne by done.
  destruct (connections m !! sid'); [|done]. apply isOpen_sendMessage.
Qed.

Lemma keyed_sendMessage now sid msg m : keyed m → keyed (sendMessage now sid msg m).2.
Proof.
  intros Hk.
  destruct (sendMessage_cases now sid msg m) as [[_ ->]|(c0 & sock & Hc & Hs & Hr & _ & _ & ->)];
    [done|].
  intros sid' c. cbn [snd connections]. destruct (decide (sid = sid')) as [->|Hne].
  - rewrite lookup_insert_eq. intros [= <-]. cbn. by apply Hk.
  - rewrite lookup_insert_ne by done. apply Hk.
Qed.

Lemma indices_sendMessage now sid msg m :
  userConnections (sendMessage now sid msg m).2 = userConnections m ∧
  dom (connections (sendMessage now sid msg m).2) = dom (connections m) ∧
  emitted (sendMessage now sid msg m).2 = emitted m ∧
  options (sendMessage now sid msg m).2 = options m.
Proof.
  destruct (sendMessage_cases now sid msg m) as [[_ ->]|(c0 & sock & Hc & Hs & Hr & _ & _ & ->)];
    [done|].
  cbn [snd connections userConnections emitted options]. repeat split.
  rewrite dom_insert_L. apply elem_of_dom_2 in Hc. set_solver.
Qed.

(** X1 — sendMessage.  A message for a session that is not registered, or
    whose socket is not open, or a message that [JSON.stringify] rejects,
    is refused: the answer is false and the registry is unchanged (nothing
    is written, [lastActivity] stays).  Otherwise the answer is true, the
    message is the last one written to the session's socket, the
    connection's [lastActivity] is the current time and nothing else about
    it changes.  In every case the userId index, the set of registered
    sessions and the other connections are untouched. *)
Theorem sendMessage_delivery (now : Z) (sid : string) (msg : Message) (m : t) :
  (deliverable m sid = false ∨ serialisable msg = false →
     sendMessage now sid msg m = (false, m)) ∧
  (deliverable m sid = true → serialisable msg = true →
     ∃ c sock,
       getConnection sid m = Some c ∧ sockets m !! ws c = Some sock ∧
       (sendMessage now sid msg m).1 = true ∧
       sockets (sendMessage now sid msg m).2 !! ws c = Some (ws_send msg sock) ∧
       getConnection sid (sendMessage now sid msg m).2 = Some (touch now c)) ∧
  userConnections (sendMessage now sid msg m).2 = userConnections m ∧
  dom (connections (sendMessage now sid msg m).2) = dom (connections m) ∧
  (∀ sid', sid ≠ sid' →
     getConnection sid' (sendMessage now sid msg m).2 = getConnection sid' m).
Proof.
  destruct (indices_sendMessage now sid msg m) as (Hu & Hd & _).
  split; [|split; [|split; [done|split; [done|]]]].
  - intros Hn. destruct (sendMessage_cases now sid msg m)
      as [[_ ->]|(c & sock & _ & _ & _ & Hy & Hmsg & _)]; [done|].
    destruct Hn; congruence.
  - intros Hy Hmsg. destruct (sendMessage_cases now sid msg m)
      as [[Hf _]|(c & sock & Hc & Hs & Hr & _ & _ & ->)].
    { rewrite Hy, Hmsg in Hf. discriminate Hf. }
    exists c, sock. unfold getConnection. cbn [fst snd sockets connections].
    by rewrite !lookup_insert_eq.
  - intros sid' Hne. by apply connections_sendMessage_ne.
Qed.

Lemma sendMessage_delivery_witness :
  deliverable Samples.registry "s1" = true ∧
  serialisable MsgPong = true ∧
  serialisable Samples.counter = false ∧
  sendMessage 1 "s1" Samples.counter Samples.registry
    = (false, Samples.registry) ∧
  ∃ c sock,
    getConnection "s1" Samples.registry = Some c ∧
    sockets Samples.registry !! ws c = Some sock ∧
    (sendMessage 1 "s1" MsgPong Samples.registry).1 = true ∧
    sockets (sendMessage 1 "s1" MsgPong Samples.registry).2 !! ws c
      = Some (ws_send MsgPong sock) ∧
    getConnection "s1" (sendMessage 1 "s1" MsgPong Samples.registry).2
      = Some (touch 1 c).
Proof.
  assert (H : deliverable Samples.registry "s1" = true) by (vm_compute; reflexivity).
  assert (Hy : serialisable MsgPong = true) by reflexivity.
  assert (Hn : serialisable Samples.counter = false)
    by (vm_compute; reflexivity).
  split; [exact H|]. split; [exact Hy|]. split; [exact Hn|]. split.
  - exact (proj1 (sendMessage_delivery 1 "s1" Samples.counter Samples.registry)
             (or_intror Hn)).
  - exact (proj1 (proj2 (sendMessage_delivery 1 "s1" MsgPong Samples.registry)) H Hy).
Defined.

(** *** broadcast *)

Lemma filter_agree {A} (P Q : A → Prop) `{∀ x, Decision (P x)} `{∀ x, Decision (Q x)}
    (l : list A) :
  (∀ x, x ∈ l → P x ↔ Q x) → filter P l = filter Q l.
Proof.
  induction l as [|x l IH]; intros Hl; [done|].
  assert (IH' := IH (λ y Hy, Hl y (list_elem_of_further _ _ _ Hy))).
  assert (Hx : P x ↔ Q x) by (apply Hl; by left).
  destruct (decide (P x)) as [Hp|Hp].
  - rewrite (filter_cons_True P) by done.
    rewrite (filter_cons_True Q) by (by apply Hx). by rewrite IH'.
  - rewrite (filter_cons_False P) by done.
    rewrite (filter_cons_False Q) by (by rewrite <- Hx). by rewrite IH'.
Qed.

Lemma sendTo_count now msg n m sid :
  (sendTo now msg (n, m) sid).1
  = n + (if deliverable m sid && serialisable msg then 1 else 0).
Proof.
  unfold sendTo. cbn [fst snd].
  destruct (sendMessage_cases now sid msg m)
    as [[-> ->]|(c & sock & _ & _ & _ & -> & -> & ->)]; cbn [fst andb]; lia.
Qed.

Lemma sendTo_unserialisable now msg ks : ∀ n m,
  serialisable msg = false → foldl (sendTo now msg) (n, m) ks = (n, m).
Proof.
  induction ks as [|k ks IH]; intros n m Hmsg; [done|]. cbn [foldl].
  unfold sendTo at 2. cbn [fst snd].
  rewrite (sendMessage_unserialisable now k msg m Hmsg). cbn [fst snd]. by apply IH.
Qed.

Lemma broadcastOne_spec now msg pick n m k :
  keyed m →
  (broadcastOne now msg pick (n, m) k).1
    = n + (if selected pick m k && serialisable msg then 1 else 0) ∧
  keyed (broadcastOne now msg pick (n, m) k).2 ∧
  userConnections (broadcastOne now msg pick (n, m) k).2 = userConnections m ∧
  dom (connections (broadcastOne now msg pick (n, m) k).2) = dom (connections m) ∧
  ∀ k', k ≠ k' →
    selected pick (broadcastOne now msg pick (n, m) k).2 k' = selected pick m k'.
Proof.
  intros Hk. unfold broadcastOne, selected. cbn [fst snd].
  destruct (connections m !! k) as [c|] eqn:Hc.
  2:{ cbn [fst snd]. repeat split; try done; lia. }
  rewrite (Hk _ _ Hc).
  destruct (passes pick c) eqn:Hp; cbn [andb].
  2:{ cbn [fst snd]. repeat split; try done; lia. }
  rewrite sendTo_count. unfold deliverable. rewrite Hc.
  unfold sendTo. cbn [fst snd].
  destruct (indices_sendMessage now k msg m) as (Hu & Hd & _).
  repeat split; try done.
  - by apply keyed_sendMessage.
  - intros k' Hne. rewrite connections_sendMessage_ne by done.
    destruct (connections m !! k'); [|done]. by rewrite isOpen_sendMessage.
Qed.

Lemma broadcast_fold now msg pick ks : ∀ n m,
  NoDup ks → keyed m →
  let r := foldl (broadcastOne now msg pick) (n, m) ks in
  r.1 = n + length (filter (λ k, selected pick m k && serialisable msg = true) ks) ∧
  keyed r.2 ∧ userConnections r.2 = userConnections m ∧
  dom (connections r.2) = dom (connections m).
Proof.
  induction ks as [|k ks IH]; intros n m Hnd Hk; cbn [foldl].
  - cbn. repeat split; try done; lia.
  - apply NoDup_cons in Hnd as [Hnotin Hnd].
    destruct (broadcastOne_spec now msg pick n m k Hk) as (Hn & Hk' & Hu & Hd & Hsel).
    destruct (broadcastOne now msg pick (n, m) k) as [n1 m1] eqn:E. cbn [fst snd] in *.
    destruct (IH n1 m1 Hnd Hk') as (Hn2 & Hk2 & Hu2 & Hd2). cbn zeta in *.
    split; [|split; [done|split; [congruence|congruence]]].
    rewrite Hn2, Hn.
    assert (Hrest : filter (λ k0, selected pick m1 k0 && serialisable msg = true) ks
                    = filter (λ k0, selected pick m k0 && serialisable msg = true) ks).
    { apply filter_agree. intros k' Hin.
      rewrite Hsel; [done|]. intros ->. done. }
    rewrite Hrest. destruct (selected pick m k && serialisable msg) eqn:Hs.
    + rewrite filter_cons_True by done. cbn [length]. lia.
    + rewrite filter_cons_False by (rewrite Hs; done). lia.
Qed.

Lemma selected_keys pick msg m (l : list (string * WebSocketConnection)) :
  (∀ k c, (k, c) ∈ l → connections m !! k = Some c) →
  length (filter (λ k, selected pick m k && serialisable msg = true) l.*1)
  = length (filter (λ kc, passes pick kc.2 && isOpen m kc.2 && serialisable msg = true) l).
Proof.
  induction l as [|[k c] l IH]; intros Hl; [done|]. cbn [fmap list_fmap fst].
  assert (Hsel : selected pick m k = passes pick c && isOpen m c).
  { unfold selected. rewrite (Hl k c); [done|by left]. }
  assert (IH' := IH (λ k' c' Hin, Hl k' c' (list_elem_of_further _ _ _ Hin))).
  destruct (passes pick c && isOpen m c && serialisable msg) eqn:E.
  - rewrite !filter_cons_True by (cbn; rewrite ?Hsel; congruence). cbn [length].
    by rewrite IH'.
  - rewrite !filter_cons_False by (cbn; rewrite ?Hsel; congruence). done.
Qed.

Lemma broadcast_unserialisable now msg pick ks : ∀ n m,
  serialisable msg = false → foldl (broadcastOne now msg pick) (n, m) ks = (n, m).
Proof.
  induction ks as [|k ks IH]; intros n m Hmsg; [done|]. cbn [foldl].
  assert (Hone : broadcastOne now msg pick (n, m) k = (n, m)).
  { unfold broadcastOne. cbn [fst snd]. destruct (connections m !! k) as [c|]; [|done].
    destruct (passes pick c); [|done]. unfold sendTo. cbn [fst snd].
    by rewrite (sendMessage_unserialisable now _ msg m Hmsg). }
  rewrite Hone. by apply IH.
Qed.

(** X2 — broadcast.  In a registry whose connections are filed under their
    own session ids, [broadcast] answers the number of sends that
    succeeded: the number of registered connections that pass the filter
    (all of them when there is none) and whose socket is open when
    [JSON.stringify] accepts the message, and 0, with the registry left as
    it was, when it rejects it.  The userId index and the set of registered
    sessions are left as they are. *)
Theorem broadcast_count
    (now : Z) (msg : Message) (pick : option (WebSocketConnection → bool)) (m : t) :
  keyed m →
  (broadcast now msg pick m).1
    = length (filter (λ kc, passes pick kc.2 && isOpen m kc.2 && serialisable msg = true)
                     (map_to_list (connections m))) ∧
  (serialisable msg = false → broadcast now msg pick m = (0, m)) ∧
  userConnections (broadcast now msg pick m).2 = userConnections m ∧
  dom (connections (broadcast now msg pick m).2) = dom (connections m).
Proof.
  intros Hk. unfold broadcast.
  destruct (broadcast_fold now msg pick (map_to_list (connections m)).*1 0 m)
    as (Hn & _ & Hu & Hd); [apply NoDup_fst_map_to_list | done |].
  cbn zeta in *. split; [|split; [|done]].
  - rewrite Hn. cbn [Nat.add].
    apply selected_keys. intros k c Hin. by apply elem_of_map_to_list.
  - intros Hmsg. by apply broadcast_unserialisable.
Qed.

Lemma broadcast_count_witness :
  keyed Samples.registry ∧
  (broadcast 1 MsgPong None Samples.registry).1 = 1 ∧
  (broadcast 1 Samples.counter None Samples.registry).1 = 0.
Proof.
  assert (H : keyed Samples.registry).
  { intros sid c Hc.
    change (connections Samples.registry)
      with (<["s1" := Samples.s1_connection]> (∅ : gmap string WebSocketConnection)) in Hc.
    apply lookup_insert_Some in Hc as [[<- <-]|[_ Hc]]; [reflexivity|].
    rewrite lookup_empty in Hc. discriminate Hc. }
  split; [exact H|]. split.
  - rewrite (proj1 (broadcast_count 1 MsgPong None Samples.registry H)).
    vm_compute. reflexivity.
  - rewrite (proj1 (broadcast_count 1 Samples.counter None
                      Samples.registry H)).
    vm_compute. reflexivity.
Defined.

(** A loop of [sendMessage] over distinct session ids. *)
Lemma sendTo_fold now msg ks : ∀ n m,
  NoDup ks →
  (foldl (sendTo now msg) (n, m) ks).1
    = n + length (filter (λ k, deliverable m k && serialisable msg = true) ks) ∧
  ∀ k, k ∉ ks →
    connections (foldl (sendTo now msg) (n, m) ks).2 !! k = connections m !! k.
Proof.
  induction ks as [|k ks IH]; intros n m Hnd; cbn [foldl].
  - cbn. split; [lia|done].
  - apply NoDup_cons in Hnd as [Hnotin Hnd].
    pose proof (sendTo_count now msg n m k) as Hn.
    assert (Hm : (sendTo now msg (n, m) k).2 = (sendMessage now k msg m).2) by done.
    destruct (sendTo now msg (n, m) k) as [n1 m1] eqn:E. cbn [fst snd] in *.
    destruct (IH n1 m1 Hnd) as (Hn2 & Hc2). split.
    + rewrite Hn2, Hn.
      assert (Hrest : filter (λ k0, deliverable m1 k0 && serialisable msg = true) ks
                      = filter (λ k0, deliverable m k0 && serialisable msg = true) ks).
      { apply filter_agree. intros k' Hin. rewrite Hm.
        rewrite deliverable_sendMessage_ne; [done|]. intros ->. done. }
      rewrite Hrest. destruct (deliverable m k && serialisable msg) eqn:Hs.
      * rewrite filter_cons_True by done. cbn [length]. lia.
      * rewrite filter_cons_False by (rewrite Hs; done). lia.
    + intros k' Hk'. rewrite Hc2 by (intros ?; apply Hk'; by right).
      rewrite Hm. apply connections_sendMessage_ne. intros ->. apply Hk'. by left.
Qed.

(** The session ids of the connections [getConnectionsByUser] returns. *)
Lemma sessions_of_connections m (b : bool) (l : list string) :
  keyed m → NoDup l →
  NoDup (sessionId <$> omap (λ sid, connections m !! sid) l) ∧
  (∀ k, k ∈ sessionId <$> omap (λ sid, connections m !! sid) l → k ∈ l) ∧
  length (filter (λ k, deliverable m k && b = true)
                 (sessionId <$> omap (λ sid, connections m !! sid) l))
  = length (filter (λ k, deliverable m k && b = true) l).
Proof.
  intros Hk. induction l as [|k l IH]; intros Hnd.
  - cbn. split; [constructor|]. split; [done|done].
  - apply NoDup_cons in Hnd as [Hnotin Hnd]. destruct (IH Hnd) as (IHnd & IHin & IHlen).
    cbn [omap list_omap]. destruct (connections m !! k) as [c|] eqn:Hc.
    + cbn [fmap list_fmap]. rewrite (Hk _ _ Hc). split; [|split].
      * apply NoDup_cons. split; [|done]. intros Hin. by apply Hnotin, IHin.
      * intros k' Hin. apply elem_of_cons in Hin as [->|Hin]; [by left|].
        right. by apply IHin.
      * destruct (deliverable m k && b) eqn:Hd.
        -- rewrite !filter_cons_True by done. cbn [length]. by rewrite IHlen.
        -- rewrite !filter_cons_False by (rewrite Hd; done). done.
    + split; [done|]. split.
      * intros k' Hin. right. by apply IHin.
      * rewrite filter_cons_False; [done|]. unfold deliverable. by rewrite Hc.
Qed.

(** The registries that [addConnection] builds file every connection
    under its own session id. *)
Lemma keyed_new opts heap : keyed (new opts heap).
Proof. intros sid c. cbn [new connections]. by rewrite lookup_empty. Qed.

(** *** The heartbeat *)

Ltac hb_proj :=
  cbn [registry pongTimers nextPongTimer effects with_registry with_pongTimers
       hb_terminate terminateSocket connections options] in *.

Lemma removeConnection_lookup sid k m :
  connections (removeConnection sid m) !! k
  = if decide (k = sid) then None else connections m !! k.
Proof.
  unfold removeConnection. destruct (connections m !! sid) as [c|] eqn:Hc.
  - cbn [connections]. destruct (decide (k = sid)) as [->|Hne].
    + apply lookup_delete_eq.
    + by rewrite lookup_delete_ne.
  - destruct (decide (k = sid)) as [->|Hne]; done.
Qed.

Lemma removeConnection_same_options sid m : options (removeConnection sid m) = options m.
Proof. unfold removeConnection. by destruct (connections m !! sid). Qed.

Lemma addConnection_cases now p m :
  addConnection now p m = (false, m) ∨
  ((addConnection now p m).1 = true ∧
   options (addConnection now p m).2 = options m ∧
   connections (addConnection now p m).2
   = <[p_sessionId p :=
         {| ws := p_ws p; sessionId := p_sessionId p; userId := p_userId p;
            metadata := p_metadata p; isAlive := true; lastActivity := now |}]>
       (connections m)).
Proof. unfold addConnection. destruct (overCap m (p_userId p)); [by left|by right]. Qed.

Lemma detach_frame sid hb :
  registry (detach sid hb) = registry hb ∧
  nextPongTimer (detach sid hb) = nextPongTimer hb ∧
  effects (detach sid hb) = effects hb.
Proof. unfold detach. by destruct (connections (registry hb) !! sid). Qed.

(** A timer after [detach]: the same timer, detached if it was the
    session's. *)
Lemma detach_timer sid hb timer p' :
  pongTimers (detach sid hb) !! timer = Some p' →
  ∃ p, pongTimers hb !! timer = Some p ∧
       pt_session p' = pt_session p ∧ pt_socket p' = pt_socket p ∧
       (pt_detached p' = None →
        pt_detached p = None ∧
        (is_Some (connections (registry hb) !! sid) → pt_session p ≠ sid)).
Proof.
  unfold detach. destruct (connections (registry hb) !! sid) as [c|] eqn:Hc.
  - hb_proj. rewrite lookup_fmap.
    destruct (pongTimers hb !! timer) as [p|]; [|done]. cbn. intros [= <-].
    exists p. split; [done|]. destruct (decide (pt_session p = sid ∧ pt_detached p = None))
      as [[Hs Hd]|Hn]; cbn; [done|].
    split; [done|]. split; [done|]. intros Hd. split; [done|]. intros _ Hs. by apply Hn.
  - intros Hp. exists p'. split; [done|]. split; [done|]. split; [done|].
    intros Hd. split; [done|]. by intros [? ?].
Qed.

Lemma detach_keeps sid hb timer p :
  pongTimers hb !! timer = Some p → pt_session p ≠ sid →
  pongTimers (detach sid hb) !! timer = Some p.
Proof.
  intros Hp Hne. unfold detach. destruct (connections (registry hb) !! sid) as [c|]; [|done].
  hb_proj. rewrite lookup_fmap, Hp. cbn. rewrite decide_False; [done|]. by intros [? _].
Qed.

Lemma detach_none sid hb timer :
  pongTimers hb !! timer = None → pongTimers (detach sid hb) !! timer = None.
Proof.
  intros Hp. unfold detach. destruct (connections (registry hb) !! sid) as [c|]; [|done].
  hb_proj. by rewrite lookup_fmap, Hp.
Qed.

(** *** The invariant of the armed timers *)

Lemma anchored_start opts heap : anchored (startPingInterval opts heap).
Proof. intros timer p. cbn [startPingInterval pongTimers]. by rewrite lookup_empty. Qed.

Lemma anchored_remove sid hb : anchored hb → anchored (hb_removeConnection sid hb).
Proof.
  intros Ha timer p' Hp'. unfold hb_removeConnection in *. hb_proj.
  destruct (detach_frame sid hb) as (Hr & Hn & _). rewrite Hn.
  destruct (detach_timer sid hb timer p' Hp') as (p & Hp & Hs & Hk & Hd).
  destruct (Ha timer p Hp) as [Hlt Hreg]. split; [done|].
  intros Hnone. destruct (Hd Hnone) as [Hpn Hne]. destruct (Hreg Hpn) as (c & Hc & Hws).
  exists c. rewrite removeConnection_lookup, Hs, Hk. split; [|done].
  rewrite decide_False; [done|]. intros He. apply Hne; [|done]. rewrite <- He. by eexists.
Qed.

Lemma anchored_terminate h hb : anchored hb → anchored (hb_terminate h hb).
Proof. intros Ha timer p Hp. apply (Ha timer p Hp). Qed.

Lemma anchored_add now p hb : anchored hb → anchored (hb_addConnection now p hb).2.
Proof.
  intros Ha. unfold hb_addConnection. cbn [snd].
  destruct (addConnection_cases now p (registry hb)) as [->|(-> & _ & Hconn)]; [done|].
  intros timer q' Hq'. hb_proj.
  destruct (detach_frame (p_sessionId p) hb) as (_ & Hn & _). rewrite Hn.
  destruct (detach_timer _ hb timer q' Hq') as (q & Hq & Hs & Hk & Hd).
  destruct (Ha timer q Hq) as [Hlt Hreg]. split; [done|].
  intros Hnone. destruct (Hd Hnone) as [Hqn Hne]. destruct (Hreg Hqn) as (c & Hc & Hws).
  exists c. rewrite Hconn, Hs, Hk. split; [|done].
  rewrite lookup_insert_ne; [done|]. intros He. apply Hne; [|done]. rewrite He. by eexists.
Qed.

Lemma anchored_send now sid msg hb : anchored hb → anchored (hb_sendMessage now sid msg hb).2.
Proof.
  intros Ha. unfold hb_sendMessage. cbn [snd].
  destruct (sendMessage_cases now sid msg (registry hb))
    as [[_ ->]|(c0 & sock & Hc0 & _ & _ & _ & _ & ->)]; [by destruct hb|].
  intros timer p Hp. hb_proj. cbn [snd connections].
  destruct (Ha timer p Hp) as [Hlt Hreg]. split; [done|].
  intros Hnone. destruct (Hreg Hnone) as (c & Hc & Hws).
  destruct (decide (sid = pt_session p)) as [He|Hne].
  - exists (touch now c0). rewrite He, lookup_insert_eq. split; [done|].
    rewrite He, Hc in Hc0. injection Hc0 as <-. done.
  - exists c. by rewrite lookup_insert_ne.
Qed.

Lemma pong_lookup now h m k :
  connections (pong now h m) !! k
  = (λ c, if decide (ws c = h) then touch now (setAlive true c) else c) <$> connections m !! k.
Proof. cbn [pong connections]. by rewrite lookup_fmap. Qed.

Lemma anchored_pong now h hb : anchored hb → anchored (hb_pong now h hb).
Proof.
  intros Ha timer p' Hp'. cbn [hb_pong registry pongTimers nextPongTimer] in *.
  rewrite lookup_fmap in Hp'.
  destruct (pongTimers hb !! timer) as [p|] eqn:Hp; [|done]. cbn in Hp'.
  destruct (Ha timer p Hp) as [Hlt Hreg]. split; [done|].
  destruct (pt_detached p) eqn:Hd.
  - injection Hp' as <-. destruct (decide (pt_socket p = h)); cbn; [done|].
    by rewrite Hd.
  - injection Hp' as <-. intros _. destruct (Hreg eq_refl) as (c & Hc & Hws).
    rewrite pong_lookup, Hc. cbn. eexists. split; [done|]. by case_decide.
Qed.

(** *** One turn of the tick *)

Lemma tickOne_at now hb k :
  connections (registry (tickOne now hb k)) !! k
  = match connections (registry hb) !! k with
    | Some c => if isAlive c then Some (setAlive false c) else None
    | None => None
    end.
Proof.
  unfold tickOne. destruct (connections (registry hb) !! k) as [c|] eqn:Hc; [|done].
  destruct (isAlive c); cbn [negb].
  - cbn [registry markAlive connections]. by rewrite lookup_alter_eq, Hc.
  - unfold hb_removeConnection. hb_proj. rewrite removeConnection_lookup.
    by rewrite decide_True.
Qed.

Lemma tickOne_ne now hb k k' :
  k ≠ k' → connections (registry (tickOne now hb k)) !! k' = connections (registry hb) !! k'.
Proof.
  intros Hne. unfold tickOne. destruct (connections (registry hb) !! k) as [c|] eqn:Hc; [|done].
  destruct (isAlive c); cbn [negb].
  - cbn [registry markAlive connections]. by rewrite lookup_alter_ne.
  - unfold hb_removeConnection. hb_proj. rewrite removeConnection_lookup.
    by rewrite decide_False by done.
Qed.

Lemma tickOne_frame now hb k :
  options (registry (tickOne now hb k)) = options (registry hb) ∧
  nextPongTimer hb ≤ nextPongTimer (tickOne now hb k).
Proof.
  unfold tickOne. destruct (connections (registry hb) !! k) as [c|] eqn:Hc; [|done].
  destruct (isAlive c); cbn [negb].
  - cbn [registry markAlive options nextPongTimer]. split; [done|lia].
  - unfold hb_removeConnection. hb_proj. rewrite removeConnection_same_options.
    destruct (detach_frame k (hb_terminate (ws c) hb)) as (_ & -> & _). done.
Qed.

Lemma anchored_tickOne now hb k : anchored hb → anchored (tickOne now hb k).
Proof.
  intros Ha. unfold tickOne. destruct (connections (registry hb) !! k) as [c|] eqn:Hc; [|done].
  destruct (isAlive c); cbn [negb].
  - intros timer p. cbn [registry pongTimers nextPongTimer markAlive connections].
    destruct (decide (timer = nextPongTimer hb)) as [->|Hne].
    + rewrite lookup_insert_eq. intros [= <-]. split; [lia|]. intros _.
      cbn [pt_session pt_socket]. exists (setAlive false c).
      by rewrite lookup_alter_eq, Hc.
    + rewrite lookup_insert_ne by done. intros Hp.
      destruct (Ha timer p Hp) as [Hlt Hreg]. split; [lia|].
      intros Hnone. destruct (Hreg Hnone) as (c' & Hc' & Hws).
      destruct (decide (k = pt_session p)) as [He|Hn].
      * exists (setAlive false c'). rewrite <- He, lookup_alter_eq.
        rewrite <- He in Hc'. by rewrite Hc'.
      * exists c'. by rewrite lookup_alter_ne.
  - by apply anchored_remove, anchored_terminate.
Qed.

Lemma tickOne_keeps now hb k timer p :
  anchored hb → pongTimers hb !! timer = Some p → pt_session p ≠ k →
  pongTimers (tickOne now hb k) !! timer = Some p.
Proof.
  intros Ha Hp Hne. unfold tickOne.
  destruct (connections (registry hb) !! k) as [c|] eqn:Hc; [|done].
  destruct (isAlive c); cbn [negb].
  - cbn [pongTimers]. rewrite lookup_insert_ne; [done|].
    destruct (Ha timer p Hp) as [Hlt _]. lia.
  - unfold hb_removeConnection. hb_proj. by apply detach_keeps.
Qed.

Lemma tickOne_arms now hb k c :
  connections (registry hb) !! k = Some c → isAlive c = true →
  pongTimers (tickOne now hb k) !! nextPongTimer hb
  = Some {| pt_session := k; pt_socket := ws c;
            pt_due := (now + Z.of_nat (pongTimeoutOf (registry hb)))%Z;
            pt_detached := None |}.
Proof.
  intros Hc Halive. unfold tickOne. rewrite Hc, Halive. cbn [negb pongTimers].
  apply lookup_insert_eq.
Qed.

(** *** A tick *)

Lemma tick_fold_registry now ks : ∀ hb,
  NoDup ks →
  ∀ k, connections (registry (foldl (tickOne now) hb ks)) !! k
       = if decide (k ∈ ks) then
           match connections (registry hb) !! k with
           | Some c => if isAlive c then Some (setAlive false c) else None
           | None => None
           end
         else connections (registry hb) !! k.
Proof.
  induction ks as [|k0 ks IH]; intros hb Hnd k; cbn [foldl].
  - rewrite decide_False; [done|]. apply not_elem_of_nil.
  - apply NoDup_cons in Hnd as [Hnotin Hnd]. rewrite (IH _ Hnd).
    destruct (decide (k = k0)) as [->|Hne].
    + rewrite decide_False by done. rewrite tickOne_at.
      rewrite decide_True; [done|]. apply elem_of_cons. by left.
    + rewrite tickOne_ne by done. destruct (decide (k ∈ ks)) as [Hin|Hin].
      * rewrite decide_True; [done|]. apply elem_of_cons. by right.
      * rewrite decide_False; [done|]. rewrite elem_of_cons. intros [?|?]; done.
Qed.

Lemma tick_fold now ks : ∀ hb,
  NoDup ks → anchored hb →
  anchored (foldl (tickOne now) hb ks) ∧
  options (registry (foldl (tickOne now) hb ks)) = options (registry hb) ∧
  nextPongTimer hb ≤ nextPongTimer (foldl (tickOne now) hb ks) ∧
  (∀ timer p, pongTimers hb !! timer = Some p → pt_session p ∉ ks →
     pongTimers (foldl (tickOne now) hb ks) !! timer = Some p) ∧
  (∀ k c, k ∈ ks → connections (registry hb) !! k = Some c → isAlive c = true →
     ∃ timer, nextPongTimer hb ≤ timer ∧
       pongTimers (foldl (tickOne now) hb ks) !! timer
       = Some {| pt_session := k; pt_socket := ws c;
                 pt_due := (now + Z.of_nat (pongTimeoutOf (registry hb)))%Z;
                 pt_detached := None |}).
Proof.
  induction ks as [|k0 ks IH]; intros hb Hnd Ha; cbn [foldl].
  - split; [done|]. split; [done|]. split; [done|]. split; [done|].
    intros k c Hin. by apply not_elem_of_nil in Hin.
  - apply NoDup_cons in Hnd as [Hnotin Hnd].
    pose proof (anchored_tickOne now hb k0 Ha) as Ha1.
    destruct (tickOne_frame now hb k0) as [Ho1 Hn1].
    destruct (IH (tickOne now hb k0) Hnd Ha1) as (Ha2 & Ho2 & Hn2 & Hkeep & Harm).
    split; [done|]. split; [congruence|]. split; [lia|]. split.
    + intros timer p Hp Hs. apply Hkeep.
      * apply tickOne_keeps; [done|done|]. intros He. apply Hs. rewrite He. by left.
      * intros Hin. apply Hs. by right.
    + intros k c Hin Hc Halive. apply elem_of_cons in Hin as [->|Hin].
      * exists (nextPongTimer hb). split; [done|]. apply Hkeep; [|done].
        by apply tickOne_arms.
      * assert (Hne : k0 ≠ k) by (intros ->; done).
        destruct (Harm k c Hin) as (timer & Hle & Ht); [by rewrite tickOne_ne|done|].
        exists timer. split; [lia|]. rewrite Ht. unfold pongTimeoutOf. by rewrite Ho1.
Qed.

Lemma anchored_tick now hb : anchored hb → anchored (tick now hb).
Proof.
  intros Ha. unfold tick.
  by destruct (tick_fold now (map_to_list (connections (registry hb))).*1 hb
                 (NoDup_fst_map_to_list _) Ha) as (? & _).
Qed.

Lemma tick_registry now hb k :
  connections (registry (tick now hb)) !! k
  = match connections (registry hb) !! k with
    | Some c => if isAlive c then Some (setAlive false c) else None
    | None => None
    end.
Proof.
  unfold tick. rewrite tick_fold_registry by apply NoDup_fst_map_to_list.
  case_decide as Hin; [done|].
  destruct (connections (registry hb) !! k) as [c|] eqn:Hc; [|done].
  exfalso. apply Hin. apply list_elem_of_fmap. exists (k, c).
  split; [done|]. by apply elem_of_map_to_list.
Qed.

Lemma anchored_timeout timer hb : anchored hb → anchored (pongTimeoutFired timer hb).
Proof.
  intros Ha. unfold pongTimeoutFired. destruct (pongTimers hb !! timer) as [p|]; [|done].
  assert (Ha1 : anchored (with_pongTimers (delete timer (pongTimers hb)) hb)).
  { intros t q. hb_proj. rewrite lookup_delete_Some. intros [_ Hq]. by apply Ha. }
  cbn zeta. destruct (capturedAlive p _); [done|].
  by apply anchored_remove, anchored_terminate.
Qed.

Lemma beating_anchored opts heap hb : beating opts heap hb → anchored hb.
Proof.
  induction 1 as [|hb b _ IH]; [apply anchored_start|].
  destruct b; cbn [beat].
  - by apply anchored_add.
  - by apply anchored_remove.
  - by apply anchored_send.
  - by apply anchored_pong.
  - by apply anchored_tick.
  - by apply anchored_timeout.
Qed.

(** X3 — Liveness reaping by the heartbeat.  In every state of a registry
    with its heartbeat, a pong timer that is not detached belongs to a
    connection registered under its session id.  A tick removes from the
    sessionId index exactly the connections that were not alive and leaves
    each of the others registered with [isAlive] cleared; for each of the
    latter it arms a pong timeout, due [pongTimeout] (5000 by default)
    later.  When that timeout fires with no pong in between, the
    connection is removed and its socket terminated.  When the socket's
    pong is handled before the timeout fires, the timeout changes nothing
    in the registry: the connection is alive again, with [lastActivity]
    the time of the pong, and it is still registered after the next
    tick. *)
Theorem pong_timeout_reaping
    (opts : Options) (heap : gmap nat WebSocket) (hb : Heartbeat) (now : Z) :
  beating opts heap hb →
  anchored hb ∧
  (∀ sid, getConnection sid (registry (tick now hb))
          = match getConnection sid (registry hb) with
            | Some c => if isAlive c then Some (setAlive false c) else None
            | None => None
            end) ∧
  ∀ sid c,
    getConnection sid (registry hb) = Some c → isAlive c = true →
    ∃ timer,
      pongTimers hb !! timer = None ∧
      pongTimers (tick now hb) !! timer
      = Some {| pt_session := sid; pt_socket := ws c;
                pt_due := (now + Z.of_nat (pongTimeoutOf (registry hb)))%Z;
                pt_detached := None |} ∧
      (getConnection sid (registry (pongTimeoutFired timer (tick now hb))) = None ∧
       effects (pongTimeoutFired timer (tick now hb))
       = effects (tick now hb) ++ [Terminated (ws c)]) ∧
      ∀ now',
        let hb' := pongTimeoutFired timer (hb_pong now' (ws c) (tick now hb)) in
        getConnection sid (registry hb') = Some (touch now' (setAlive true c)) ∧
        registry hb' = registry (hb_pong now' (ws c) (tick now hb)) ∧
        effects hb' = effects (tick now hb) ∧
        ∀ now'', is_Some (getConnection sid (registry (tick now'' hb'))).
Proof.
  intros Hb. pose proof (beating_anchored opts heap hb Hb) as Ha.
  split; [done|]. split; [intros sid; apply tick_registry|].
  intros sid c Hc Halive. unfold getConnection in *.
  destruct (tick_fold now (map_to_list (connections (registry hb))).*1 hb
              (NoDup_fst_map_to_list _) Ha) as (_ & _ & _ & _ & Harm).
  destruct (Harm sid c) as (timer & Hle & Ht); [|done|done|].
  { apply list_elem_of_fmap. exists (sid, c). split; [done|]. by apply elem_of_map_to_list. }
  fold (tick now hb) in Ht. exists timer.
  assert (Hnew : pongTimers hb !! timer = None).
  { destruct (pongTimers hb !! timer) as [p|] eqn:Hp; [|done].
    destruct (Ha timer p Hp) as [Hlt _]. lia. }
  assert (Hreg : connections (registry (tick now hb)) !! sid = Some (setAlive false c)).
  { by rewrite tick_registry, Hc, Halive. }
  split; [done|]. split; [done|]. split.
  - unfold pongTimeoutFired. rewrite Ht. cbn zeta.
    unfold capturedAlive. cbn [pt_detached pt_session]. hb_proj. rewrite Hreg.
    cbn [fmap option_fmap option_map default setAlive isAlive pt_socket]. unfold id.
    unfold hb_removeConnection. hb_proj.
    destruct (detach_frame sid (hb_terminate (ws c)
                (with_pongTimers (delete timer (pongTimers (tick now hb))) (tick now hb))))
      as (_ & _ & He).
    rewrite He. hb_proj. split; [|done].
    rewrite removeConnection_lookup. by rewrite decide_True.
  - intros now'.
    set (hb' := pongTimeoutFired timer (hb_pong now' (ws c) (tick now hb))).
    assert (Hreg2 : connections (registry (hb_pong now' (ws c) (tick now hb))) !! sid
                    = Some (touch now' (setAlive true c))).
    { cbn [hb_pong registry]. rewrite pong_lookup, Hreg. cbn.
      by rewrite decide_True. }
    assert (Ht2 : pongTimers (hb_pong now' (ws c) (tick now hb)) !! timer
                  = Some {| pt_session := sid; pt_socket := ws c;
                            pt_due := (now + Z.of_nat (pongTimeoutOf (registry hb)))%Z;
                            pt_detached := None |}).
    { cbn [hb_pong pongTimers]. by rewrite lookup_fmap, Ht. }
    assert (Hhb' : hb' = with_pongTimers
                           (delete timer (pongTimers (hb_pong now' (ws c) (tick now hb))))
                           (hb_pong now' (ws c) (tick now hb))).
    { unfold hb', pongTimeoutFired. rewrite Ht2. cbn zeta.
      unfold capturedAlive. cbn [pt_detached pt_session]. hb_proj. rewrite Hreg2. done. }
    rewrite Hhb'. hb_proj. split; [done|]. split; [done|]. split; [done|].
    intros now''. rewrite tick_registry. hb_proj. rewrite Hreg2. cbn. by eexists.
Qed.

Lemma pong_timeout_reaping_witness :
  let hb := (hb_addConnection 0 (paramsFor 7 "s1" (Some "u1"))
               (startPingInterval (optionsWithCap None) Samples.heap)).2 in
  beating (optionsWithCap None) Samples.heap hb ∧
  getConnection "s1" (registry hb) = Some Samples.s1_connection ∧
  getConnection "s1" (registry (tick 30000 hb)) = Some (setAlive false Samples.s1_connection) ∧
  getConnection "s1" (registry (pongTimeoutFired 0 (tick 30000 hb))) = None.
Proof.
  intros hb.
  assert (Hb : beating (optionsWithCap None) Samples.heap hb)
    by exact (beating_beat _ _ _ (BeatAdd 0 (paramsFor 7 "s1" (Some "u1")))
                (beating_start _ _)).
  assert (Hc : getConnection "s1" (registry hb) = Some Samples.s1_connection)
    by (vm_compute; reflexivity).
  split; [exact Hb|]. split; [exact Hc|]. split.
  - rewrite (proj1 (proj2 (pong_timeout_reaping _ _ hb 30000 Hb)) "s1").
    vm_compute. reflexivity.
  - vm_compute. reflexivity.
Defined.

End WebSocketManagerMore.

(** ** Further properties of the batch processor *)

Module LLMProcessorMore.
Import LLMProcessor LLMProcessorFacts.

Ltac llm_proj :=
  cbn [clearTimeout setTimeout with_timers with_batches emit fst snd
       llmHandler options batchMap timers nextTimer inflight nextCall emitted].

(** *** Batches and their timers *)

Lemma timed_new o : timed (new o).
Proof.
  split; cbn [new batchMap timers].
  - intros sid b H. by rewrite lookup_empty in H.
  - intros timer sid due H. by rewrite lookup_empty in H.
Qed.

Lemma timed_frame s s' :
  batchMap s' = batchMap s → timers s' = timers s → nextTimer s' = nextTimer s →
  timed s → timed s'.
Proof. intros Hb Ht Hn. unfold timed. by rewrite Hb, Ht, Hn. Qed.

(** What [processBatch] leaves of the batches and the timers. *)
Lemma processBatch_tables now sid s :
  batchMap (processBatch now sid s) = delete sid (batchMap s) ∧
  nextTimer (processBatch now sid s) = nextTimer s ∧
  options (processBatch now sid s) = options s ∧
  timers (processBatch now sid s)
    = match batchMap s !! sid with
      | Some b => match b_timer b with
                  | Some timer => delete timer (timers s)
                  | None => timers s
                  end
      | None => timers s
      end.
Proof.
  unfold processBatch. destruct (batchMap s !! sid) as [b|] eqn:Hb.
  - destruct (b_timer b) as [timer|]; case_decide; llm_proj;
      try destruct (llmHandler s); llm_proj; done.
  - repeat split; try done. symmetry. by apply delete_id.
Qed.

Lemma processBatch_timed now sid s : timed s → timed (processBatch now sid s).
Proof.
  intros [HB HT]. destruct (processBatch_tables now sid s) as (Hb & Hn & _ & Ht).
  destruct (batchMap s !! sid) as [b|] eqn:Hsid.
  2:{ apply (timed_frame s); try done. rewrite Hb. by apply delete_id. }
  destruct (HB _ _ Hsid) as (timer & due & Hbt & Htm). rewrite Hbt in Ht.
  split.
  - intros sid' b'. rewrite Hb, Ht. intros Hl. apply lookup_delete_Some in Hl as [Hne Hl].
    destruct (HB _ _ Hl) as (timer' & due' & Hbt' & Htm').
    exists timer', due'. split; [done|]. rewrite lookup_delete_ne; [done|].
    intros ->. rewrite Htm in Htm'. congruence.
  - intros timer' sid' due'. rewrite Hb, Ht, Hn. intros Hl.
    apply lookup_delete_Some in Hl as [Hne Hl].
    destruct (HT _ _ _ Hl) as (Hlt & b' & Hb' & Hbt'). split; [done|].
    exists b'. split; [|done]. rewrite lookup_delete_ne; [done|].
    intros ->. rewrite Hsid in Hb'. congruence.
Qed.

Lemma checkBatchSize_timed now sid s : timed s → timed (checkBatchSize now sid s).
Proof.
  intros Ht. unfold checkBatchSize. destruct (batchMap s !! sid); [|done].
  case_decide; [by apply processBatch_timed|done].
Qed.

(** [getOrCreateBatch] followed by an update of the batch that keeps its
    timer. *)
Lemma getOrCreateBatch_update_timed now sid (f : Batch → Batch) s :
  (∀ b, b_timer (f b) = b_timer b) → timed s →
  timed (with_batches
           (<[sid := f (getOrCreateBatch now sid s).1]>
              (batchMap (getOrCreateBatch now sid s).2))
           (getOrCreateBatch now sid s).2).
Proof.
  intros Hf [HB HT]. unfold getOrCreateBatch.
  destruct (batchMap s !! sid) as [b|] eqn:Hsid; llm_proj.
  - split; llm_proj.
    + intros sid' b'. destruct (decide (sid = sid')) as [->|Hne].
      * rewrite lookup_insert_eq. intros [= <-]. rewrite Hf. by apply HB.
      * rewrite lookup_insert_ne by done. apply HB.
    + intros timer sid' due Hl. destruct (HT _ _ _ Hl) as (Hlt & b' & Hb' & Hbt').
      split; [done|]. destruct (decide (sid = sid')) as [->|Hne].
      * rewrite lookup_insert_eq. exists (f b). split; [done|]. rewrite Hf. congruence.
      * rewrite lookup_insert_ne by done. by exists b'.
  - assert (Hfresh : timers s !! nextTimer s = None).
    { destruct (timers s !! nextTimer s) as [[sid0 due0]|] eqn:E; [|done].
      destruct (HT _ _ _ E) as [Hlt _]. lia. }
    split; llm_proj.
    + intros sid' b'. rewrite insert_insert_eq.
      destruct (decide (sid = sid')) as [->|Hne].
      * rewrite lookup_insert_eq. intros [= <-]. rewrite Hf. cbn [b_timer].
        eexists _, _. split; [done|]. apply lookup_insert_eq.
      * rewrite lookup_insert_ne by done. intros Hl.
        destruct (HB _ _ Hl) as (timer' & due' & Hbt' & Htm').
        exists timer', due'. split; [done|]. rewrite lookup_insert_ne; [done|].
        intros Heq. rewrite <- Heq in Htm'. congruence.
    + intros timer sid' due. rewrite insert_insert_eq.
      destruct (decide (timer = nextTimer s)) as [->|Hne].
      * rewrite lookup_insert_eq. intros [= <- <-]. split; [lia|].
        rewrite lookup_insert_eq. eexists. split; [done|]. by rewrite Hf.
      * rewrite lookup_insert_ne by done. intros Hl.
        destruct (HT _ _ _ Hl) as (Hlt & b' & Hb' & Hbt'). split; [lia|].
        exists b'. split; [|done]. rewrite lookup_insert_ne; [done|].
        intros ->. congruence.
Qed.

Lemma processAudioChunk_timed now chunk s : timed s → timed (processAudioChunk now chunk s).
Proof.
  intros Ht. unfold processAudioChunk. destruct (set_includeAudio (options s)); [|done].
  cbn [negb].
  pose proof (getOrCreateBatch_update_timed now (chunk_sessionId chunk)
                (push_audio (data chunk)) s (λ b, eq_refl) Ht) as H.
  destruct (getOrCreateBatch now (chunk_sessionId chunk) s) as [b s1].
  by apply checkBatchSize_timed.
Qed.

Lemma processTranscription_timed now sid result s :
  timed s → timed (processTranscription now sid result s).
Proof.
  intros Ht. unfold processTranscription.
  destruct (set_includeTranscript (options s)); [|done]. cbn [negb].
  pose proof (getOrCreateBatch_update_timed now sid (push_transcript result) s
                (λ b, eq_refl) Ht) as H.
  destruct (getOrCreateBatch now sid s) as [b s1].
  by apply checkBatchSize_timed.
Qed.

Lemma updateMetadata_timed now sid md s : timed s → timed (updateMetadata now sid md s).
Proof.
  intros Ht. unfold updateMetadata.
  pose proof (getOrCreateBatch_update_timed now sid
                (λ batch, {| b_audio := b_audio batch; b_transcripts := b_transcripts batch;
                             b_metadata := Some (md ∪ default ∅ (b_metadata batch));
                             b_timer := b_timer batch |}) s (λ b, eq_refl) Ht) as H.
  by destruct (getOrCreateBatch now sid s) as [b s1].
Qed.

Lemma processBatch_after_clear now timer sid due s :
  timed s → timers s !! timer = Some (sid, due) →
  processBatch now sid (clearTimeout timer s) = processBatch now sid s.
Proof.
  intros [HB HT] Hl. destruct (HT _ _ _ Hl) as (_ & b & Hb & Hbt).
  assert (Hcc : clearTimeout timer (clearTimeout timer s) = clearTimeout timer s).
  { unfold clearTimeout, with_timers. cbn [timers options batchMap llmHandler nextTimer
      inflight nextCall emitted]. by rewrite delete_delete_eq. }
  unfold processBatch. change (batchMap (clearTimeout timer s)) with (batchMap s).
  rewrite Hb, Hbt, Hcc. done.
Qed.

Lemma timerFired_timed now timer s : timed s → timed (timerFired now timer s).
Proof.
  intros Ht. unfold timerFired. destruct (timers s !! timer) as [[sid due]|] eqn:Hl; [|done].
  rewrite (processBatch_after_clear now timer sid due s Ht Hl). by apply processBatch_timed.
Qed.

Lemma flushAll_fold_timed now ks : ∀ s,
  timed s → timed (foldl (λ s sid, processBatch now sid s) s ks).
Proof.
  induction ks as [|k ks IH]; intros s Ht; [done|]. cbn [foldl].
  by apply IH, processBatch_timed.
Qed.

Lemma handlerSettled_tables now call outcome s :
  batchMap (handlerSettled now call outcome s) = batchMap s ∧
  timers (handlerSettled now call outcome s) = timers s ∧
  nextTimer (handlerSettled now call outcome s) = nextTimer s ∧
  options (handlerSettled now call outcome s) = options s.
Proof.
  unfold handlerSettled. destruct (inflight s !! call) as [[request start]|]; [|done].
  by destruct outcome as [[r|]|reason].
Qed.

Lemma perform_timed now s op : timed s → timed (perform now s op).
Proof.
  intros Ht. destruct op; cbn [perform].
  - by apply processAudioChunk_timed.
  - by apply processTranscription_timed.
  - by apply processBatch_timed.
  - by apply flushAll_fold_timed.
  - by apply timerFired_timed.
  - destruct (handlerSettled_tables now call outcome s) as (? & ? & ? & _).
    by apply (timed_frame s).
  - by apply (timed_frame s).
  - by apply updateMetadata_timed.
Qed.

Lemma reachable_timed o s : reachable o s → timed s.
Proof. induction 1; [apply timed_new | by apply perform_timed]. Qed.

(** X4 — Batches and timers.  In every state a processor reaches, each
    session's batch holds the handle of an armed timer that flushes that
    session, and each armed timer belongs to the batch of its session: no
    batch is ever without a pending timer and no timer outlives its
    batch.  Hence a firing timer always flushes exactly the batch it was
    armed for: the batch leaves the map, the timer is no longer armed, and
    a non-empty batch is emitted as one request. *)
Theorem batches_and_timers (o : LLMProcessorOptions) (s : t) :
  reachable o s →
  (∀ sid b, batchMap s !! sid = Some b →
     ∃ timer due, b_timer b = Some timer ∧ timers s !! timer = Some (sid, due)) ∧
  (∀ timer sid due, timers s !! timer = Some (sid, due) →
     ∃ b, batchMap s !! sid = Some b ∧ b_timer b = Some timer ∧
          ∀ now, batchMap (timerFired now timer s) !! sid = None ∧
                 timers (timerFired now timer s) !! timer = None ∧
                 (0 < totalItems b →
                    emitted (timerFired now timer s)
                    = emitted s ++ [LlmRequest (makeRequest now sid b)])).
Proof.
  intros Hr. pose proof (reachable_timed o s Hr) as Ht. destruct Ht as [HB HT].
  split; [exact HB|]. intros timer sid due Hl.
  destruct (HT _ _ _ Hl) as (_ & b & Hb & Hbt). exists b. split; [done|]. split; [done|].
  intros now. unfold timerFired. rewrite Hl.
  rewrite (processBatch_after_clear now timer sid due s (conj HB HT) Hl).
  destruct (processBatch_tables now sid s) as (Hbm & _ & _ & Htm).
  rewrite Hb, Hbt in Htm. rewrite Hbm, Htm, !lookup_delete_eq.
  split; [done|]. split; [done|]. intros Hpos.
  by destruct (processBatch_nonempty now sid s b Hb Hpos) as ((_ & _ & He) & _).
Qed.

Lemma batches_and_timers_witness :
  reachable {| batchTimeout := None; maxBatchSize := None;
               includeAudio := None; includeTranscript := None |} Samples.processor1 ∧
  ∃ timer due, b_timer Samples.batch1 = Some timer ∧
               timers Samples.processor1 !! timer = Some ("s1", due).
Proof.
  assert (Hr : reachable {| batchTimeout := None; maxBatchSize := None;
                            includeAudio := None; includeTranscript := None |}
                 Samples.processor1)
    by exact (reach_perform _ 0%Z _ (OpResult "s1" (Samples.heard "hello")) (reach_new _)).
  split; [exact Hr|].
  exact (proj1 (batches_and_timers _ Samples.processor1 Hr) "s1" Samples.batch1 eq_refl).
Defined.

(** *** Nothing appended is lost *)

Lemma balanced_refl sid s : balanced sid s s.
Proof. by split. Qed.

Lemma balanced_trans sid s1 s2 s3 :
  balanced sid s1 s2 → balanced sid s2 s3 → balanced sid s1 s3.
Proof. intros [H1 H1'] [H2 H2']. split; congruence. Qed.

Lemma balanced_frame sid s s' :
  batchMap s' !! sid = batchMap s !! sid → requestsFor sid s' = requestsFor sid s →
  balanced sid s s'.
Proof.
  intros Hb Hr. unfold balanced, deliveredResults, deliveredAudio, pendingResults,
    pendingAudio. by rewrite Hb, Hr.
Qed.

Lemma requestsFor_emit sid e s :
  requestsFor sid (emit e s)
  = requestsFor sid s ++
      match e with
      | LlmRequest r => if decide (sessionId r = sid) then [r] else []
      | _ => []
      end.
Proof.
  unfold requestsFor. cbn [emit emitted]. rewrite omap_app. f_equal.
  destruct e as [r| |]; cbn; [|done|done]. by case_decide.
Qed.

Lemma makeRequest_results now sid b :
  default [] (transcriptionResults (makeRequest now sid b)) = b_transcripts b.
Proof.
  unfold makeRequest. cbn [transcriptionResults]. case_decide as H; [done|].
  cbn. destruct (b_transcripts b); [done|]. cbn [length] in H. lia.
Qed.

Lemma makeRequest_audio now sid b :
  default [] (audio (makeRequest now sid b)) = Buffer_concat (b_audio b).
Proof.
  unfold makeRequest. cbn [audio]. case_decide as H; [done|].
  cbn. destruct (b_audio b); [done|]. cbn [length] in H. lia.
Qed.

(** The emitted events and the batches after [processBatch]. *)
Lemma processBatch_emitted now sid s :
  emitted (processBatch now sid s)
  = emitted s ++
      match batchMap s !! sid with
      | Some b => if decide (0 < totalItems b) then [LlmRequest (makeRequest now sid b)]
                  else []
      | None => []
      end.
Proof.
  destruct (batchMap s !! sid) as [b|] eqn:Hb.
  - case_decide as Hpos.
    + by destruct (processBatch_nonempty now sid s b Hb Hpos) as ((_ & _ & He) & _).
    + unfold processBatch. rewrite Hb. unfold totalItems in Hpos.
      rewrite decide_True by lia. rewrite app_nil_r.
      by destruct (b_timer b).
  - unfold processBatch. rewrite Hb. by rewrite app_nil_r.
Qed.

Lemma processBatch_balanced now sid sid' s : balanced sid s (processBatch now sid' s).
Proof.
  destruct (processBatch_tables now sid' s) as (Hbm & _).
  pose proof (processBatch_emitted now sid' s) as He.
  assert (Hreq : requestsFor sid (processBatch now sid' s)
                 = requestsFor sid s ++
                     match batchMap s !! sid' with
                     | Some b => if decide (0 < totalItems b) then
                                   if decide (sid' = sid) then [makeRequest now sid' b] else []
                                 else []
                     | None => []
                     end).
  { unfold requestsFor. rewrite He, omap_app. f_equal.
    destruct (batchMap s !! sid') as [b|]; [|done]. case_decide; [|done].
    cbn. by case_decide. }
  destruct (decide (sid' = sid)) as [->|Hne].
  - unfold balanced, deliveredResults, deliveredAudio, pendingResults, pendingAudio.
    rewrite Hreq, Hbm, lookup_delete_eq. cbn [fmap option_fmap option_map default].
    destruct (batchMap s !! sid) as [b|] eqn:Hb; cbn [fmap option_fmap option_map default].
    + case_decide as Hpos.
      * rewrite !fmap_app, !concat_app. cbn [fmap list_fmap concat].
        rewrite makeRequest_results, makeRequest_audio, !app_nil_r. done.
      * assert (b_audio b = [] ∧ b_transcripts b = []) as [Ha Ht].
        { unfold totalItems in Hpos. destruct (b_audio b), (b_transcripts b);
            cbn [length] in Hpos; try lia. done. }
        rewrite Ha, Ht, !app_nil_r. done.
    + by rewrite !app_nil_r.
  - apply balanced_frame.
    + rewrite Hbm. by rewrite lookup_delete_ne.
    + rewrite Hreq. destruct (batchMap s !! sid') as [b|]; [|by rewrite app_nil_r].
      case_decide; by rewrite app_nil_r.
Qed.

Lemma checkBatchSize_balanced now sid sid' s : balanced sid s (checkBatchSize now sid' s).
Proof.
  unfold checkBatchSize. destruct (batchMap s !! sid'); [|apply balanced_refl].
  case_decide; [apply processBatch_balanced | apply balanced_refl].
Qed.

(** The batch of [sid'] after [getOrCreateBatch] and an update [f] of it. *)
Lemma getOrCreateBatch_update now sid' (f : Batch → Batch) s :
  let s1 := with_batches
              (<[sid' := f (getOrCreateBatch now sid' s).1]>
                 (batchMap (getOrCreateBatch now sid' s).2))
              (getOrCreateBatch now sid' s).2 in
  emitted s1 = emitted s ∧ options s1 = options s ∧
  batchMap s1
  = <[sid' := f (default (emptyBatch (nextTimer s)) (batchMap s !! sid'))]> (batchMap s).
Proof.
  unfold getOrCreateBatch. destruct (batchMap s !! sid') as [b|]; llm_proj; [done|].
  by rewrite insert_insert_eq.
Qed.

Lemma append_balanced now sid (i : Item) s :
  included i s = true →
  deliveredResults sid (append now i s) ++ pendingResults sid (append now i s)
    = deliveredResults sid s ++ pendingResults sid s ++
        match i with
        | TranscriptItem sid' r => if decide (sid' = sid) then [r] else []
        | AudioItem _ => []
        end ∧
  deliveredAudio sid (append now i s) ++ pendingAudio sid (append now i s)
    = deliveredAudio sid s ++ pendingAudio sid s ++
        match i with
        | AudioItem chunk => if decide (chunk_sessionId chunk = sid) then data chunk else []
        | TranscriptItem _ _ => []
        end.
Proof.
  intros Hinc. rewrite (append_unfold now i s Hinc).
  destruct (getOrCreateBatch_update now (item_session i) (push i) s) as (He & _ & Hbm).
  destruct (getOrCreateBatch now (item_session i) s) as [b s1]. cbn [fst snd] in *.
  match goal with |- context [checkBatchSize now ?k ?x] =>
    set (s2 := x) in *; destruct (checkBatchSize_balanced now sid k s2) as [-> ->] end.
  unfold deliveredResults, deliveredAudio, pendingResults, pendingAudio, requestsFor.
  rewrite He, Hbm.
  destruct (decide (item_session i = sid)) as [Hs|Hs].
  - rewrite Hs, lookup_insert_eq. cbn [fmap option_fmap option_map default].
    destruct i as [chunk|sid' r]; cbn [item_session] in Hs; subst;
      rewrite decide_True by done;
      destruct (batchMap s !! _) as [b0|];
      cbn [push push_audio push_transcript default fmap option_fmap option_map
           b_audio b_transcripts emptyBatch];
      unfold Buffer_concat, id; rewrite ?concat_app; cbn [concat app];
      rewrite ?app_nil_r; done.
  - rewrite lookup_insert_ne by done.
    destruct i as [chunk|sid' r]; cbn [item_session] in Hs;
      rewrite decide_False by done; by rewrite !app_nil_r.
Qed.

Lemma flushAll_fold_balanced now sid ks : ∀ s,
  balanced sid s (foldl (λ s sid', processBatch now sid' s) s ks).
Proof.
  induction ks as [|k ks IH]; intros s; [apply balanced_refl|]. cbn [foldl].
  eapply balanced_trans; [apply processBatch_balanced | apply IH].
Qed.

Lemma timerFired_balanced now sid timer s : balanced sid s (timerFired now timer s).
Proof.
  unfold timerFired. destruct (timers s !! timer) as [[sid' due]|]; [|apply balanced_refl].
  apply (balanced_trans _ _ (clearTimeout timer s)); [by apply balanced_frame|].
  apply processBatch_balanced.
Qed.

Lemma handlerSettled_balanced now sid call outcome s :
  balanced sid s (handlerSettled now call outcome s).
Proof.
  unfold handlerSettled. destruct (inflight s !! call) as [[request start]|];
    [|apply balanced_refl].
  destruct outcome as [[r|]|reason]; apply balanced_frame; try done;
    by rewrite requestsFor_emit, app_nil_r.
Qed.

Lemma updateMetadata_balanced now sid sid' md s :
  balanced sid s (updateMetadata now sid' md s).
Proof.
  unfold updateMetadata.
  destruct (getOrCreateBatch_update now sid'
              (λ batch, {| b_audio := b_audio batch; b_transcripts := b_transcripts batch;
                           b_metadata := Some (md ∪ default ∅ (b_metadata batch));
                           b_timer := b_timer batch |}) s) as (He & _ & Hbm).
  destruct (getOrCreateBatch now sid' s) as [b s1]. cbn [fst snd] in *.
  unfold balanced, deliveredResults, deliveredAudio, pendingResults, pendingAudio, requestsFor.
  rewrite He, Hbm. destruct (decide (sid' = sid)) as [->|Hne].
  - rewrite lookup_insert_eq. by destruct (batchMap s !! sid).
  - by rewrite lookup_insert_ne.
Qed.

Lemma perform_options now s op : options (perform now s op) = options s.
Proof.
  assert (Hcheck : ∀ sid x, options (checkBatchSize now sid x) = options x).
  { intros sid x. unfold checkBatchSize. destruct (batchMap x !! sid); [|done].
    case_decide; [|done]. by destruct (processBatch_tables now sid x) as (_ & _ & -> & _). }
  destruct op as [chunk|sid0 result|sid0| |timer|call outcome| |sid0 md]; cbn [perform].
  - unfold processAudioChunk. destruct (set_includeAudio (options s)); [|done]. cbn [negb].
    destruct (getOrCreateBatch_update now (chunk_sessionId chunk) (push_audio (data chunk)) s)
      as (_ & Ho & _).
    destruct (getOrCreateBatch now (chunk_sessionId chunk) s) as [b s1]. by rewrite Hcheck.
  - unfold processTranscription. destruct (set_includeTranscript (options s)); [|done].
    cbn [negb].
    destruct (getOrCreateBatch_update now sid0 (push_transcript result) s) as (_ & Ho & _).
    destruct (getOrCreateBatch now sid0 s) as [b s1]. by rewrite Hcheck.
  - unfold flushSession. by destruct (processBatch_tables now sid0 s) as (_ & _ & -> & _).
  - unfold flushAll. generalize (map_to_list (batchMap s)).*1. intros ks. revert s.
    induction ks as [|k ks IH]; intros s; [done|]. cbn [foldl]. rewrite IH.
    by destruct (processBatch_tables now k s) as (_ & _ & -> & _).
  - unfold timerFired. destruct (timers s !! timer) as [[sid due]|]; [|done].
    by destruct (processBatch_tables now sid (clearTimeout timer s)) as (_ & _ & -> & _).
  - by destruct (handlerSettled_tables now call outcome s) as (_ & _ & _ & ->).
  - done.
  - unfold updateMetadata.
    destruct (getOrCreateBatch_update now sid0
                (λ batch, {| b_audio := b_audio batch; b_transcripts := b_transcripts batch;
                             b_metadata := Some (md ∪ default ∅ (b_metadata batch));
                             b_timer := b_timer batch |}) s) as (_ & Ho & _).
    by destruct (getOrCreateBatch now sid0 s) as [b s1].
Qed.

Lemma perform_balanced now sid s op :
  deliveredResults sid (perform now s op) ++ pendingResults sid (perform now s op)
    = deliveredResults sid s ++ pendingResults sid s
        ++ appendedResults sid (set_includeTranscript (options s)) [(now, op)] ∧
  deliveredAudio sid (perform now s op) ++ pendingAudio sid (perform now s op)
    = deliveredAudio sid s ++ pendingAudio sid s
        ++ appendedAudio sid (set_includeAudio (options s)) [(now, op)].
Proof.
  assert (Hquiet : balanced sid s (perform now s op) →
            appendedResults sid (set_includeTranscript (options s)) [(now, op)] = [] →
            appendedAudio sid (set_includeAudio (options s)) [(now, op)] = [] →
            deliveredResults sid (perform now s op) ++ pendingResults sid (perform now s op)
              = deliveredResults sid s ++ pendingResults sid s
                  ++ appendedResults sid (set_includeTranscript (options s)) [(now, op)] ∧
            deliveredAudio sid (perform now s op) ++ pendingAudio sid (perform now s op)
              = deliveredAudio sid s ++ pendingAudio sid s
                  ++ appendedAudio sid (set_includeAudio (options s)) [(now, op)]).
  { intros [H1 H2] -> ->. by rewrite !app_nil_r. }
  destruct op as [chunk|sid0 result|sid0| |timer|call outcome| |sid0 md];
    try (apply Hquiet; [|done|done]); cbn [perform].
  - destruct (set_includeAudio (options s)) eqn:Hinc.
    + destruct (append_balanced now sid (AudioItem chunk) s Hinc) as [H1 H2].
      cbn [append] in H1, H2. rewrite H1, H2.
      unfold appendedResults, appendedAudio. cbn. rewrite !app_nil_r. done.
    + unfold processAudioChunk. rewrite Hinc. cbn [negb].
      unfold appendedResults, appendedAudio. cbn.
      case_decide; by rewrite !app_nil_r.
  - destruct (set_includeTranscript (options s)) eqn:Hinc.
    + destruct (append_balanced now sid (TranscriptItem sid0 result) s Hinc) as [H1 H2].
      cbn [append] in H1, H2. rewrite H1, H2.
      unfold appendedResults, appendedAudio. cbn. rewrite !app_nil_r. done.
    + unfold processTranscription. rewrite Hinc. cbn [negb].
      unfold appendedResults, appendedAudio. cbn.
      case_decide; by rewrite !app_nil_r.
  - apply processBatch_balanced.
  - apply flushAll_fold_balanced.
  - apply timerFired_balanced.
  - apply handlerSettled_balanced.
  - by apply balanced_frame.
  - apply updateMetadata_balanced.
Qed.

(** X5 — Nothing appended is lost.  Over any run of operations on a
    processor (appends, flushes, timers, handler completions, metadata),
    for every session: the results carried by the requests emitted for the
    session, in order, followed by the results still in its batch, are
    those accounted for at the start followed by the results appended for
    it during the run (when transcripts are included); and the same holds
    for the audio bytes.  Every appended item leaves in exactly one
    request, in order, or is still batched. *)
Theorem appended_items_conserved (sid : string) (ops : list (Z * Op)) : ∀ s : t,
  deliveredResults sid (runOps s ops) ++ pendingResults sid (runOps s ops)
    = deliveredResults sid s ++ pendingResults sid s
        ++ appendedResults sid (set_includeTranscript (options s)) ops ∧
  deliveredAudio sid (runOps s ops) ++ pendingAudio sid (runOps s ops)
    = deliveredAudio sid s ++ pendingAudio sid s
        ++ appendedAudio sid (set_includeAudio (options s)) ops.
Proof.
  induction ops as [|[now op] rest IH]; intros s.
  - cbn. by rewrite !app_nil_r.
  - change (runOps s ((now, op) :: rest)) with (runOps (perform now s op) rest).
    destruct (IH (perform now s op)) as [H1 H2].
    destruct (perform_balanced now sid s op) as [P1 P2].
    rewrite H1, H2, perform_options, !app_assoc, P1, P2.
    unfold appendedResults, appendedAudio. cbn [fmap list_fmap concat].
    rewrite !app_nil_r, <- !app_assoc. done.
Qed.

(** *** The size of a batch *)

Lemma processBatch_lookup now sid s k b :
  batchMap (processBatch now sid s) !! k = Some b → batchMap s !! k = Some b.
Proof.
  destruct (processBatch_tables now sid s) as (-> & _).
  rewrite lookup_delete_Some. by intros [_ ?].
Qed.

Lemma checkBatchSize_below now sid s :
  (∀ k b, k ≠ sid → batchMap s !! k = Some b → totalItems b < set_maxBatchSize (options s)) →
  ∀ k b, batchMap (checkBatchSize now sid s) !! k = Some b →
         totalItems b < set_maxBatchSize (options s).
Proof.
  intros Hothers k b. unfold checkBatchSize.
  destruct (batchMap s !! sid) as [b0|] eqn:Hb0.
  - fold (totalItems b0). case_decide as Hfull.
    + destruct (processBatch_tables now sid s) as (-> & _).
      rewrite lookup_delete_Some. intros [Hne Hk]. by apply (Hothers k).
    + intros Hk. destruct (decide (k = sid)) as [->|Hne].
      * rewrite Hb0 in Hk. injection Hk as <-. lia.
      * by apply (Hothers k).
  - intros Hk. destruct (decide (k = sid)) as [->|Hne]; [congruence|]. by apply (Hothers k).
Qed.

Lemma perform_below now s op :
  0 < set_maxBatchSize (options s) →
  (∀ k b, batchMap s !! k = Some b → totalItems b < set_maxBatchSize (options s)) →
  ∀ k b, batchMap (perform now s op) !! k = Some b →
         totalItems b < set_maxBatchSize (options s).
Proof.
  intros Hmax Hs.
  assert (Happend : ∀ sid (f : Batch → Batch),
            let s2 := with_batches
                        (<[sid := f (getOrCreateBatch now sid s).1]>
                           (batchMap (getOrCreateBatch now sid s).2))
                        (getOrCreateBatch now sid s).2 in
            ∀ k b, batchMap (checkBatchSize now sid s2) !! k = Some b →
                   totalItems b < set_maxBatchSize (options s)).
  { intros sid f s2 k b Hk.
    destruct (getOrCreateBatch_update now sid f s) as (_ & Ho & Hbm). fold s2 in Ho, Hbm.
    rewrite <- Ho. apply (λ H, checkBatchSize_below now sid s2 H k b Hk).
    intros k' b' Hne. rewrite Hbm, Ho, lookup_insert_ne by done. apply Hs. }
  destruct op as [chunk|sid0 result|sid0| |timer|call outcome| |sid0 md]; cbn [perform].
  - unfold processAudioChunk. destruct (set_includeAudio (options s)); [|apply Hs].
    cbn [negb]. intros k b.
    pose proof (Happend (chunk_sessionId chunk) (push_audio (data chunk)) k b) as H.
    destruct (getOrCreateBatch now (chunk_sessionId chunk) s) as [b0 s1]. exact H.
  - unfold processTranscription. destruct (set_includeTranscript (options s)); [|apply Hs].
    cbn [negb]. intros k b.
    pose proof (Happend sid0 (push_transcript result) k b) as H.
    destruct (getOrCreateBatch now sid0 s) as [b0 s1]. exact H.
  - intros k b Hk. apply (Hs k). by apply (processBatch_lookup now sid0 s).
  - unfold flushAll. generalize (map_to_list (batchMap s)).*1. intros ks.
    assert (Hfold : ∀ x k b,
              batchMap (foldl (λ s sid', processBatch now sid' s) x ks) !! k = Some b →
              batchMap x !! k = Some b).
    { induction ks as [|k0 ks IH]; intros x k b; [done|]. cbn [foldl]. intros Hk.
      apply (processBatch_lookup now k0 x), IH, Hk. }
    intros k b Hk. by apply (Hs k), Hfold.
  - unfold timerFired. destruct (timers s !! timer) as [[sid due]|]; [|apply Hs].
    intros k b Hk. apply (Hs k). by apply (processBatch_lookup now sid (clearTimeout timer s)).
  - destruct (handlerSettled_tables now call outcome s) as (-> & _). apply Hs.
  - apply Hs.
  - unfold updateMetadata. intros k b.
    destruct (getOrCreateBatch_update now sid0
                (λ batch, {| b_audio := b_audio batch; b_transcripts := b_transcripts batch;
                             b_metadata := Some (md ∪ default ∅ (b_metadata batch));
                             b_timer := b_timer batch |}) s) as (_ & _ & Hbm).
    destruct (getOrCreateBatch now sid0 s) as [b0 s1]. cbn [fst snd] in Hbm. rewrite Hbm.
    destruct (decide (k = sid0)) as [->|Hne].
    + rewrite lookup_insert_eq. intros [= <-]. unfold totalItems. cbn [b_audio b_transcripts].
      destruct (batchMap s !! sid0) as [b1|] eqn:Hb1; cbn [default emptyBatch b_audio
        b_transcripts length]; [|lia]. apply (Hs sid0 b1 Hb1).
    + rewrite lookup_insert_ne by done. apply Hs.
Qed.

(** X6 — The size of a batch.  When [maxBatchSize] is at least one, no
    batch of a state the processor reaches holds [maxBatchSize] items or
    more: a batch is flushed by the append that fills it, so between two
    operations every batch is strictly below the bound. *)
Theorem batch_size_bound (o : LLMProcessorOptions) (s : t) :
  reachable o s → 0 < set_maxBatchSize (defaults o) →
  options s = defaults o ∧
  ∀ sid b, batchMap s !! sid = Some b → totalItems b < set_maxBatchSize (defaults o).
Proof.
  intros Hr Hmax. induction Hr as [|now s op Hr [Ho IH]].
  - split; [done|]. intros sid b. cbn [new batchMap]. by rewrite lookup_empty.
  - split; [by rewrite perform_options|]. rewrite <- Ho in *.
    by apply perform_below.
Qed.

Lemma batch_size_bound_witness :
  reachable {| batchTimeout := None; maxBatchSize := None;
               includeAudio := None; includeTranscript := None |} Samples.processor1 ∧
  0 < set_maxBatchSize (defaults {| batchTimeout := None; maxBatchSize := None;
                                    includeAudio := None; includeTranscript := None |}) ∧
  totalItems Samples.batch1 < 10.
Proof.
  assert (Hr : reachable {| batchTimeout := None; maxBatchSize := None;
                            includeAudio := None; includeTranscript := None |}
                 Samples.processor1)
    by exact (reach_perform _ 0%Z _ (OpResult "s1" (Samples.heard "hello")) (reach_new _)).
  assert (Hmax : 0 < set_maxBatchSize
                       (defaults {| batchTimeout := None; maxBatchSize := None;
                                    includeAudio := None; includeTranscript := None |}))
    by (cbn; lia).
  split; [exact Hr|]. split; [exact Hmax|].
  exact (proj2 (batch_size_bound _ Samples.processor1 Hr Hmax) "s1" Samples.batch1 eq_refl).
Defined.

(** *** Flushing *)

Lemma processBatch_requests now sid sid' s :
  requestsFor sid (processBatch now sid' s)
  = requestsFor sid s ++
      match batchMap s !! sid' with
      | Some b => if decide (0 < totalItems b) then
                    if decide (sid' = sid) then [makeRequest now sid' b] else []
                  else []
      | None => []
      end.
Proof.
  unfold requestsFor. rewrite processBatch_emitted, omap_app. f_equal.
  destruct (batchMap s !! sid') as [b|]; [|done]. case_decide; [|done].
  cbn. by case_decide.
Qed.

Lemma flushAll_fold now sid ks : ∀ s,
  NoDup ks →
  (∀ k, batchMap (foldl (λ s sid', processBatch now sid' s) s ks) !! k
        = if decide (k ∈ ks) then None else batchMap s !! k) ∧
  requestsFor sid (foldl (λ s sid', processBatch now sid' s) s ks)
  = requestsFor sid s ++
      (if decide (sid ∈ ks) then
         match batchMap s !! sid with
         | Some b => if decide (0 < totalItems b) then [makeRequest now sid b] else []
         | None => []
         end
       else []).
Proof.
  induction ks as [|k0 ks IH]; intros s Hnd.
  - cbn [foldl]. split.
    + intros k. rewrite decide_False; [done|]. apply not_elem_of_nil.
    + rewrite decide_False by apply not_elem_of_nil. by rewrite app_nil_r.
  - apply NoDup_cons in Hnd as [Hk0 Hnd]. cbn [foldl].
    destruct (IH (processBatch now k0 s) Hnd) as [Hbm Hreq].
    destruct (processBatch_tables now k0 s) as (Hdel & _). split.
    + intros k. rewrite Hbm, Hdel. destruct (decide (k = k0)) as [->|Hne].
      * rewrite decide_False by done. rewrite lookup_delete_eq.
        rewrite decide_True; [done|]. apply elem_of_cons. by left.
      * rewrite lookup_delete_ne by done. destruct (decide (k ∈ ks)) as [Hin|Hin].
        -- rewrite decide_True; [done|]. apply elem_of_cons. by right.
        -- rewrite decide_False; [done|]. rewrite elem_of_cons. intros [?|?]; done.
    + rewrite Hreq, processBatch_requests, Hdel, <- app_assoc. f_equal.
      destruct (decide (k0 = sid)) as [->|Hne].
      * rewrite decide_False by done. rewrite (decide_True (P := sid ∈ sid :: ks));
          [|apply elem_of_cons; by left].
        rewrite app_nil_r. destruct (batchMap s !! sid) as [b|]; [|done].
        by destruct (decide (0 < totalItems b)).
      * match goal with |- ?l ++ _ = _ =>
          assert (Hnil : l = [])
            by (destruct (batchMap s !! k0) as [b|];
                [by destruct (decide (0 < totalItems b))|done])
        end.
        rewrite Hnil, app_nil_l, lookup_delete_ne by done.
        destruct (decide (sid ∈ ks)) as [Hin|Hin].
        -- rewrite decide_True; [done|]. apply elem_of_cons. by right.
        -- rewrite decide_False; [done|]. rewrite elem_of_cons. intros [?|?]; done.
Qed.

Lemma timed_no_batches s : timed s → batchMap s = ∅ → timers s = ∅.
Proof.
  intros [_ Ht] Hbm. apply map_empty. intros timer.
  destruct (timers s !! timer) as [[sid due]|] eqn:Htimer; [|done].
  destruct (Ht timer sid due Htimer) as (_ & b & Hb & _).
  rewrite Hbm, lookup_empty in Hb. done.
Qed.

(** X7 — flushAll.  [flushAll] leaves no batch behind; for every session
    it emits exactly one request, built from the session's batch, when
    that batch held an item, and none otherwise; and in a state where
    batches and timers correspond (every reachable state) no timer stays
    armed afterwards. *)
Theorem flushAll_flushes_every_batch (now : Z) (s : t) :
  batchMap (flushAll now s) = ∅ ∧
  (∀ sid, requestsFor sid (flushAll now s)
          = requestsFor sid s ++
              match batchMap s !! sid with
              | Some b => if decide (0 < totalItems b) then [makeRequest now sid b] else []
              | None => []
              end) ∧
  (timed s → timers (flushAll now s) = ∅).
Proof.
  assert (Hnd : NoDup (map_to_list (batchMap s)).*1) by apply NoDup_fst_map_to_list.
  assert (Hin : ∀ k, k ∈ (map_to_list (batchMap s)).*1 ↔ is_Some (batchMap s !! k)).
  { intros k. rewrite list_elem_of_fmap. split.
    - intros ([k' b] & -> & Hkb). apply elem_of_map_to_list in Hkb. by exists b.
    - intros [b Hb]. exists (k, b). split; [done|]. by apply elem_of_map_to_list. }
  assert (Hempty : batchMap (flushAll now s) = ∅).
  { apply map_empty. intros k. unfold flushAll.
    destruct (flushAll_fold now k _ s Hnd) as [-> _]. case_decide as Hk; [done|].
    destruct (batchMap s !! k) eqn:Hb; [|done]. exfalso. apply Hk, Hin. by eexists. }
  split; [done|]. split.
  - intros sid. unfold flushAll. destruct (flushAll_fold now sid _ s Hnd) as [_ ->].
    f_equal. case_decide as Hk; [done|].
    destruct (batchMap s !! sid) eqn:Hb; [|done]. exfalso. apply Hk, Hin. by eexists.
  - intros Ht. apply timed_no_batches; [|done]. by apply flushAll_fold_timed.
Qed.

Lemma flushAll_flushes_every_batch_witness :
  timed Samples.processor1 ∧
  timers (flushAll 9 Samples.processor1) = ∅ ∧
  requestsFor "s1" (flushAll 9 Samples.processor1)
    = [makeRequest 9 "s1" Samples.batch1].
Proof.
  assert (Ht : timed Samples.processor1)
    by exact (reachable_timed _ _
                (reach_perform {| batchTimeout := None; maxBatchSize := None;
                                  includeAudio := None; includeTranscript := None |}
                   0%Z _ (OpResult "s1" (Samples.heard "hello")) (reach_new _))).
  split; [exact Ht|]. split.
  - exact (proj2 (proj2 (flushAll_flushes_every_batch 9 Samples.processor1)) Ht).
  - exact (proj1 (proj2 (flushAll_flushes_every_batch 9 Samples.processor1)) "s1").
Defined.

(** X8 — Metadata ahead of the items.  [updateMetadata] for a session
    without a batch creates an empty batch carrying the metadata and arms
    its timer.  When that timer fires, or the session is flushed, before
    any item was appended, the batch is dropped without a request: nothing
    is emitted, the handler is not called, and batches and timers are as
    they were before the metadata was set. *)
Theorem metadata_only_batch_is_dropped (now : Z) (sid : string) (md : Metadata) (s : t) :
  batchMap s !! sid = None → timers s !! nextTimer s = None →
  let s1 := updateMetadata now sid md s in
  batchMap s1 !! sid
    = Some {| b_audio := []; b_transcripts := []; b_metadata := Some (md ∪ ∅);
              b_timer := Some (nextTimer s) |} ∧
  timers s1 !! nextTimer s
    = Some (sid, (now + Z.of_nat (set_batchTimeout (options s)))%Z) ∧
  ∀ now' s2, s2 = timerFired now' (nextTimer s) s1 ∨ s2 = flushSession now' sid s1 →
    emitted s2 = emitted s ∧ inflight s2 = inflight s ∧
    batchMap s2 = batchMap s ∧ timers s2 = timers s.
Proof.
  intros Hb Ht s1.
  assert (Hs1 : s1 = with_batches
                  (<[sid := {| b_audio := []; b_transcripts := [];
                               b_metadata := Some (md ∪ ∅);
                               b_timer := Some (nextTimer s) |}]> (batchMap s))
                  (setTimeout now sid s).2).
  { unfold s1, updateMetadata, getOrCreateBatch. rewrite Hb. llm_proj.
    cbn [b_audio b_transcripts b_metadata b_timer default]. unfold with_batches. llm_proj.
    f_equal. by rewrite insert_insert_eq. }
  assert (Hflush : ∀ now', emitted (processBatch now' sid s1) = emitted s ∧
                           inflight (processBatch now' sid s1) = inflight s ∧
                           batchMap (processBatch now' sid s1) = batchMap s ∧
                           timers (processBatch now' sid s1) = timers s).
  { intros now'. unfold processBatch. rewrite Hs1. llm_proj. rewrite lookup_insert_eq.
    cbn [b_timer b_audio b_transcripts length]. rewrite decide_True by done. llm_proj.
    repeat split.
    - rewrite delete_insert_eq. by apply delete_id.
    - rewrite delete_insert_eq. by apply delete_id. }
  split; [|split].
  - rewrite Hs1. llm_proj. by rewrite lookup_insert_eq.
  - rewrite Hs1. llm_proj. by rewrite lookup_insert_eq.
  - intros now' s2 [->| ->]; [|apply Hflush].
    unfold timerFired.
    assert (Htimer : timers s1 !! nextTimer s
                     = Some (sid, (now + Z.of_nat (set_batchTimeout (options s)))%Z)).
    { rewrite Hs1. llm_proj. by rewrite lookup_insert_eq. }
    rewrite Htimer.
    unfold processBatch. rewrite Hs1. llm_proj. rewrite lookup_insert_eq.
    cbn [b_timer b_audio b_transcripts length]. rewrite decide_True by done. llm_proj.
    repeat split.
    + rewrite delete_insert_eq. by apply delete_id.
    + rewrite !delete_insert_eq, delete_delete_eq. by apply delete_id.
Qed.

Lemma metadata_only_batch_is_dropped_witness :
  batchMap Samples.processor !! "s1" = None ∧
  timers Samples.processor !! nextTimer Samples.processor = None ∧
  emitted (timerFired 5000 0 (updateMetadata 0 "s1" {[ "lang" := JStr "en" ]}
                                Samples.processor)) = [].
Proof.
  split; [reflexivity|]. split; [reflexivity|].
  exact (proj1 (proj2 (proj2 (metadata_only_batch_is_dropped 0 "s1"
                                {[ "lang" := JStr "en" ]} Samples.processor
                                eq_refl eq_refl))
                  5000%Z _ (or_introl eq_refl))).
Defined.

(** X9 — The handler.  Flushing a batch that holds an item emits its
    request; without a handler nothing else follows.  With a handler the
    request is handed to it under a fresh call, and when that call settles
    exactly one event follows: for a fulfilment with an object, an
    [llm-response] that is the handler's own object with [processingTime]
    set to the time from the flush to the settlement; for a fulfilment
    with [null] or [undefined], or a rejection, an [llm-error] naming the
    flushed session.  The call is then over, and a second settlement of it
    changes nothing. *)
Theorem handler_completion (now : Z) (sid : string) (s : t) (b : Batch) :
  batchMap s !! sid = Some b → 0 < totalItems b →
  let s1 := processBatch now sid s in
  emitted s1 = emitted s ++ [LlmRequest (makeRequest now sid b)] ∧
  (llmHandler s = false → inflight s1 = inflight s ∧ nextCall s1 = nextCall s) ∧
  (llmHandler s = true →
     inflight s1 !! nextCall s = Some (makeRequest now sid b, now) ∧
     nextCall s1 = S (nextCall s) ∧
     ∀ now2 outcome,
       let s2 := handlerSettled now2 (nextCall s) outcome s1 in
       emitted s2
       = emitted s1 ++
           [match outcome with
            | Fulfilled (Some r) =>
                LlmResponse {| resp_sessionId := resp_sessionId r;
                               response := response r;
                               processingTime := (now2 - now)%Z;
                               resp_metadata := resp_metadata r |}
            | Fulfilled None => LlmError sid NoResponseObject
            | Rejected reason => LlmError sid (Thrown reason)
            end] ∧
       inflight s2 !! nextCall s = None ∧
       ∀ now3 outcome', handlerSettled now3 (nextCall s) outcome' s2 = s2).
Proof.
  intros Hb Hpos s1.
  assert (Hs1 : s1 = processBatch now sid s) by done.
  unfold processBatch in Hs1. rewrite Hb in Hs1.
  rewrite decide_False in Hs1 by (unfold totalItems in Hpos; lia).
  split; [|split].
  - unfold s1. rewrite processBatch_emitted, Hb. by rewrite decide_True.
  - intros Hh. rewrite Hs1. destruct (b_timer b); llm_proj; rewrite Hh; llm_proj; done.
  - intros Hh.
    assert (Hin : inflight s1 = <[nextCall s := (makeRequest now sid b, now)]> (inflight s)
                  ∧ nextCall s1 = S (nextCall s)).
    { rewrite Hs1. destruct (b_timer b); llm_proj; rewrite Hh; llm_proj; done. }
    destruct Hin as [Hin Hnext].
    split; [by rewrite Hin, lookup_insert_eq|]. split; [done|].
    intros now2 outcome s2.
    assert (Hlook : inflight s1 !! nextCall s = Some (makeRequest now sid b, now))
      by (by rewrite Hin, lookup_insert_eq).
    assert (Hgone : inflight s2 !! nextCall s = None).
    { unfold s2, handlerSettled. rewrite Hlook.
      destruct outcome as [[r|]|reason]; llm_proj; apply lookup_delete_eq. }
    split; [|split; [done|]].
    + unfold s2, handlerSettled. rewrite Hlook.
      destruct outcome as [[r|]|reason]; llm_proj; done.
    + intros now3 outcome'. unfold handlerSettled at 1. by rewrite Hgone.
Qed.

Lemma handler_completion_witness :
  let s := setLLMHandler Samples.processor1 in
  batchMap s !! "s1" = Some Samples.batch1 ∧
  0 < totalItems Samples.batch1 ∧
  llmHandler s = true ∧
  emitted (handlerSettled 12 (nextCall s) (Fulfilled None) (processBatch 9 "s1" s))
    = emitted (processBatch 9 "s1" s) ++ [LlmError "s1" NoResponseObject].
Proof.
  intros s.
  assert (Hb : batchMap s !! "s1" = Some Samples.batch1) by (vm_compute; reflexivity).
  assert (Hpos : 0 < totalItems Samples.batch1) by (cbn; lia).
  split; [exact Hb|]. split; [exact Hpos|]. split; [reflexivity|].
  exact (proj1 (proj2 (proj2 (proj2 (proj2
           (handler_completion 9 "s1" s Samples.batch1 Hb Hpos)) eq_refl))
           12%Z (Fulfilled None))).
Defined.

(** *** cleanup *)

Lemma cleanup_timers_lookup (bs : list Batch) (tm : gmap nat (string * Z)) timer :
  foldr (λ b tm, match b_timer b with Some timer => delete timer tm | None => tm end)
        tm bs !! timer = None ∨
  (foldr (λ b tm, match b_timer b with Some timer => delete timer tm | None => tm end)
         tm bs !! timer = tm !! timer ∧
   ∀ b, b ∈ bs → b_timer b ≠ Some timer).
Proof.
  induction bs as [|b0 bs IH]; cbn [foldr].
  - right. split; [done|]. intros b Hb. by apply not_elem_of_nil in Hb.
  - destruct (b_timer b0) as [t0|] eqn:Ht0.
    + destruct (decide (t0 = timer)) as [->|Hne]; [left; apply lookup_delete_eq|].
      rewrite lookup_delete_ne by done. destruct IH as [IH|[IH Hbs]]; [by left|right].
      split; [done|]. intros b Hb. apply elem_of_cons in Hb as [->|Hb]; [congruence|].
      by apply Hbs.
    + destruct IH as [IH|[IH Hbs]]; [by left|right].
      split; [done|]. intros b Hb. apply elem_of_cons in Hb as [->|Hb]; [congruence|].
      by apply Hbs.
Qed.

(** X10 — cleanup.  In every state a processor reaches, [cleanup] leaves
    no batch and no armed timer, so no flush can follow it; and it emits
    nothing: the items still batched are discarded without a request,
    unlike with [flushAll]. *)
Theorem cleanup_discards_batches (o : LLMProcessorOptions) (s : t) :
  reachable o s →
  batchMap (cleanup s) = ∅ ∧ timers (cleanup s) = ∅ ∧
  emitted (cleanup s) = emitted s ∧ inflight (cleanup s) = inflight s ∧
  ∀ now timer, timerFired now timer (cleanup s) = cleanup s.
Proof.
  intros Hr. pose proof (reachable_timed o s Hr) as [_ Ht].
  assert (Htm : timers (cleanup s) = ∅).
  { unfold cleanup. llm_proj. apply map_empty. intros timer.
    destruct (cleanup_timers_lookup (map_to_list (batchMap s)).*2 (timers s) timer)
      as [Hnone|[Hsame Hbs]]; [done|].
    rewrite Hsame. destruct (timers s !! timer) as [[sid due]|] eqn:Htimer; [|done].
    destruct (Ht timer sid due Htimer) as (_ & b & Hb & Hbt).
    exfalso. apply (Hbs b); [|done].
    apply list_elem_of_fmap. exists (sid, b). split; [done|]. by apply elem_of_map_to_list. }
  repeat split; try done.
  intros now timer. unfold timerFired. by rewrite Htm, lookup_empty.
Qed.

Lemma cleanup_discards_batches_witness :
  reachable {| batchTimeout := None; maxBatchSize := None;
               includeAudio := None; includeTranscript := None |} Samples.processor1 ∧
  batchMap (cleanup Samples.processor1) = ∅ ∧
  emitted (cleanup Samples.processor1) = emitted Samples.processor1.
Proof.
  assert (Hr : reachable {| batchTimeout := None; maxBatchSize := None;
                            includeAudio := None; includeTranscript := None |}
                 Samples.processor1)
    by exact (reach_perform _ 0%Z _ (OpResult "s1" (Samples.heard "hello")) (reach_new _)).
  split; [exact Hr|].
  pose proof (cleanup_discards_batches _ Samples.processor1 Hr) as (Hb & _ & He & _).
  exact (conj Hb He).
Defined.

End LLMProcessorMore.

(** ** Further properties of the server *)

Module AudioStreamServerMore.
Import AudioStreamServer AudioStreamServerFacts.

Ltac srv_proj :=
  cbn [wsManager llmProcessor sessionBuffers processingQueue outstanding awaiting
       calls nextCall emitted with_wsManager with_buffers with_queue with_awaiting
       emit sendMessage acknowledgeStop setFlag fst snd].

(** *** No audio is lost between the buffer and the provider *)

Lemma conserved_refl sid s : conserved sid s s.
Proof. by split. Qed.

Lemma conserved_trans sid s1 s2 s3 :
  conserved sid s1 s2 → conserved sid s2 s3 → conserved sid s1 s3.
Proof. intros [H1 H1'] [H2 H2']. split; [congruence|auto]. Qed.

Lemma conserved_frame sid s s' :
  sessionBuffers s' = sessionBuffers s → calls s' = calls s → conserved sid s s'.
Proof.
  intros Hb Hc. unfold conserved, dispatchedAudio, pendingAudio, buffered, callsFor.
  by rewrite Hb, Hc.
Qed.

Lemma conserved_lookup sid s s' :
  sessionBuffers s' !! sid = sessionBuffers s !! sid →
  callsFor sid s' = callsFor sid s → conserved sid s s'.
Proof.
  intros Hb Hc. unfold conserved, dispatchedAudio, pendingAudio, buffered.
  by rewrite Hb, Hc.
Qed.

Lemma dispatch_conserved sid sid' s r : dispatch sid' s r → conserved sid s r.2.
Proof.
  intros [|buffer c Hb Hne Hc]; [apply conserved_refl|].
  destruct (decide (sid' = sid)) as [->|Hns].
  - unfold conserved, dispatchedAudio, pendingAudio, buffered, callsFor. srv_proj.
    rewrite lookup_insert_eq, Hb. cbn [default].
    rewrite filter_app, filter_cons_True, filter_nil by done.
    rewrite fmap_app. unfold Buffer_concat. rewrite concat_app. cbn.
    rewrite !app_nil_r. split; [done|]. intros _. by eexists.
  - apply conserved_lookup; srv_proj.
    + by rewrite lookup_insert_ne.
    + by apply (callsFor_other sid sid').
Qed.

Lemma drain_conserved now sid sid' s : conserved sid s (drain now sid' s).
Proof.
  unfold drain.
  pose proof (dispatch_conserved sid sid' s _ (processAudioBuffer_dispatch sid' s)) as Hd.
  destruct (processAudioBuffer sid' s) as [[n|] s1]; cbn [snd] in Hd;
    (eapply conserved_trans; [exact Hd|]); by apply conserved_frame.
Qed.

Lemma resume_conserved now sid st k : conserved sid st (resume now st k).
Proof.
  destruct k as [sid'|sid'|sid']; cbn [resume].
  - by apply conserved_frame.
  - apply drain_conserved.
  - by apply conserved_frame.
Qed.

Lemma settle_conserved now sid call outcome s : conserved sid s (settle now call outcome s).
Proof.
  unfold settle. destruct (outstanding s !! call) as [c|]; [|apply conserved_refl].
  match goal with |- context [processAudioBuffer_settled ?n ?sd ?o ?x] =>
    destruct (processAudioBuffer_settled_frame n sd o x) as (_ & _ & Hb2 & _ & Hc2 & _);
    set (s2 := processAudioBuffer_settled n sd o x) in *
  end.
  apply (conserved_trans _ _ s2); [by apply conserved_frame|].
  unfold resolve.
  match goal with |- context [foldl _ ?x ?l] => set (s0 := x); set (ks := l) end.
  apply (conserved_trans _ _ s0); [by apply conserved_frame|].
  apply (foldl_resume_inv now (conserved sid s0) ks); [|apply conserved_refl].
  intros st k _ Hst. eapply conserved_trans; [exact Hst|]. apply resume_conserved.
Qed.

Lemma handleControlMessage_conserved now sid sid' type s :
  conserved sid s (handleControlMessage now sid' type s).
Proof.
  unfold handleControlMessage.
  destruct (WebSocketManager.getConnection sid' (wsManager s)) as [c|]; [|apply conserved_refl].
  repeat case_decide; try (by apply conserved_frame); try apply conserved_refl.
  match goal with |- context [setFlag ?a ?b ?c ?d ?e] => set (s1 := setFlag a b c d e) end.
  apply (conserved_trans _ _ s1); [by apply conserved_frame|].
  unfold processBufferedAudio.
  destruct (processingQueue s1 !! sid') as [ongoing|]; [case_decide|];
    try apply drain_conserved. by apply conserved_frame.
Qed.

Lemma handleAudioData_conserved now sid sid' audioData s :
  is_Some (sessionBuffers s !! sid) →
  let s' := handleAudioData now sid' audioData s in
  dispatchedAudio sid s' ++ pendingAudio sid s'
    = dispatchedAudio sid s ++ pendingAudio sid s
      ++ Buffer_concat (accepted sid s [(now, Audio sid' audioData)]) ∧
  is_Some (sessionBuffers s' !! sid).
Proof.
  intros Hsome s'. subst s'. cbn [accepted]. rewrite app_nil_r.
  unfold handleAudioData, accepts.
  destruct (decide (sid' = sid)) as [->|Hns].
  - destruct (WebSocketManager.getConnection sid (wsManager s)) as [c|];
      [|by rewrite !app_nil_r].
    destruct (isPaused c); cbn [negb]; [by rewrite !app_nil_r|].
    destruct Hsome as [buffer Hb]. rewrite Hb.
    match goal with |- context [withLLM ?f ?x] =>
      destruct (withLLM_frame f x) as (Hq3 & Ha3 & Hb3 & Ho3 & Hc3 & _);
      set (s2 := x) in *; set (s3 := withLLM f s2) in *
    end.
    assert (H3 : dispatchedAudio sid s3 ++ pendingAudio sid s3
                 = dispatchedAudio sid s ++ pendingAudio sid s ++ Buffer_concat [audioData]
                 ∧ is_Some (sessionBuffers s3 !! sid)).
    { unfold dispatchedAudio, pendingAudio, buffered, callsFor.
      rewrite Hb3, Hc3. unfold s2. srv_proj. rewrite lookup_insert_eq, Hb. cbn [default].
      unfold Buffer_concat, id. rewrite concat_app. split; [done|by eexists]. }
    destruct H3 as [H3 H3'].
    assert (Hk : ∀ s4, conserved sid s3 s4 →
              dispatchedAudio sid s4 ++ pendingAudio sid s4
              = dispatchedAudio sid s ++ pendingAudio sid s ++ Buffer_concat [audioData]
              ∧ is_Some (sessionBuffers s4 !! sid)).
    { intros s4 [He Hs]. split; [congruence|auto]. }
    case_decide; [by apply Hk, conserved_refl|].
    pose proof (dispatch_conserved sid sid s3 _ (processAudioBuffer_dispatch sid s3)) as Hd.
    destruct (processAudioBuffer sid s3) as [[n|] s4]; cbn [snd] in Hd;
      apply Hk; (eapply conserved_trans; [exact Hd|]); by apply conserved_frame.
  - rewrite app_nil_r.
    enough (Hc : conserved sid s (handleAudioData now sid' audioData s)).
    { destruct Hc as [He Hs]. split; [exact He | auto]. }
    unfold handleAudioData.
    destruct (WebSocketManager.getConnection sid' (wsManager s)) as [c|]; [|apply conserved_refl].
    destruct (isPaused c); [apply conserved_refl|].
    destruct (sessionBuffers s !! sid') as [buffer|] eqn:Hb; [|apply conserved_refl].
    match goal with |- context [withLLM ?f ?x] =>
      destruct (withLLM_frame f x) as (Hq3 & Ha3 & Hb3 & Ho3 & Hc3 & _);
      set (s2 := x) in *; set (s3 := withLLM f s2) in *
    end.
    assert (H3 : conserved sid s s3).
    { apply conserved_lookup.
      - rewrite Hb3. unfold s2. srv_proj. by rewrite lookup_insert_ne.
      - unfold callsFor. by rewrite Hc3. }
    case_decide; [done|].
    pose proof (dispatch_conserved sid sid' s3 _ (processAudioBuffer_dispatch sid' s3)) as Hd.
    destruct (processAudioBuffer sid' s3) as [[n|] s4]; cbn [snd] in Hd;
      (eapply conserved_trans; [exact H3|]); (eapply conserved_trans; [exact Hd|]);
      by apply conserved_frame.
Qed.

Lemma step_conserved now sid s i :
  is_Some (sessionBuffers s !! sid) → notReconnected sid i →
  dispatchedAudio sid (step now s i) ++ pendingAudio sid (step now s i)
    = dispatchedAudio sid s ++ pendingAudio sid s
      ++ Buffer_concat (accepted sid s [(now, i)]) ∧
  is_Some (sessionBuffers (step now s i) !! sid).
Proof.
  intros Hsome Hi.
  assert (Hquiet : conserved sid s (step now s i) → accepted sid s [(now, i)] = [] →
            dispatchedAudio sid (step now s i) ++ pendingAudio sid (step now s i)
              = dispatchedAudio sid s ++ pendingAudio sid s
                ++ Buffer_concat (accepted sid s [(now, i)]) ∧
            is_Some (sessionBuffers (step now s i) !! sid)).
  { intros [He Hs] ->. cbn. rewrite app_nil_r. auto. }
  destruct i as [p|sid' audioData|sid' type|h sid' reason|call outcome|timer|call outcome];
    cbn [notReconnected] in Hi.
  - apply Hquiet; [|done]. cbn [step].
    destruct (handleConnection_frame now p s) as (_ & _ & _ & Hc & Hb).
    apply conserved_lookup; [by apply Hb|]. unfold callsFor. by rewrite Hc.
  - by apply handleAudioData_conserved.
  - apply Hquiet; [|done]. apply handleControlMessage_conserved.
  - apply Hquiet; [|done]. cbn [step]. rewrite socketClosed_unfold. by apply conserved_frame.
  - apply Hquiet; [|done]. apply settle_conserved.
  - apply Hquiet; [|done]. cbn [step].
    destruct (withLLM_frame (LLMProcessor.timerFired now timer) s) as (_ & _ & ? & _ & ? & _).
    by apply conserved_frame.
  - apply Hquiet; [|done]. cbn [step].
    destruct (withLLM_frame (LLMProcessor.handlerSettled now call outcome) s)
      as (_ & _ & ? & _ & ? & _).
    by apply conserved_frame.
Qed.

(** X11 — Audio conservation.  Over any run of inputs that does not register
    a connection under the session id again, the audio handed to the
    provider for a session (the payloads of its calls, in order) followed
    by the audio still in its buffer is what it was at the start followed
    by the frames the session accepted during the run, in arrival order:
    every accepted frame is dispatched exactly once, and in order, or is
    still buffered. *)
Theorem audio_conservation (sid : string) (trace : list (Z * Input)) : ∀ s : t,
  is_Some (sessionBuffers s !! sid) →
  Forall (λ ti, notReconnected sid ti.2) trace →
  dispatchedAudio sid (run s trace) ++ pendingAudio sid (run s trace)
    = dispatchedAudio sid s ++ pendingAudio sid s ++ Buffer_concat (accepted sid s trace).
Proof.
  induction trace as [|[now i] rest IH]; intros s Hsome Hall.
  - cbn. by rewrite !app_nil_r.
  - apply Forall_cons in Hall as [Hi Hall]. cbn [snd] in Hi.
    destruct (step_conserved now sid s i Hsome Hi) as [He Hs].
    change (run s ((now, i) :: rest)) with (run (step now s i) rest).
    rewrite (IH (step now s i) Hs Hall), app_assoc, He.
    cbn [accepted]. rewrite app_nil_r. unfold Buffer_concat.
    rewrite concat_app, <- !app_assoc. done.
Qed.

Lemma audio_conservation_witness :
  is_Some (sessionBuffers Samples.connected !! "s1") ∧
  Forall (λ ti : Z * Input, notReconnected "s1" ti.2) Samples.frames_and_return ∧
  dispatchedAudio "s1" (run Samples.connected Samples.frames_and_return)
    ++ pendingAudio "s1" (run Samples.connected Samples.frames_and_return)
  = dispatchedAudio "s1" Samples.connected ++ pendingAudio "s1" Samples.connected
      ++ Buffer_concat (accepted "s1" Samples.connected Samples.frames_and_return).
Proof.
  assert (H1 : is_Some (sessionBuffers Samples.connected !! "s1"))
    by (exists []; vm_compute; reflexivity).
  assert (H2 : Forall (λ ti : Z * Input, notReconnected "s1" ti.2) Samples.frames_and_return)
    by (repeat constructor).
  exact (conj H1 (conj H2
           (audio_conservation "s1" Samples.frames_and_return Samples.connected H1 H2))).
Defined.

(** *** One call per session when no stop-recording is handled *)

Lemma serial_new o heap : serial (new o heap).
Proof.
  split; [|split; [|split]]; cbn [new processingQueue outstanding awaiting nextCall].
  - intros sid id H. by rewrite lookup_empty in H.
  - intros id c H. by rewrite lookup_empty in H.
  - intros id k H. by apply not_elem_of_nil in H.
  - intros id [c H]. by rewrite lookup_empty in H.
Qed.

Lemma serial_frame s s' :
  processingQueue s' = processingQueue s → awaiting s' = awaiting s →
  outstanding s' = outstanding s → nextCall s' = nextCall s →
  serial s → serial s'.
Proof. intros Hq Ha Ho Hn. unfold serial. by rewrite Hq, Ha, Ho, Hn. Qed.

Lemma handleConnection_nextCall now p s :
  nextCall (handleConnection now p s) = nextCall s.
Proof.
  unfold handleConnection.
  by destruct (WebSocketManager.addConnection now p (wsManager s)) as [[] wm].
Qed.

Lemma handleAudioData_serial now sid audioData s :
  serial s → serial (handleAudioData now sid audioData s).
Proof.
  intros Hs. unfold handleAudioData.
  destruct (WebSocketManager.getConnection sid (wsManager s)) as [c|]; [|done].
  destruct (isPaused c); [done|].
  destruct (sessionBuffers s !! sid) as [buffer|]; [|done].
  match goal with |- context [withLLM ?f ?x] =>
    destruct (withLLM_frame f x) as (Hq3 & Ha3 & Hb3 & Ho3 & Hc3 & Hn3 & _);
    set (s2 := x) in *; set (s3 := withLLM f s2) in *
  end.
  assert (Hs3 : serial s3) by by apply (serial_frame s).
  case_decide as Hbusy; [done|].
  assert (Hfree : processingQueue s3 !! sid = None).
  { destruct (processingQueue s3 !! sid) eqn:E; [|done]. destruct Hbusy. by eexists. }
  destruct Hs3 as (HA & HB & HC & HD).
  destruct (processAudioBuffer_dispatch sid s3) as [|buffer' c' Hb Hne Hc].
  - apply (serial_frame s3); srv_proj; try done. by apply delete_id.
  - assert (Hold : ∀ id, is_Some (outstanding s3 !! id) → id ≠ nextCall s3).
    { intros id Hid ->. specialize (HD _ Hid). lia. }
    split; [|split; [|split]]; srv_proj.
    + intros sid0 id H. destruct (decide (sid0 = sid)) as [->|Hne'].
      * rewrite lookup_insert_eq in H. injection H as <-.
        split; [apply elem_of_app; right; by left|].
        rewrite lookup_insert_eq. by eexists.
      * rewrite lookup_insert_ne in H by done.
        destruct (HA _ _ H) as (Hin & c0 & Hc0 & Hs0).
        split; [apply elem_of_app; by left|].
        rewrite lookup_insert_ne by (apply not_eq_sym, Hold; by eexists). by exists c0.
    + intros id c0 Hl. destruct (decide (id = nextCall s3)) as [->|Hn].
      * rewrite lookup_insert_eq in Hl. injection Hl as <-. cbn. apply lookup_insert_eq.
      * rewrite lookup_insert_ne in Hl by done. pose proof (HB _ _ Hl) as Hq.
        rewrite lookup_insert_ne; [done|]. intros Heq. rewrite Heq in Hfree. congruence.
    + intros id k Hin. apply elem_of_app in Hin as [Hin|Hin].
      * destruct (HC _ _ Hin) as (sid0 & -> & Hq). exists sid0. split; [done|].
        rewrite lookup_insert_ne; [done|]. intros Heq. rewrite Heq in Hfree. congruence.
      * apply list_elem_of_singleton in Hin as [= -> ->]. exists sid.
        split; [done|]. apply lookup_insert_eq.
    + intros id [c0 Hl]. destruct (decide (id = nextCall s3)) as [->|Hn]; [lia|].
      rewrite lookup_insert_ne in Hl by done.
      assert (id < nextCall s3) by (apply HD; by eexists). lia.
Qed.

Lemma handleControlMessage_frame now sid type s :
  type ≠ "stop-recording" →
  processingQueue (handleControlMessage now sid type s) = processingQueue s ∧
  awaiting (handleControlMessage now sid type s) = awaiting s ∧
  outstanding (handleControlMessage now sid type s) = outstanding s ∧
  nextCall (handleControlMessage now sid type s) = nextCall s ∧
  sessionBuffers (handleControlMessage now sid type s) = sessionBuffers s ∧
  calls (handleControlMessage now sid type s) = calls s ∧
  emitted (handleControlMessage now sid type s) = emitted s ∧
  llmProcessor (handleControlMessage now sid type s) = llmProcessor s.
Proof.
  intros Hns. unfold handleControlMessage.
  destruct (WebSocketManager.getConnection sid (wsManager s)) as [c|]; [|done].
  repeat case_decide; done.
Qed.

Lemma foldl_resume_finally now ks : ∀ st,
  (∀ k, k ∈ ks → ∃ sid, k = KFinally sid) →
  awaiting (foldl (resume now) st ks) = awaiting st.
Proof.
  induction ks as [|k ks IH]; intros st Hall; [done|]. cbn [foldl].
  rewrite IH by (intros k' Hk'; apply Hall; by right).
  destruct (Hall k) as [sid ->]; [by left|]. done.
Qed.

Lemma settle_serial now call outcome s : serial s → serial (settle now call outcome s).
Proof.
  intros Hs. unfold settle. destruct (outstanding s !! call) as [c|] eqn:Hc; [|done].
  destruct Hs as (HA & HB & HC & HD).
  pose proof (HB _ _ Hc) as Hq. remember (call_session c) as sid eqn:Hsid.
  match goal with |- context [processAudioBuffer_settled ?n ?sd ?o ?x] =>
    destruct (processAudioBuffer_settled_frame n sd o x) as (Hq2 & Ha2 & Hb2 & Ho2 & Hc2 & Hn2);
    set (s2 := processAudioBuffer_settled n sd o x) in *
  end.
  unfold returned in Hq2, Ha2, Ho2, Hn2. cbn in Hq2, Ha2, Ho2, Hn2.
  unfold resolve. rewrite Ha2.
  set (ks := (filter (λ w, w.1 = call) (awaiting s)).*2).
  set (s0 := with_awaiting (filter (λ w, w.1 ≠ call) (awaiting s)) s2).
  assert (Hks : ∀ k, k ∈ ks → ∃ sid', k = KFinally sid').
  { intros k Hk. apply elem_of_mine in Hk. destruct (HC _ _ Hk) as (sid' & -> & _). by eexists. }
  assert (Hmine : ∀ sid', KFinally sid' ∈ ks ↔ sid' = sid).
  { intros sid'. split.
    - intros Hk. apply elem_of_mine in Hk. destruct (HC _ _ Hk) as (x & [= <-] & Hx).
      destruct (HA _ _ Hx) as (_ & c' & Hc' & Hs'). congruence.
    - intros ->. apply elem_of_mine. by destruct (HA _ _ Hq). }
  destruct (foldl_resume_no_drain now ks s0) as (_ & Hfn & Hfo & _ & _ & _ & Hfq).
  { intros x Hx. destruct (Hks _ Hx) as [? ?]. done. }
  pose proof (foldl_resume_finally now ks s0 Hks) as Hfa.
  cbn zeta in *.
  set (s' := foldl (resume now) s0 ks) in *.
  assert (Hq' : ∀ sid', processingQueue s' !! sid'
                 = if decide (sid' = sid) then None else processingQueue s !! sid').
  { intros sid'. rewrite Hfq. unfold s0. srv_proj. rewrite Hq2.
    destruct (decide (sid' = sid)) as [->|Hne].
    - rewrite decide_True; [done|]. by apply Hmine.
    - rewrite decide_False; [done|]. by rewrite Hmine. }
  assert (Ho' : outstanding s' = delete call (outstanding s)).
  { rewrite Hfo. unfold s0. srv_proj. by rewrite Ho2. }
  assert (Ha' : awaiting s' = filter (λ w, w.1 ≠ call) (awaiting s)) by by rewrite Hfa.
  assert (Hn' : nextCall s' = nextCall s).
  { rewrite Hfn. unfold s0. srv_proj. by rewrite Hn2. }
  assert (Hone : ∀ sid' id, processingQueue s !! sid' = Some id → sid' ≠ sid → id ≠ call).
  { intros sid' id Hl Hne ->. destruct (HA _ _ Hl) as (_ & c' & Hc' & Hs'). congruence. }
  split; [|split; [|split]].
  - intros sid' id H. rewrite Hq' in H. case_decide as Hd; [done|].
    destruct (HA _ _ H) as (Hin & c' & Hc' & Hs'). split.
    + rewrite Ha'. apply list_elem_of_filter. split; [cbn; by eapply Hone|done].
    + exists c'. split; [|done].
      rewrite Ho', lookup_delete_ne; [done|]. apply not_eq_sym. by eapply Hone.
  - intros id c' Hl. rewrite Ho' in Hl. apply lookup_delete_Some in Hl as [Hne Hl].
    rewrite Hq'. pose proof (HB _ _ Hl) as Hq0. rewrite decide_False; [done|].
    intros Heq. rewrite Heq in Hq0. congruence.
  - intros id k Hin. rewrite Ha' in Hin. apply list_elem_of_filter in Hin as [Hne Hin].
    cbn in Hne. destruct (HC _ _ Hin) as (sid' & -> & Hl). exists sid'. split; [done|].
    rewrite Hq', decide_False; [done|]. intros ->. congruence.
  - intros id [c' Hl]. rewrite Ho' in Hl. apply lookup_delete_Some in Hl as [_ Hl].
    rewrite Hn'. apply HD. by eexists.
Qed.

Lemma step_serial now s i : noStop i → serial s → serial (step now s i).
Proof.
  intros Hi Hs. destruct i; cbn [step noStop] in *.
  - destruct (handleConnection_frame now params s) as (Hq & Ha & Ho & _).
    apply (serial_frame s); try done. apply handleConnection_nextCall.
  - by apply handleAudioData_serial.
  - destruct (handleControlMessage_frame now sessionId type s Hi) as (? & ? & ? & ? & _).
    by apply (serial_frame s).
  - rewrite socketClosed_unfold. by apply (serial_frame s).
  - by apply settle_serial.
  - destruct (withLLM_frame (LLMProcessor.timerFired now timer) s)
      as (? & ? & _ & ? & _ & ? & _).
    by apply (serial_frame s).
  - destruct (withLLM_frame (LLMProcessor.handlerSettled now call outcome) s)
      as (? & ? & _ & ? & _ & ? & _).
    by apply (serial_frame s).
Qed.

Lemma reachable_without_stop_serial o heap s : reachable_without_stop o heap s → serial s.
Proof. induction 1; [apply serial_new | by apply step_serial]. Qed.

(** X12 — Single flight without stop-recording.  In every state the server
    reaches without handling a stop-recording message, two outstanding
    provider calls of the same session are the same call, and a session
    with an outstanding call has that call in [processingQueue]. *)
Theorem single_flight_without_stop
    (o : ServerOptions) (heap : gmap nat WebSocket) (s : t) :
  reachable_without_stop o heap s →
  (∀ id1 id2 c1 c2,
     outstanding s !! id1 = Some c1 → outstanding s !! id2 = Some c2 →
     call_session c1 = call_session c2 → id1 = id2) ∧
  (∀ id c, outstanding s !! id = Some c →
     processingQueue s !! call_session c = Some id).
Proof.
  intros Hr. destruct (reachable_without_stop_serial o heap s Hr) as (_ & HB & _).
  split; [|exact HB].
  intros id1 id2 c1 c2 H1 H2 He. pose proof (HB _ _ H1) as Q1. pose proof (HB _ _ H2) as Q2.
  rewrite He in Q1. congruence.
Qed.

Lemma single_flight_without_stop_witness :
  let s := run (new Samples.serverOptions Samples.heap) Samples.three_frames in
  reachable_without_stop Samples.serverOptions Samples.heap s ∧
  processingQueue s !! "s1" = Some 0.
Proof.
  intros s.
  assert (Hr : reachable_without_stop Samples.serverOptions Samples.heap s).
  { unfold s, run, Samples.three_frames. cbn [foldl fst snd].
    repeat (apply reach0_step; [|exact I]). apply reach0_new. }
  split; [exact Hr|].
  exact (proj2 (single_flight_without_stop _ _ s Hr) 0
           (Samples.callOf Samples.frame1 None) eq_refl).
Defined.

(** *** Control messages *)

Lemma sendMessage_connection now sid msg m sid' :
  ∃ now',
    WebSocketManager.getConnection sid' (WebSocketManager.sendMessage now sid msg m).2
    = WebSocketManager.touch now' <$> WebSocketManager.getConnection sid' m
    ∨ WebSocketManager.getConnection sid' (WebSocketManager.sendMessage now sid msg m).2
      = WebSocketManager.getConnection sid' m.
Proof.
  exists now. unfold WebSocketManager.sendMessage, WebSocketManager.getConnection.
  destruct (WebSocketManager.connections m !! sid) as [c|] eqn:Hc; [|by right].
  destruct (WebSocketManager.sockets m !! WebSocketManager.ws c) as [sock|]; [|by right].
  case_decide; [|by right]. destruct (serialisable msg); [|by right].
  cbn [snd WebSocketManager.connections].
  destruct (decide (sid = sid')) as [->|Hne].
  - left. by rewrite lookup_insert_eq, Hc.
  - right. by rewrite lookup_insert_ne.
Qed.

Lemma flag_sendMessage now sid msg s sid' name :
  flag sid' name (sendMessage now sid msg s) = flag sid' name s.
Proof.
  unfold flag, sendMessage. srv_proj.
  destruct (sendMessage_connection now sid msg (wsManager s) sid') as (now' & [-> | ->]);
    [|done].
  by destruct (WebSocketManager.getConnection sid' (wsManager s)).
Qed.

Lemma flag_setFlag sid c name v s :
  WebSocketManager.getConnection sid (wsManager s) = Some c →
  flag sid name (setFlag sid c name v s) = Some (JBool v).
Proof.
  unfold flag, setFlag, WebSocketManager.getConnection, WebSocketManager.setMetadata.
  intros Hc. srv_proj. cbn [WebSocketManager.connections].
  rewrite lookup_alter_eq, Hc. cbn. unfold spread_set. apply lookup_insert_eq.
Qed.

Lemma accepts_flag sid s :
  accepts sid s
  = match WebSocketManager.getConnection sid (wsManager s) with
    | Some _ => negb (truthy (flag sid "isPaused" s))
    | None => false
    end.
Proof.
  unfold accepts, flag, isPaused.
  by destruct (WebSocketManager.getConnection sid (wsManager s)).
Qed.

Lemma registered_sendMessage now sid msg s sid' :
  is_Some (WebSocketManager.getConnection sid' (wsManager s)) →
  is_Some (WebSocketManager.getConnection sid' (wsManager (sendMessage now sid msg s))).
Proof.
  intros [c Hc]. unfold sendMessage. srv_proj.
  destruct (sendMessage_connection now sid msg (wsManager s) sid') as (now' & [-> | ->]);
    rewrite Hc; by eexists.
Qed.

Lemma registered_setFlag sid c name v s sid' :
  is_Some (WebSocketManager.getConnection sid' (wsManager s)) →
  is_Some (WebSocketManager.getConnection sid' (wsManager (setFlag sid c name v s))).
Proof.
  intros [c' Hc]. unfold setFlag, WebSocketManager.getConnection, WebSocketManager.setMetadata
    in *. srv_proj. cbn [WebSocketManager.connections].
  destruct (decide (sid = sid')) as [->|Hne].
  - rewrite lookup_alter_eq, Hc. by eexists.
  - rewrite lookup_alter_ne by done. by eexists.
Qed.

Lemma handleControlMessage_pause now sid c s :
  WebSocketManager.getConnection sid (wsManager s) = Some c →
  handleControlMessage now sid "pause-recording" s
  = sendMessage now sid (MsgStamped "recording-paused" now) (setFlag sid c "isPaused" true s).
Proof. intros Hc. unfold handleControlMessage. rewrite Hc. done. Qed.

Lemma handleControlMessage_resume now sid c s :
  WebSocketManager.getConnection sid (wsManager s) = Some c →
  handleControlMessage now sid "resume-recording" s
  = sendMessage now sid (MsgStamped "recording-resumed" now) (setFlag sid c "isPaused" false s).
Proof. intros Hc. unfold handleControlMessage. rewrite Hc. done. Qed.

(** X13 — Pause and resume.  After pause-recording for a registered session
    the session accepts no audio: an audio frame for it leaves the whole
    server state as it is (nothing buffered, no event, no call).  After a
    following resume-recording the session accepts audio again. *)
Theorem paused_session_drops_audio
    (now now' now2 : Z) (sid : string) (audioData : Buffer) (s : t) :
  is_Some (WebSocketManager.getConnection sid (wsManager s)) →
  let s1 := handleControlMessage now sid "pause-recording" s in
  accepts sid s1 = false ∧
  handleAudioData now' sid audioData s1 = s1 ∧
  accepts sid (handleControlMessage now2 sid "resume-recording" s1) = true.
Proof.
  intros [c Hc] s1.
  assert (Hreg : is_Some (WebSocketManager.getConnection sid (wsManager s1))).
  { unfold s1. rewrite (handleControlMessage_pause now sid c s Hc).
    apply registered_sendMessage, registered_setFlag. by eexists. }
  assert (Hflag : flag sid "isPaused" s1 = Some (JBool true)).
  { unfold s1. rewrite (handleControlMessage_pause now sid c s Hc).
    rewrite flag_sendMessage. by apply flag_setFlag. }
  assert (Hacc : accepts sid s1 = false).
  { rewrite accepts_flag, Hflag. by destruct Hreg as [c1 ->]. }
  split; [exact Hacc|]. split.
  - unfold handleAudioData. unfold accepts in Hacc.
    destruct (WebSocketManager.getConnection sid (wsManager s1)) as [c1|]; [|done].
    apply negb_false_iff in Hacc. by rewrite Hacc.
  - destruct Hreg as [c1 Hc1].
    rewrite (handleControlMessage_resume now2 sid c1 s1 Hc1).
    rewrite accepts_flag, flag_sendMessage, (flag_setFlag sid c1 "isPaused" false s1 Hc1).
    assert (Hr : is_Some (WebSocketManager.getConnection sid
                   (wsManager (sendMessage now2 sid (MsgStamped "recording-resumed" now2)
                                 (setFlag sid c1 "isPaused" false s1))))).
    { apply registered_sendMessage, registered_setFlag. by eexists. }
    by destruct Hr as [c2 ->].
Qed.

Lemma paused_session_drops_audio_witness :
  is_Some (WebSocketManager.getConnection "s1" (wsManager Samples.connected)) ∧
  handleAudioData 2 "s1" Samples.frame1
    (handleControlMessage 1 "s1" "pause-recording" Samples.connected)
  = handleControlMessage 1 "s1" "pause-recording" Samples.connected.
Proof.
  assert (H : is_Some (WebSocketManager.getConnection "s1" (wsManager Samples.connected)))
    by (exists Samples.s1_connection; vm_compute; reflexivity).
  split; [exact H|].
  exact (proj1 (proj2 (paused_session_drops_audio 1 2 3 "s1" Samples.frame1
                         Samples.connected H))).
Defined.

Lemma sentOn_setFlag_sendMessage now sid c name v msg s sock :
  WebSocketManager.getConnection sid (wsManager s) = Some c →
  WebSocketManager.sockets (wsManager s) !! WebSocketManager.ws c = Some sock →
  readyState sock = 1 →
  serialisable msg = true →
  sentOn (WebSocketManager.ws c) (sendMessage now sid msg (setFlag sid c name v s))
  = sent sock ++ [msg].
Proof.
  intros Hc Hs Hr Hmsg.
  set (c' := {| WebSocketManager.ws := WebSocketManager.ws c;
                WebSocketManager.sessionId := WebSocketManager.sessionId c;
                WebSocketManager.userId := WebSocketManager.userId c;
                WebSocketManager.metadata :=
                  Some (spread_set (WebSocketManager.metadata c) name (JBool v));
                WebSocketManager.isAlive := WebSocketManager.isAlive c;
                WebSocketManager.lastActivity := WebSocketManager.lastActivity c |}).
  apply (sendMessage_sent now sid msg (setFlag sid c name v s) c' sock); [|done|done|done].
  unfold setFlag, WebSocketManager.getConnection, WebSocketManager.setMetadata in *.
  srv_proj. cbn [WebSocketManager.connections]. by rewrite lookup_alter_eq, Hc.
Qed.

(** X14 — Control messages.  A control message for a session that is not
    registered, or of a type other than the five known ones, leaves the
    server state unchanged.  ping, start-recording, pause-recording and
    resume-recording on a registered session with an open socket write
    exactly their acknowledgement (pong, recording-started,
    recording-paused, recording-resumed, stamped with the current time) as
    the next message on that socket, and touch neither the buffers, the
    queue, the calls nor the events. *)
Theorem control_messages (now : Z) (sid type : string) (s : t) :
  (WebSocketManager.getConnection sid (wsManager s) = None →
     handleControlMessage now sid type s = s) ∧
  (type ∉ ["ping"; "start-recording"; "stop-recording"; "pause-recording";
           "resume-recording"] →
     handleControlMessage now sid type s = s) ∧
  (∀ connection sock ack,
     WebSocketManager.getConnection sid (wsManager s) = Some connection →
     WebSocketManager.sockets (wsManager s) !! WebSocketManager.ws connection = Some sock →
     readyState sock = 1 →
     acknowledgement type now = Some ack →
     let s' := handleControlMessage now sid type s in
     sentOn (WebSocketManager.ws connection) s' = sent sock ++ [ack] ∧
     sessionBuffers s' = sessionBuffers s ∧ processingQueue s' = processingQueue s ∧
     calls s' = calls s ∧ emitted s' = emitted s).
Proof.
  split; [|split].
  - intros Hc. unfold handleControlMessage. by rewrite Hc.
  - intros Hty. unfold handleControlMessage.
    destruct (WebSocketManager.getConnection sid (wsManager s)) as [c|]; [|done].
    repeat case_decide; try done; subst type; exfalso; apply Hty;
      repeat (first [by left | right]).
  - intros c sock ack Hc Hs Hr Hack s'. subst s'.
    assert (Hns : type ≠ "stop-recording").
    { intros ->. by cbv in Hack. }
    destruct (handleControlMessage_frame now sid type s Hns)
      as (Hq & _ & _ & _ & Hb & Hcalls & He & _).
    split; [|done].
    unfold handleControlMessage, acknowledgement in *. rewrite Hc.
    repeat case_decide; try done; injection Hack as <-.
    + by apply (sendMessage_sent now sid MsgPong s c sock).
    + by apply sentOn_setFlag_sendMessage.
    + by apply sentOn_setFlag_sendMessage.
    + by apply sentOn_setFlag_sendMessage.
Qed.

Lemma control_messages_witness :
  WebSocketManager.getConnection "s1" (wsManager Samples.connected)
    = Some Samples.s1_connection ∧
  acknowledgement "ping" 1 = Some MsgPong ∧
  sentOn 7 (handleControlMessage 1 "s1" "ping" Samples.connected) = [] ++ [MsgPong].
Proof.
  assert (Hc : WebSocketManager.getConnection "s1" (wsManager Samples.connected)
               = Some Samples.s1_connection) by (vm_compute; reflexivity).
  assert (Ha : acknowledgement "ping" 1 = Some MsgPong) by reflexivity.
  split; [exact Hc|]. split; [exact Ha|].
  exact (proj1 (proj2 (proj2 (control_messages 1 "s1" "ping" Samples.connected))
                  Samples.s1_connection Samples.openSocket MsgPong Hc eq_refl eq_refl Ha)).
Defined.

(** X15 — The socket's close event.  Whatever the state, handling the close
    of a session's socket only removes the connection from the registry
    and marks the socket closed: because the registry's own close listener
    runs first, [handleDisconnection] finds no connection and returns, so
    the session's buffer and [processingQueue] entry stay, no disconnection
    event is emitted and the batch processor is not flushed.  Audio arriving
    for the session afterwards is not accepted. *)
Theorem close_event_keeps_session_state
    (now : Z) (h : nat) (sid reason : string) (s : t) :
  let s' := socketClosed now h sid reason s in
  WebSocketManager.getConnection sid (wsManager s') = None ∧
  sessionBuffers s' = sessionBuffers s ∧
  processingQueue s' = processingQueue s ∧
  outstanding s' = outstanding s ∧
  awaiting s' = awaiting s ∧
  emitted s' = emitted s ∧
  llmProcessor s' = llmProcessor s ∧
  ∀ now' audioData, handleAudioData now' sid audioData s' = s'.
Proof.
  intros s'. subst s'. rewrite socketClosed_unfold. srv_proj.
  assert (Hgone : WebSocketManager.getConnection sid
            (WebSocketManager.removeConnection sid
               (WebSocketManager.socketGone h (wsManager s))) = None)
    by apply removeConnection_gone.
  repeat split; try done.
  intros now' audioData. unfold handleAudioData. srv_proj. by rewrite Hgone.
Qed.

(** *** stop-recording and admission *)

Lemma handleControlMessage_stop now sid c s :
  WebSocketManager.getConnection sid (wsManager s) = Some c →
  handleControlMessage now sid "stop-recording" s
  = processBufferedAudio now sid (setFlag sid c "isRecording" false s).
Proof. intros Hc. unfold handleControlMessage. rewrite Hc. done. Qed.

(** X16 — stop-recording.  For a registered session the handler first sets
    [isRecording] to false.  With no [processingQueue] entry for the
    session: if the buffer is empty, no call is started and
    recording-stopped is written at once (socket open); if the buffer is
    not empty, exactly one call is started, carrying the whole buffer and
    the updated metadata, the buffer is emptied, the acknowledgement waits
    for that call, and the call is not entered in [processingQueue].  With
    an entry whose call is outstanding, nothing is dispatched or written:
    the drain waits for that call. *)
Theorem stop_recording_drain
    (now : Z) (sid : string) (s : t) (connection : WebSocketManager.WebSocketConnection) :
  WebSocketManager.getConnection sid (wsManager s) = Some connection →
  let s' := handleControlMessage now sid "stop-recording" s in
  flag sid "isRecording" s' = Some (JBool false) ∧
  (processingQueue s !! sid = None → buffered sid s = [] →
     calls s' = calls s ∧ outstanding s' = outstanding s ∧ awaiting s' = awaiting s ∧
     ∀ sock,
       WebSocketManager.sockets (wsManager s) !! WebSocketManager.ws connection = Some sock →
       readyState sock = 1 →
       sentOn (WebSocketManager.ws connection) s'
         = sent sock ++ [MsgStamped "recording-stopped" now]) ∧
  (processingQueue s !! sid = None → buffered sid s ≠ [] →
     calls s' = calls s ++
       [(nextCall s,
         {| call_session := sid;
            call_audio := Buffer_concat (buffered sid s);
            call_metadata :=
              Some (spread_set (WebSocketManager.metadata connection)
                      "isRecording" (JBool false)) |})] ∧
     buffered sid s' = [] ∧
     awaiting s' = awaiting s ++ [(nextCall s, KAck sid)] ∧
     processingQueue s' = processingQueue s ∧
     WebSocketManager.sockets (wsManager s') = WebSocketManager.sockets (wsManager s)) ∧
  (∀ ongoing, processingQueue s !! sid = Some ongoing →
     is_Some (outstanding s !! ongoing) →
     calls s' = calls s ∧ sessionBuffers s' = sessionBuffers s ∧
     awaiting s' = awaiting s ++ [(ongoing, KDrain sid)] ∧
     WebSocketManager.sockets (wsManager s') = WebSocketManager.sockets (wsManager s)).
Proof.
  intros Hc s'. subst s'. rewrite (handleControlMessage_stop now sid connection s Hc).
  set (s1 := setFlag sid connection "isRecording" false s).
  set (c1 := {| WebSocketManager.ws := WebSocketManager.ws connection;
                WebSocketManager.sessionId := WebSocketManager.sessionId connection;
                WebSocketManager.userId := WebSocketManager.userId connection;
                WebSocketManager.metadata :=
                  Some (spread_set (WebSocketManager.metadata connection)
                          "isRecording" (JBool false));
                WebSocketManager.isAlive := WebSocketManager.isAlive connection;
                WebSocketManager.lastActivity := WebSocketManager.lastActivity connection |}).
  assert (Hc1 : WebSocketManager.getConnection sid (wsManager s1) = Some c1).
  { unfold s1, setFlag, WebSocketManager.getConnection, WebSocketManager.setMetadata in *.
    srv_proj. cbn [WebSocketManager.connections]. by rewrite lookup_alter_eq, Hc. }
  assert (Hf1 : flag sid "isRecording" s1 = Some (JBool false))
    by by apply flag_setFlag.
  assert (Hkeep : ∀ x, flag sid "isRecording" x = flag sid "isRecording" s1 →
            flag sid "isRecording" x = Some (JBool false)) by (intros x ->; exact Hf1).
  unfold processBufferedAudio, drain, processAudioBuffer.
  change (processingQueue s1) with (processingQueue s).
  change (sessionBuffers s1) with (sessionBuffers s).
  change (outstanding s1) with (outstanding s).
  rewrite Hc1. unfold buffered.
  destruct (processingQueue s !! sid) as [ongoing|] eqn:Hq.
  - destruct (decide (is_Some (outstanding s !! ongoing))) as [Hout|Hout].
    + split; [by apply Hkeep|]. split; [done|]. split; [done|].
      intros ongoing' [= <-] _. done.
    + split; [|split; [done|split; [done|]]].
      * destruct (sessionBuffers s !! sid) as [buffer|]; [case_decide|]; srv_proj;
          apply Hkeep; try done; apply flag_sendMessage.
      * intros ongoing' [= <-] Hx. done.
  - split; [|split; [|split]].
    + destruct (sessionBuffers s !! sid) as [buffer|]; [case_decide|]; srv_proj;
        apply Hkeep; try done; apply flag_sendMessage.
    + intros _ Hempty.
      assert (Hnone : ∀ sock,
                WebSocketManager.sockets (wsManager s) !! WebSocketManager.ws connection
                  = Some sock → readyState sock = 1 →
                sentOn (WebSocketManager.ws connection) (acknowledgeStop now sid s1)
                = sent sock ++ [MsgStamped "recording-stopped" now]).
      { intros sock Hs Hr. unfold acknowledgeStop.
        by apply (sendMessage_sent now sid _ s1 c1 sock). }
      destruct (sessionBuffers s !! sid) as [buffer|]; cbn in Hempty.
      * subst buffer. rewrite decide_True by done. done.
      * done.
    + intros _ Hne.
      destruct (sessionBuffers s !! sid) as [buffer|] eqn:Hb; cbn in Hne; [|done].
      rewrite decide_False by (by destruct buffer). srv_proj.
      rewrite lookup_insert_eq. done.
    + intros ongoing [=].
Qed.

Lemma stop_recording_drain_witness :
  WebSocketManager.getConnection "s1" (wsManager Samples.connected)
    = Some Samples.s1_connection ∧
  flag "s1" "isRecording" (handleControlMessage 1 "s1" "stop-recording" Samples.connected)
    = Some (JBool false).
Proof.
  assert (Hc : WebSocketManager.getConnection "s1" (wsManager Samples.connected)
               = Some Samples.s1_connection) by (vm_compute; reflexivity).
  split; [exact Hc|].
  exact (proj1 (stop_recording_drain 1 "s1" Samples.connected Samples.s1_connection Hc)).
Defined.

(** X17 — Admission by the server.  When the registry refuses the
    connection, [handleConnection] closes the offered socket with code 1008
    and leaves buffers, events and both indices as they are.  When the
    registry accepts it, the session gets an empty buffer (whatever was
    buffered under that session id before is discarded), the connection is
    registered and one connection event is emitted. *)
Theorem connection_admission (now : Z) (p : WebSocketManager.Params) (s : t) :
  let s' := handleConnection now p s in
  let sid := WebSocketManager.p_sessionId p in
  (WebSocketManager.overCap (wsManager s) (WebSocketManager.p_userId p) = true →
     sessionBuffers s' = sessionBuffers s ∧ emitted s' = emitted s ∧
     WebSocketManager.connections (wsManager s') = WebSocketManager.connections (wsManager s) ∧
     WebSocketManager.userConnections (wsManager s')
       = WebSocketManager.userConnections (wsManager s) ∧
     ∀ w, WebSocketManager.sockets (wsManager s) !! WebSocketManager.p_ws p = Some w →
          WebSocketManager.sockets (wsManager s') !! WebSocketManager.p_ws p
            = Some (ws_close 1008 "Max connections exceeded" w)) ∧
  (WebSocketManager.overCap (wsManager s) (WebSocketManager.p_userId p) = false →
     sessionBuffers s' = <[sid := []]> (sessionBuffers s) ∧
     emitted s' = emitted s ++ [EvConnection sid (WebSocketManager.p_userId p)] ∧
     is_Some (WebSocketManager.getConnection sid (wsManager s')) ∧
     WebSocketManager.sockets (wsManager s') = WebSocketManager.sockets (wsManager s)).
Proof.
  intros s' sid. subst s' sid. unfold handleConnection, WebSocketManager.addConnection.
  split; intros ->; cbn [negb]; srv_proj.
  - repeat split; try done. intros w Hw. cbn [WebSocketManager.closeSocket
      WebSocketManager.sockets]. by rewrite lookup_alter_eq, Hw.
  - repeat split; try done. unfold WebSocketManager.getConnection.
    cbn [WebSocketManager.connections]. rewrite lookup_insert_eq. by eexists.
Qed.

Lemma connection_admission_witness :
  let s := new Samples.serverOptions Samples.heap in
  WebSocketManager.overCap (wsManager s) (Some "u1") = false ∧
  emitted (handleConnection 0 Samples.s1_params s)
    = emitted s ++ [EvConnection "s1" (Some "u1")].
Proof.
  intros s.
  assert (H : WebSocketManager.overCap (wsManager s) (Some "u1") = false) by reflexivity.
  split; [exact H|].
  exact (proj1 (proj2 (proj2 (connection_admission 0 Samples.s1_params s) H))).
Defined.

(** *** Delivery to a user *)

(** X18 — sendToUser.  In a server whose registry files every connection
    under its own session id, [sendToUser] answers the number of sends that
    succeeded: the number of sessions the userId index holds for the user
    that are registered with an open socket when [JSON.stringify] accepts
    the message, and 0, with the server left as it was, when it rejects
    it.  The connections of the sessions outside the user's set are
    untouched. *)
Theorem sendToUser_count (now : Z) (uid : string) (msg : Message) (s : t) :
  WebSocketManager.keyed (wsManager s) →
  (sendToUser now uid msg s).1
    = length (filter (λ sid, WebSocketManager.deliverable (wsManager s) sid
                             && serialisable msg = true)
                     (sessionsOf uid s)) ∧
  (serialisable msg = false →
     (sendToUser now uid msg s).1 = 0 ∧
     wsManager (sendToUser now uid msg s).2 = wsManager s) ∧
  (∀ sid, sid ∉ sessionsOf uid s →
     WebSocketManager.getConnection sid (wsManager (sendToUser now uid msg s).2)
     = WebSocketManager.getConnection sid (wsManager s)).
Proof.
  intros Hk. split; [|split].
  - unfold sendToUser, sessionsOf, WebSocketManager.getConnectionsByUser.
    cbn [fst snd]. srv_proj.
    destruct (WebSocketManager.userConnections (wsManager s) !! uid) as [us|];
      cbn [default].
    + destruct (WebSocketManagerMore.sessions_of_connections (wsManager s)
                  (serialisable msg) (elements us) Hk)
        as (Hnd & Hin & Hlen); [apply NoDup_elements|].
      destruct (WebSocketManagerMore.sendTo_fold now msg _ 0 (wsManager s) Hnd) as [Hn Hc].
      rewrite Hn. cbn [Nat.add]. exact Hlen.
    + rewrite elements_empty. cbn. done.
  - intros Hmsg. unfold sendToUser. cbn [fst snd]. srv_proj.
    by rewrite (WebSocketManagerMore.sendTo_unserialisable now msg _ 0 (wsManager s) Hmsg).
  - unfold sendToUser, sessionsOf, WebSocketManager.getConnectionsByUser,
      WebSocketManager.getConnection.
    cbn [fst snd]. srv_proj.
    destruct (WebSocketManager.userConnections (wsManager s) !! uid) as [us|];
      cbn [default].
    + destruct (WebSocketManagerMore.sessions_of_connections (wsManager s)
                  (serialisable msg) (elements us) Hk)
        as (Hnd & Hin & Hlen); [apply NoDup_elements|].
      destruct (WebSocketManagerMore.sendTo_fold now msg _ 0 (wsManager s) Hnd) as [Hn Hc].
      intros sid Hsid. apply Hc. intros H. by apply Hsid, Hin.
    + rewrite elements_empty. cbn. done.
Qed.

Lemma sendToUser_count_witness :
  WebSocketManager.keyed (wsManager Samples.connected) ∧
  (sendToUser 1 "u1" MsgPong Samples.connected).1 = 1 ∧
  (sendToUser 1 "u1" Samples.counter Samples.connected).1 = 0.
Proof.
  assert (H : WebSocketManager.keyed (wsManager Samples.connected)).
  { intros sid c Hc.
    change (WebSocketManager.connections (wsManager Samples.connected))
      with (<["s1" := Samples.s1_connection]>
              (∅ : gmap string WebSocketManager.WebSocketConnection)) in Hc.
    apply lookup_insert_Some in Hc as [[<- <-]|[_ Hc]]; [reflexivity|].
    rewrite lookup_empty in Hc. discriminate Hc. }
  split; [exact H|]. split.
  - rewrite (proj1 (sendToUser_count 1 "u1" MsgPong Samples.connected H)).
    vm_compute. reflexivity.
  - assert (Hn : serialisable Samples.counter = false) by (vm_compute; reflexivity).
    exact (proj1 (proj1 (proj2 (sendToUser_count 1 "u1" Samples.counter
                                  Samples.connected H)) Hn)).
Defined.

End AudioStreamServerMore.
